(** * Forme: the compiled layout and render engine

    A shallow embedding of the template compiler ([Build], [compile]) and of
    the per-frame pipeline ([Execute]: width distribution, layout, flex
    distribution, render) of the Go package, followed by the properties of the
    specification that concern them.

    Conventions of the embedding:
    - Go's [int16] and [int8] are integers of [Z] with the wrap-around of every
      conversion written out ([int16], [int8]); Go's [int] is 64 bits wide and
      is kept as an unbounded [Z];
    - [float32] is the binary32 format of [SpecFloat] (24 bits of precision);
    - a Go string is a [string] of bytes;
    - a pointer is an address in [Z], [nil] being address [0]; the state of the
      caller is a memory [Mem] read through the addresses;
    - a panic of the compiler is the result [None];
    - the cell buffer is not part of the engine: a buffer is the list of the
      writes it received, oldest first. *)

From Stdlib Require Import ZArith List Bool Lia String Ascii SpecFloat.
From stdpp Require Import base option list.
Set Warnings "-register-all".
Open Scope Z_scope.

(** ** Machine numbers *)

Definition wrap (bits : Z) (z : Z) : Z :=
  (z + 2 ^ (bits - 1)) mod 2 ^ bits - 2 ^ (bits - 1).

(** The conversions [int16(x)] and [int8(x)] of Go. *)
Definition int16 (z : Z) : Z := wrap 16 z.

Definition int8 (z : Z) : Z := wrap 8 z.

(** [uintptr] arithmetic is modulo [2^64]. *)
Definition uintptr (z : Z) : Z := z mod 2 ^ 64.

Definition nil : Z := 0.

Definition float32 : Type := spec_float.

Definition f32_zero : float32 := S754_zero false.

Definition f32_add : float32 -> float32 -> float32 := SFadd 24 128.

Definition f32_mul : float32 -> float32 -> float32 := SFmul 24 128.

Definition f32_div : float32 -> float32 -> float32 := SFdiv 24 128.

(** The conversion [float32(n)] of an integer: round to nearest, ties to
    even. *)
Definition f32_of_int (z : Z) : float32 := binary_normalize 24 128 z 0 false.

(** The comparison [x > 0]; false on NaN. *)
Definition f32_pos (x : float32) : bool := SFltb f32_zero x.

(** The comparison [x == 0]; false on NaN. *)
Definition f32_is0 (x : float32) : bool := SFeqb x f32_zero.

(** The integer part of a float, the fraction discarded. *)
Definition f32_trunc (x : float32) : Z :=
  match x with
  | S754_finite s m e =>
      let a := if 0 <=? e then Z.pos m * 2 ^ e else Z.pos m / 2 ^ (- e) in
      if s then - a else a
  | _ => 0
  end.

(** The conversion [int16(x)] of a [float32]. Go leaves the result to the
    implementation when the value does not fit; the 64-bit x86 port converts
    to 32 bits first, which yields the pattern [0x80000000] on NaN, on the
    infinities and out of range, and keeps the low 16 bits. *)
Definition f32_to_int16 (x : float32) : Z :=
  match x with
  | S754_finite _ _ _ =>
      let z := f32_trunc x in
      if (- 2 ^ 31 <=? z) && (z <? 2 ^ 31) then int16 z else 0
  | _ => 0
  end.

(** ** Strings *)

Definition byteZ (c : ascii) : Z := Z.of_N (N_of_ascii c).

(** Continuation byte of UTF-8: [0x80..0xBF]. *)
Definition inRange (lo hi b : Z) : bool := (lo <=? b) && (b <=? hi).

(** The table [first] of [unicode/utf8] on the bytes [>= 0x80]: the length of
    the sequence a byte starts and the range accepted for its second byte;
    [None] on a byte that starts no sequence. *)
Definition utf8First (b : Z) : option (Z * Z * Z) :=
  if inRange 194 223 b then Some (2, 128, 191)
  else if b =? 224 then Some (3, 160, 191)
  else if inRange 225 236 b then Some (3, 128, 191)
  else if b =? 237 then Some (3, 128, 159)
  else if inRange 238 239 b then Some (3, 128, 191)
  else if b =? 240 then Some (4, 144, 191)
  else if inRange 241 243 b then Some (4, 128, 191)
  else if b =? 244 then Some (4, 128, 143)
  else None.

(** [utf8.RuneCountInString]: an ill-formed or truncated sequence counts as
    one rune of one byte. *)
Fixpoint RuneCountInString (s : string) : Z :=
  match s with
  | EmptyString => 0
  | String c rest =>
      let b := byteZ c in
      if b <? 128 then 1 + RuneCountInString rest
      else
        match utf8First b, rest with
        | Some (2, lo, hi), String c1 r1 =>
            if inRange lo hi (byteZ c1)
            then 1 + RuneCountInString r1
            else 1 + RuneCountInString rest
        | Some (3, lo, hi), String c1 (String c2 r2) =>
            if inRange lo hi (byteZ c1) && inRange 128 191 (byteZ c2)
            then 1 + RuneCountInString r2
            else 1 + RuneCountInString rest
        | Some (4, lo, hi), String c1 (String c2 (String c3 r3)) =>
            if inRange lo hi (byteZ c1) && inRange 128 191 (byteZ c2)
               && inRange 128 191 (byteZ c3)
            then 1 + RuneCountInString r3
            else 1 + RuneCountInString rest
        | _, _ => 1 + RuneCountInString rest
        end
  end.

(** ** Types the engine consumes *)

(** Modelled from the spec: the declaration of [BorderStyle] is not part of
    the engine's file; the engine reads its horizontal rune only, a border
    being present when the rune is not zero. *)
Record BorderStyle := mkBorderStyle { Horizontal : Z }.

(** Modelled from the spec: a styled run of text; the engine passes spans to
    the buffer without looking inside. *)
Record Span := mkSpan { SpanText : string; SpanStyle : Z }.

(** Modelled from the spec: [Style] and [Color] are opaque to the engine;
    a style is the colour of its foreground, [Style{}] being [0]. *)
Definition Color : Type := Z.

Record Style := mkStyle { FG : Color }.

Definition emptyStyle : Style := mkStyle 0.

Definition DefaultStyle : Style := mkStyle 0.

(** [ChildSize] and [Rect] of the custom layout interface. *)
Record ChildSize := mkChildSize { MinW : Z; MinH : Z }.

Record Rect := mkRect { RX : Z; RY : Z; RW : Z; RH : Z }.

Definition LayoutFunc : Type := list ChildSize -> Z -> Z -> list Rect.

(** The [Renderer] interface: the answer of [MinSize] and an identity under
    which the calls of [Render] are recorded. *)
Record Renderer := mkRenderer { MinSize : Z * Z; RendererId : Z }.

(** The header of a slice, as [reflect] lays it out. *)
Record sliceHeader := mkSliceHeader { Data : Z; Len : Z }.

(** Modelled from the spec: the fields of [SelectionList] that the engine
    reads and writes at execution: the pointer to the selected index, the cap
    on the visible items, the cached length and the windowing offset. *)
Record SelectionList := mkSelectionList {
  Selected : Z;
  MaxVisible : Z;
  len : Z;
  offset : Z }.

(** Modelled from the spec: the viewport of an off-screen layer. *)
Record Layer := mkLayer { viewWidth : Z; viewHeight : Z }.

Inductive condOp := condOpEq | condOpNe | condOpGt | condOpLt | condOpGte | condOpLte.

(** A condition built by [If(&x).Eq(v)] or [IfOrd(&x).Gt(v)], on integers:
    the pointer, the comparison, the value compared with, whether the
    comparison is an ordered one, and the offset from the element base that
    the compiler sets inside an iteration. *)
Record ConditionNode := mkConditionNode {
  cnPtr : Z;
  cnOp : condOp;
  cnVal : Z;
  cnOrd : bool;
  cnOff : option Z }.

(** Modelled from the spec: a switch node holds a pointer and the values of
    its cases; its match index is the position of the first case equal to the
    value pointed to, [-1] when there is none. *)
Record SwitchNodeInterface := mkSwitchNode { swPtr : Z; swVals : list Z }.

(** ** The caller's state *)

Record Mem := mkMem {
  strAt : Z -> string;
  intAt : Z -> Z;
  boolAt : Z -> bool;
  spansAt : Z -> list Span;
  colorAt : Z -> Color;
  sliceAt : Z -> sliceHeader;
  listAt : Z -> SelectionList;
  layerAt : Z -> Layer }.

Definition setList (p : Z) (v : SelectionList) (m : Mem) : Mem :=
  mkMem (strAt m) (intAt m) (boolAt m) (spansAt m) (colorAt m) (sliceAt m)
    (fun a => if a =? p then v else listAt m a) (layerAt m).

Definition setLayer (p : Z) (v : Layer) (m : Mem) : Mem :=
  mkMem (strAt m) (intAt m) (boolAt m) (spansAt m) (colorAt m) (sliceAt m)
    (listAt m) (fun a => if a =? p then v else layerAt m a).

(** ** Ops, geometry and templates *)

Inductive OpKind :=
| OpText | OpTextPtr | OpTextOff
| OpProgress | OpProgressPtr | OpProgressOff
| OpContainer
| OpIf | OpForEach | OpSwitch
| OpCustom | OpLayout | OpLayer
| OpRichText | OpRichTextPtr | OpRichTextOff
| OpSelectionList.

Definition OpKind_eqb (a b : OpKind) : bool :=
  match a, b with
  | OpText, OpText | OpTextPtr, OpTextPtr | OpTextOff, OpTextOff
  | OpProgress, OpProgress | OpProgressPtr, OpProgressPtr
  | OpProgressOff, OpProgressOff | OpContainer, OpContainer
  | OpIf, OpIf | OpForEach, OpForEach | OpSwitch, OpSwitch
  | OpCustom, OpCustom | OpLayout, OpLayout | OpLayer, OpLayer
  | OpRichText, OpRichText | OpRichTextPtr, OpRichTextPtr
  | OpRichTextOff, OpRichTextOff | OpSelectionList, OpSelectionList => true
  | _, _ => false
  end.

Record Geom := mkGeom { W : Z; H : Z; LocalX : Z; LocalY : Z; ContentH : Z }.

Definition zeroGeom : Geom := mkGeom 0 0 0 0 0.

Definition set_W (v : Z) (o : Geom) : Geom :=
  mkGeom v (H o) (LocalX o) (LocalY o) (ContentH o).

Definition set_H (v : Z) (o : Geom) : Geom :=
  mkGeom (W o) v (LocalX o) (LocalY o) (ContentH o).

Definition set_LocalX (v : Z) (o : Geom) : Geom :=
  mkGeom (W o) (H o) v (LocalY o) (ContentH o).

Definition set_LocalY (v : Z) (o : Geom) : Geom :=
  mkGeom (W o) (H o) (LocalX o) v (ContentH o).

Definition set_ContentH (v : Z) (o : Geom) : Geom :=
  mkGeom (W o) (H o) (LocalX o) (LocalY o) v.

Inductive Op := mkOp {
  Kind : OpKind;
  Depth : Z;
  Parent : Z;
  StaticStr : string;
  StrPtr : Z;
  StrOff : Z;
  StaticInt : Z;
  IntPtr : Z;
  IntOff : Z;
  Width : Z;
  Height : Z;
  PercentWidth : float32;
  FlexGrow : float32;
  Gap : Z;
  IsRow : bool;
  Border : BorderStyle;
  BorderFG : Z;
  Title : string;
  ChildStart : Z;
  ChildEnd : Z;
  CondPtr : Z;
  CondNode : option ConditionNode;
  ThenTmpl : option Template;
  ElseTmpl : option Template;
  IterTmpl : option Template;
  SlicePtr : Z;
  ElemSize : Z;
  iterGeoms : list Geom;
  SwitchNode : option SwitchNodeInterface;
  SwitchCases : list (option Template);
  SwitchDef : option Template;
  CustomRenderer : option Renderer;
  CustomLayout : option LayoutFunc;
  LayerPtr : Z;
  LayerWidth : Z;
  LayerHeight : Z;
  StaticSpans : list Span;
  SpansPtr : Z;
  SpansOff : Z;
  SelectionListPtr : Z;
  SelectedPtr : Z;
  Marker : string;
  MarkerWidth : Z
}
with Template := mkTemplate {
  ops : list Op;
  geom : list Geom;
  maxDepth : Z;
  byDepth : list (list Z);
  elemBase : Z }.

Definition set_Kind (v : OpKind) (o : Op) : Op :=
  mkOp v (Depth o) (Parent o) (StaticStr o) (StrPtr o) (StrOff o) (StaticInt
    o) (IntPtr o) (IntOff o) (Width o) (Height o) (PercentWidth o) (FlexGrow
    o) (Gap o) (IsRow o) (Border o) (BorderFG o) (Title o) (ChildStart o)
    (ChildEnd o) (CondPtr o) (CondNode o) (ThenTmpl o) (ElseTmpl o) (IterTmpl
    o) (SlicePtr o) (ElemSize o) (iterGeoms o) (SwitchNode o) (SwitchCases o)
    (SwitchDef o) (CustomRenderer o) (CustomLayout o) (LayerPtr o)
    (LayerWidth o) (LayerHeight o) (StaticSpans o) (SpansPtr o) (SpansOff o)
    (SelectionListPtr o) (SelectedPtr o) (Marker o) (MarkerWidth o).

Definition set_Depth (v : Z) (o : Op) : Op :=
  mkOp (Kind o) v (Parent o) (StaticStr o) (StrPtr o) (StrOff o) (StaticInt
    o) (IntPtr o) (IntOff o) (Width o) (Height o) (PercentWidth o) (FlexGrow
    o) (Gap o) (IsRow o) (Border o) (BorderFG o) (Title o) (ChildStart o)
    (ChildEnd o) (CondPtr o) (CondNode o) (ThenTmpl o) (ElseTmpl o) (IterTmpl
    o) (SlicePtr o) (ElemSize o) (iterGeoms o) (SwitchNode o) (SwitchCases o)
    (SwitchDef o) (CustomRenderer o) (CustomLayout o) (LayerPtr o)
    (LayerWidth o) (LayerHeight o) (StaticSpans o) (SpansPtr o) (SpansOff o)
    (SelectionListPtr o) (SelectedPtr o) (Marker o) (MarkerWidth o).

Definition set_Parent (v : Z) (o : Op) : Op :=
  mkOp (Kind o) (Depth o) v (StaticStr o) (StrPtr o) (StrOff o) (StaticInt o)
    (IntPtr o) (IntOff o) (Width o) (Height o) (PercentWidth o) (FlexGrow o)
    (Gap o) (IsRow o) (Border o) (BorderFG o) (Title o) (ChildStart o)
    (ChildEnd o) (CondPtr o) (CondNode o) (ThenTmpl o) (ElseTmpl o) (IterTmpl
    o) (SlicePtr o) (ElemSize o) (iterGeoms o) (SwitchNode o) (SwitchCases o)
    (SwitchDef o) (CustomRenderer o) (CustomLayout o) (LayerPtr o)
    (LayerWidth o) (LayerHeight o) (StaticSpans o) (SpansPtr o) (SpansOff o)
    (SelectionListPtr o) (SelectedPtr o) (Marker o) (MarkerWidth o).

Definition set_StaticStr (v : string) (o : Op) : Op :=
  mkOp (Kind o) (Depth o) (Parent o) v (StrPtr o) (StrOff o) (StaticInt o)
    (IntPtr o) (IntOff o) (Width o) (Height o) (PercentWidth o) (FlexGrow o)
    (Gap o) (IsRow o) (Border o) (BorderFG o) (Title o) (ChildStart o)
    (ChildEnd o) (CondPtr o) (CondNode o) (ThenTmpl o) (ElseTmpl o) (IterTmpl
    o) (SlicePtr o) (ElemSize o) (iterGeoms o) (SwitchNode o) (SwitchCases o)
    (SwitchDef o) (CustomRenderer o) (CustomLayout o) (LayerPtr o)
    (LayerWidth o) (LayerHeight o) (StaticSpans o) (SpansPtr o) (SpansOff o)
    (SelectionListPtr o) (SelectedPtr o) (Marker o) (MarkerWidth o).

Definition set_StrPtr (v : Z) (o : Op) : Op :=
  mkOp (Kind o) (Depth o) (Parent o) (StaticStr o) v (StrOff o) (StaticInt o)
    (IntPtr o) (IntOff o) (Width o) (Height o) (PercentWidth o) (FlexGrow o)
    (Gap o) (IsRow o) (Border o) (BorderFG o) (Title o) (ChildStart o)
    (ChildEnd o) (CondPtr o) (CondNode o) (ThenTmpl o) (ElseTmpl o) (IterTmpl
    o) (SlicePtr o) (ElemSize o) (iterGeoms o) (SwitchNode o) (SwitchCases o)
    (SwitchDef o) (CustomRenderer o) (CustomLayout o) (LayerPtr o)
    (LayerWidth o) (LayerHeight o) (StaticSpans o) (SpansPtr o) (SpansOff o)
    (SelectionListPtr o) (SelectedPtr o) (Marker o) (MarkerWidth o).

Definition set_StrOff (v : Z) (o : Op) : Op :=
  mkOp (Kind o) (Depth o) (Parent o) (StaticStr o) (StrPtr o) v (StaticInt o)
    (IntPtr o) (IntOff o) (Width o) (Height o) (PercentWidth o) (FlexGrow o)
    (Gap o) (IsRow o) (Border o) (BorderFG o) (Title o) (ChildStart o)
    (ChildEnd o) (CondPtr o) (CondNode o) (ThenTmpl o) (ElseTmpl o) (IterTmpl
    o) (SlicePtr o) (ElemSize o) (iterGeoms o) (SwitchNode o) (SwitchCases o)
    (SwitchDef o) (CustomRenderer o) (CustomLayout o) (LayerPtr o)
    (LayerWidth o) (LayerHeight o) (StaticSpans o) (SpansPtr o) (SpansOff o)
    (SelectionListPtr o) (SelectedPtr o) (Marker o) (MarkerWidth o).

Definition set_StaticInt (v : Z) (o : Op) : Op :=
  mkOp (Kind o) (Depth o) (Parent o) (StaticStr o) (StrPtr o) (StrOff o) v
    (IntPtr o) (IntOff o) (Width o) (Height o) (PercentWidth o) (FlexGrow o)
    (Gap o) (IsRow o) (Border o) (BorderFG o) (Title o) (ChildStart o)
    (ChildEnd o) (CondPtr o) (CondNode o) (ThenTmpl o) (ElseTmpl o) (IterTmpl
    o) (SlicePtr o) (ElemSize o) (iterGeoms o) (SwitchNode o) (SwitchCases o)
    (SwitchDef o) (CustomRenderer o) (CustomLayout o) (LayerPtr o)
    (LayerWidth o) (LayerHeight o) (StaticSpans o) (SpansPtr o) (SpansOff o)
    (SelectionListPtr o) (SelectedPtr o) (Marker o) (MarkerWidth o).

Definition set_IntPtr (v : Z) (o : Op) : Op :=
  mkOp (Kind o) (Depth o) (Parent o) (StaticStr o) (StrPtr o) (StrOff o)
    (StaticInt o) v (IntOff o) (Width o) (Height o) (PercentWidth o)
    (FlexGrow o) (Gap o) (IsRow o) (Border o) (BorderFG o) (Title o)
    (ChildStart o) (ChildEnd o) (CondPtr o) (CondNode o) (ThenTmpl o)
    (ElseTmpl o) (IterTmpl o) (SlicePtr o) (ElemSize o) (iterGeoms o)
    (SwitchNode o) (SwitchCases o) (SwitchDef o) (CustomRenderer o)
    (CustomLayout o) (LayerPtr o) (LayerWidth o) (LayerHeight o) (StaticSpans
    o) (SpansPtr o) (SpansOff o) (SelectionListPtr o) (SelectedPtr o) (Marker
    o) (MarkerWidth o).

Definition set_IntOff (v : Z) (o : Op) : Op :=
  mkOp (Kind o) (Depth o) (Parent o) (StaticStr o) (StrPtr o) (StrOff o)
    (StaticInt o) (IntPtr o) v (Width o) (Height o) (PercentWidth o)
    (FlexGrow o) (Gap o) (IsRow o) (Border o) (BorderFG o) (Title o)
    (ChildStart o) (ChildEnd o) (CondPtr o) (CondNode o) (ThenTmpl o)
    (ElseTmpl o) (IterTmpl o) (SlicePtr o) (ElemSize o) (iterGeoms o)
    (SwitchNode o) (SwitchCases o) (SwitchDef o) (CustomRenderer o)
    (CustomLayout o) (LayerPtr o) (LayerWidth o) (LayerHeight o) (StaticSpans
    o) (SpansPtr o) (SpansOff o) (SelectionListPtr o) (SelectedPtr o) (Marker
    o) (MarkerWidth o).

Definition set_Width (v : Z) (o : Op) : Op :=
  mkOp (Kind o) (Depth o) (Parent o) (StaticStr o) (StrPtr o) (StrOff o)
    (StaticInt o) (IntPtr o) (IntOff o) v (Height o) (PercentWidth o)
    (FlexGrow o) (Gap o) (IsRow o) (Border o) (BorderFG o) (Title o)
    (ChildStart o) (ChildEnd o) (CondPtr o) (CondNode o) (ThenTmpl o)
    (ElseTmpl o) (IterTmpl o) (SlicePtr o) (ElemSize o) (iterGeoms o)
    (SwitchNode o) (SwitchCases o) (SwitchDef o) (CustomRenderer o)
    (CustomLayout o) (LayerPtr o) (LayerWidth o) (LayerHeight o) (StaticSpans
    o) (SpansPtr o) (SpansOff o) (SelectionListPtr o) (SelectedPtr o) (Marker
    o) (MarkerWidth o).

Definition set_Height (v : Z) (o : Op) : Op :=
  mkOp (Kind o) (Depth o) (Parent o) (StaticStr o) (StrPtr o) (StrOff o)
    (StaticInt o) (IntPtr o) (IntOff o) (Width o) v (PercentWidth o)
    (FlexGrow o) (Gap o) (IsRow o) (Border o) (BorderFG o) (Title o)
    (ChildStart o) (ChildEnd o) (CondPtr o) (CondNode o) (ThenTmpl o)
    (ElseTmpl o) (IterTmpl o) (SlicePtr o) (ElemSize o) (iterGeoms o)
    (SwitchNode o) (SwitchCases o) (SwitchDef o) (CustomRenderer o)
    (CustomLayout o) (LayerPtr o) (LayerWidth o) (LayerHeight o) (StaticSpans
    o) (SpansPtr o) (SpansOff o) (SelectionListPtr o) (SelectedPtr o) (Marker
    o) (MarkerWidth o).

Definition set_PercentWidth (v : float32) (o : Op) : Op :=
  mkOp (Kind o) (Depth o) (Parent o) (StaticStr o) (StrPtr o) (StrOff o)
    (StaticInt o) (IntPtr o) (IntOff o) (Width o) (Height o) v (FlexGrow o)
    (Gap o) (IsRow o) (Border o) (BorderFG o) (Title o) (ChildStart o)
    (ChildEnd o) (CondPtr o) (CondNode o) (ThenTmpl o) (ElseTmpl o) (IterTmpl
    o) (SlicePtr o) (ElemSize o) (iterGeoms o) (SwitchNode o) (SwitchCases o)
    (SwitchDef o) (CustomRenderer o) (CustomLayout o) (LayerPtr o)
    (LayerWidth o) (LayerHeight o) (StaticSpans o) (SpansPtr o) (SpansOff o)
    (SelectionListPtr o) (SelectedPtr o) (Marker o) (MarkerWidth o).

Definition set_FlexGrow (v : float32) (o : Op) : Op :=
  mkOp (Kind o) (Depth o) (Parent o) (StaticStr o) (StrPtr o) (StrOff o)
    (StaticInt o) (IntPtr o) (IntOff o) (Width o) (Height o) (PercentWidth o)
    v (Gap o) (IsRow o) (Border o) (BorderFG o) (Title o) (ChildStart o)
    (ChildEnd o) (CondPtr o) (CondNode o) (ThenTmpl o) (ElseTmpl o) (IterTmpl
    o) (SlicePtr o) (ElemSize o) (iterGeoms o) (SwitchNode o) (SwitchCases o)
    (SwitchDef o) (CustomRenderer o) (CustomLayout o) (LayerPtr o)
    (LayerWidth o) (LayerHeight o) (StaticSpans o) (SpansPtr o) (SpansOff o)
    (SelectionListPtr o) (SelectedPtr o) (Marker o) (MarkerWidth o).

Definition set_Gap (v : Z) (o : Op) : Op :=
  mkOp (Kind o) (Depth o) (Parent o) (StaticStr o) (StrPtr o) (StrOff o)
    (StaticInt o) (IntPtr o) (IntOff o) (Width o) (Height o) (PercentWidth o)
    (FlexGrow o) v (IsRow o) (Border o) (BorderFG o) (Title o) (ChildStart o)
    (ChildEnd o) (CondPtr o) (CondNode o) (ThenTmpl o) (ElseTmpl o) (IterTmpl
    o) (SlicePtr o) (ElemSize o) (iterGeoms o) (SwitchNode o) (SwitchCases o)
    (SwitchDef o) (CustomRenderer o) (CustomLayout o) (LayerPtr o)
    (LayerWidth o) (LayerHeight o) (StaticSpans o) (SpansPtr o) (SpansOff o)
    (SelectionListPtr o) (SelectedPtr o) (Marker o) (MarkerWidth o).

Definition set_IsRow (v : bool) (o : Op) : Op :=
  mkOp (Kind o) (Depth o) (Parent o) (StaticStr o) (StrPtr o) (StrOff o)
    (StaticInt o) (IntPtr o) (IntOff o) (Width o) (Height o) (PercentWidth o)
    (FlexGrow o) (Gap o) v (Border o) (BorderFG o) (Title o) (ChildStart o)
    (ChildEnd o) (CondPtr o) (CondNode o) (ThenTmpl o) (ElseTmpl o) (IterTmpl
    o) (SlicePtr o) (ElemSize o) (iterGeoms o) (SwitchNode o) (SwitchCases o)
    (SwitchDef o) (CustomRenderer o) (CustomLayout o) (LayerPtr o)
    (LayerWidth o) (LayerHeight o) (StaticSpans o) (SpansPtr o) (SpansOff o)
    (SelectionListPtr o) (SelectedPtr o) (Marker o) (MarkerWidth o).

Definition set_Border (v : BorderStyle) (o : Op) : Op :=
  mkOp (Kind o) (Depth o) (Parent o) (StaticStr o) (StrPtr o) (StrOff o)
    (StaticInt o) (IntPtr o) (IntOff o) (Width o) (Height o) (PercentWidth o)
    (FlexGrow o) (Gap o) (IsRow o) v (BorderFG o) (Title o) (ChildStart o)
    (ChildEnd o) (CondPtr o) (CondNode o) (ThenTmpl o) (ElseTmpl o) (IterTmpl
    o) (SlicePtr o) (ElemSize o) (iterGeoms o) (SwitchNode o) (SwitchCases o)
    (SwitchDef o) (CustomRenderer o) (CustomLayout o) (LayerPtr o)
    (LayerWidth o) (LayerHeight o) (StaticSpans o) (SpansPtr o) (SpansOff o)
    (SelectionListPtr o) (SelectedPtr o) (Marker o) (MarkerWidth o).

Definition set_BorderFG (v : Z) (o : Op) : Op :=
  mkOp (Kind o) (Depth o) (Parent o) (StaticStr o) (StrPtr o) (StrOff o)
    (StaticInt o) (IntPtr o) (IntOff o) (Width o) (Height o) (PercentWidth o)
    (FlexGrow o) (Gap o) (IsRow o) (Border o) v (Title o) (ChildStart o)
    (ChildEnd o) (CondPtr o) (CondNode o) (ThenTmpl o) (ElseTmpl o) (IterTmpl
    o) (SlicePtr o) (ElemSize o) (iterGeoms o) (SwitchNode o) (SwitchCases o)
    (SwitchDef o) (CustomRenderer o) (CustomLayout o) (LayerPtr o)
    (LayerWidth o) (LayerHeight o) (StaticSpans o) (SpansPtr o) (SpansOff o)
    (SelectionListPtr o) (SelectedPtr o) (Marker o) (MarkerWidth o).

Definition set_Title (v : string) (o : Op) : Op :=
  mkOp (Kind o) (Depth o) (Parent o) (StaticStr o) (StrPtr o) (StrOff o)
    (StaticInt o) (IntPtr o) (IntOff o) (Width o) (Height o) (PercentWidth o)
    (FlexGrow o) (Gap o) (IsRow o) (Border o) (BorderFG o) v (ChildStart o)
    (ChildEnd o) (CondPtr o) (CondNode o) (ThenTmpl o) (ElseTmpl o) (IterTmpl
    o) (SlicePtr o) (ElemSize o) (iterGeoms o) (SwitchNode o) (SwitchCases o)
    (SwitchDef o) (CustomRenderer o) (CustomLayout o) (LayerPtr o)
    (LayerWidth o) (LayerHeight o) (StaticSpans o) (SpansPtr o) (SpansOff o)
    (SelectionListPtr o) (SelectedPtr o) (Marker o) (MarkerWidth o).

Definition set_ChildStart (v : Z) (o : Op) : Op :=
  mkOp (Kind o) (Depth o) (Parent o) (StaticStr o) (StrPtr o) (StrOff o)
    (StaticInt o) (IntPtr o) (IntOff o) (Width o) (Height o) (PercentWidth o)
    (FlexGrow o) (Gap o) (IsRow o) (Border o) (BorderFG o) (Title o) v
    (ChildEnd o) (CondPtr o) (CondNode o) (ThenTmpl o) (ElseTmpl o) (IterTmpl
    o) (SlicePtr o) (ElemSize o) (iterGeoms o) (SwitchNode o) (SwitchCases o)
    (SwitchDef o) (CustomRenderer o) (CustomLayout o) (LayerPtr o)
    (LayerWidth o) (LayerHeight o) (StaticSpans o) (SpansPtr o) (SpansOff o)
    (SelectionListPtr o) (SelectedPtr o) (Marker o) (MarkerWidth o).

Definition set_ChildEnd (v : Z) (o : Op) : Op :=
  mkOp (Kind o) (Depth o) (Parent o) (StaticStr o) (StrPtr o) (StrOff o)
    (StaticInt o) (IntPtr o) (IntOff o) (Width o) (Height o) (PercentWidth o)
    (FlexGrow o) (Gap o) (IsRow o) (Border o) (BorderFG o) (Title o)
    (ChildStart o) v (CondPtr o) (CondNode o) (ThenTmpl o) (ElseTmpl o)
    (IterTmpl o) (SlicePtr o) (ElemSize o) (iterGeoms o) (SwitchNode o)
    (SwitchCases o) (SwitchDef o) (CustomRenderer o) (CustomLayout o)
    (LayerPtr o) (LayerWidth o) (LayerHeight o) (StaticSpans o) (SpansPtr o)
    (SpansOff o) (SelectionListPtr o) (SelectedPtr o) (Marker o) (MarkerWidth
    o).

Definition set_CondPtr (v : Z) (o : Op) : Op :=
  mkOp (Kind o) (Depth o) (Parent o) (StaticStr o) (StrPtr o) (StrOff o)
    (StaticInt o) (IntPtr o) (IntOff o) (Width o) (Height o) (PercentWidth o)
    (FlexGrow o) (Gap o) (IsRow o) (Border o) (BorderFG o) (Title o)
    (ChildStart o) (ChildEnd o) v (CondNode o) (ThenTmpl o) (ElseTmpl o)
    (IterTmpl o) (SlicePtr o) (ElemSize o) (iterGeoms o) (SwitchNode o)
    (SwitchCases o) (SwitchDef o) (CustomRenderer o) (CustomLayout o)
    (LayerPtr o) (LayerWidth o) (LayerHeight o) (StaticSpans o) (SpansPtr o)
    (SpansOff o) (SelectionListPtr o) (SelectedPtr o) (Marker o) (MarkerWidth
    o).

Definition set_CondNode (v : option ConditionNode) (o : Op) : Op :=
  mkOp (Kind o) (Depth o) (Parent o) (StaticStr o) (StrPtr o) (StrOff o)
    (StaticInt o) (IntPtr o) (IntOff o) (Width o) (Height o) (PercentWidth o)
    (FlexGrow o) (Gap o) (IsRow o) (Border o) (BorderFG o) (Title o)
    (ChildStart o) (ChildEnd o) (CondPtr o) v (ThenTmpl o) (ElseTmpl o)
    (IterTmpl o) (SlicePtr o) (ElemSize o) (iterGeoms o) (SwitchNode o)
    (SwitchCases o) (SwitchDef o) (CustomRenderer o) (CustomLayout o)
    (LayerPtr o) (LayerWidth o) (LayerHeight o) (StaticSpans o) (SpansPtr o)
    (SpansOff o) (SelectionListPtr o) (SelectedPtr o) (Marker o) (MarkerWidth
    o).

Definition set_ThenTmpl (v : option Template) (o : Op) : Op :=
  mkOp (Kind o) (Depth o) (Parent o) (StaticStr o) (StrPtr o) (StrOff o)
    (StaticInt o) (IntPtr o) (IntOff o) (Width o) (Height o) (PercentWidth o)
    (FlexGrow o) (Gap o) (IsRow o) (Border o) (BorderFG o) (Title o)
    (ChildStart o) (ChildEnd o) (CondPtr o) (CondNode o) v (ElseTmpl o)
    (IterTmpl o) (SlicePtr o) (ElemSize o) (iterGeoms o) (SwitchNode o)
    (SwitchCases o) (SwitchDef o) (CustomRenderer o) (CustomLayout o)
    (LayerPtr o) (LayerWidth o) (LayerHeight o) (StaticSpans o) (SpansPtr o)
    (SpansOff o) (SelectionListPtr o) (SelectedPtr o) (Marker o) (MarkerWidth
    o).

Definition set_ElseTmpl (v : option Template) (o : Op) : Op :=
  mkOp (Kind o) (Depth o) (Parent o) (StaticStr o) (StrPtr o) (StrOff o)
    (StaticInt o) (IntPtr o) (IntOff o) (Width o) (Height o) (PercentWidth o)
    (FlexGrow o) (Gap o) (IsRow o) (Border o) (BorderFG o) (Title o)
    (ChildStart o) (ChildEnd o) (CondPtr o) (CondNode o) (ThenTmpl o) v
    (IterTmpl o) (SlicePtr o) (ElemSize o) (iterGeoms o) (SwitchNode o)
    (SwitchCases o) (SwitchDef o) (CustomRenderer o) (CustomLayout o)
    (LayerPtr o) (LayerWidth o) (LayerHeight o) (StaticSpans o) (SpansPtr o)
    (SpansOff o) (SelectionListPtr o) (SelectedPtr o) (Marker o) (MarkerWidth
    o).

Definition set_IterTmpl (v : option Template) (o : Op) : Op :=
  mkOp (Kind o) (Depth o) (Parent o) (StaticStr o) (StrPtr o) (StrOff o)
    (StaticInt o) (IntPtr o) (IntOff o) (Width o) (Height o) (PercentWidth o)
    (FlexGrow o) (Gap o) (IsRow o) (Border o) (BorderFG o) (Title o)
    (ChildStart o) (ChildEnd o) (CondPtr o) (CondNode o) (ThenTmpl o)
    (ElseTmpl o) v (SlicePtr o) (ElemSize o) (iterGeoms o) (SwitchNode o)
    (SwitchCases o) (SwitchDef o) (CustomRenderer o) (CustomLayout o)
    (LayerPtr o) (LayerWidth o) (LayerHeight o) (StaticSpans o) (SpansPtr o)
    (SpansOff o) (SelectionListPtr o) (SelectedPtr o) (Marker o) (MarkerWidth
    o).

Definition set_SlicePtr (v : Z) (o : Op) : Op :=
  mkOp (Kind o) (Depth o) (Parent o) (StaticStr o) (StrPtr o) (StrOff o)
    (StaticInt o) (IntPtr o) (IntOff o) (Width o) (Height o) (PercentWidth o)
    (FlexGrow o) (Gap o) (IsRow o) (Border o) (BorderFG o) (Title o)
    (ChildStart o) (ChildEnd o) (CondPtr o) (CondNode o) (ThenTmpl o)
    (ElseTmpl o) (IterTmpl o) v (ElemSize o) (iterGeoms o) (SwitchNode o)
    (SwitchCases o) (SwitchDef o) (CustomRenderer o) (CustomLayout o)
    (LayerPtr o) (LayerWidth o) (LayerHeight o) (StaticSpans o) (SpansPtr o)
    (SpansOff o) (SelectionListPtr o) (SelectedPtr o) (Marker o) (MarkerWidth
    o).

Definition set_ElemSize (v : Z) (o : Op) : Op :=
  mkOp (Kind o) (Depth o) (Parent o) (StaticStr o) (StrPtr o) (StrOff o)
    (StaticInt o) (IntPtr o) (IntOff o) (Width o) (Height o) (PercentWidth o)
    (FlexGrow o) (Gap o) (IsRow o) (Border o) (BorderFG o) (Title o)
    (ChildStart o) (ChildEnd o) (CondPtr o) (CondNode o) (ThenTmpl o)
    (ElseTmpl o) (IterTmpl o) (SlicePtr o) v (iterGeoms o) (SwitchNode o)
    (SwitchCases o) (SwitchDef o) (CustomRenderer o) (CustomLayout o)
    (LayerPtr o) (LayerWidth o) (LayerHeight o) (StaticSpans o) (SpansPtr o)
    (SpansOff o) (SelectionListPtr o) (SelectedPtr o) (Marker o) (MarkerWidth
    o).

Definition set_iterGeoms (v : list Geom) (o : Op) : Op :=
  mkOp (Kind o) (Depth o) (Parent o) (StaticStr o) (StrPtr o) (StrOff o)
    (StaticInt o) (IntPtr o) (IntOff o) (Width o) (Height o) (PercentWidth o)
    (FlexGrow o) (Gap o) (IsRow o) (Border o) (BorderFG o) (Title o)
    (ChildStart o) (ChildEnd o) (CondPtr o) (CondNode o) (ThenTmpl o)
    (ElseTmpl o) (IterTmpl o) (SlicePtr o) (ElemSize o) v (SwitchNode o)
    (SwitchCases o) (SwitchDef o) (CustomRenderer o) (CustomLayout o)
    (LayerPtr o) (LayerWidth o) (LayerHeight o) (StaticSpans o) (SpansPtr o)
    (SpansOff o) (SelectionListPtr o) (SelectedPtr o) (Marker o) (MarkerWidth
    o).

Definition set_SwitchNode (v : option SwitchNodeInterface) (o : Op) : Op :=
  mkOp (Kind o) (Depth o) (Parent o) (StaticStr o) (StrPtr o) (StrOff o)
    (StaticInt o) (IntPtr o) (IntOff o) (Width o) (Height o) (PercentWidth o)
    (FlexGrow o) (Gap o) (IsRow o) (Border o) (BorderFG o) (Title o)
    (ChildStart o) (ChildEnd o) (CondPtr o) (CondNode o) (ThenTmpl o)
    (ElseTmpl o) (IterTmpl o) (SlicePtr o) (ElemSize o) (iterGeoms o) v
    (SwitchCases o) (SwitchDef o) (CustomRenderer o) (CustomLayout o)
    (LayerPtr o) (LayerWidth o) (LayerHeight o) (StaticSpans o) (SpansPtr o)
    (SpansOff o) (SelectionListPtr o) (SelectedPtr o) (Marker o) (MarkerWidth
    o).

Definition set_SwitchCases (v : list (option Template)) (o : Op) : Op :=
  mkOp (Kind o) (Depth o) (Parent o) (StaticStr o) (StrPtr o) (StrOff o)
    (StaticInt o) (IntPtr o) (IntOff o) (Width o) (Height o) (PercentWidth o)
    (FlexGrow o) (Gap o) (IsRow o) (Border o) (BorderFG o) (Title o)
    (ChildStart o) (ChildEnd o) (CondPtr o) (CondNode o) (ThenTmpl o)
    (ElseTmpl o) (IterTmpl o) (SlicePtr o) (ElemSize o) (iterGeoms o)
    (SwitchNode o) v (SwitchDef o) (CustomRenderer o) (CustomLayout o)
    (LayerPtr o) (LayerWidth o) (LayerHeight o) (StaticSpans o) (SpansPtr o)
    (SpansOff o) (SelectionListPtr o) (SelectedPtr o) (Marker o) (MarkerWidth
    o).

Definition set_SwitchDef (v : option Template) (o : Op) : Op :=
  mkOp (Kind o) (Depth o) (Parent o) (StaticStr o) (StrPtr o) (StrOff o)
    (StaticInt o) (IntPtr o) (IntOff o) (Width o) (Height o) (PercentWidth o)
    (FlexGrow o) (Gap o) (IsRow o) (Border o) (BorderFG o) (Title o)
    (ChildStart o) (ChildEnd o) (CondPtr o) (CondNode o) (ThenTmpl o)
    (ElseTmpl o) (IterTmpl o) (SlicePtr o) (ElemSize o) (iterGeoms o)
    (SwitchNode o) (SwitchCases o) v (CustomRenderer o) (CustomLayout o)
    (LayerPtr o) (LayerWidth o) (LayerHeight o) (StaticSpans o) (SpansPtr o)
    (SpansOff o) (SelectionListPtr o) (SelectedPtr o) (Marker o) (MarkerWidth
    o).

Definition set_CustomRenderer (v : option Renderer) (o : Op) : Op :=
  mkOp (Kind o) (Depth o) (Parent o) (StaticStr o) (StrPtr o) (StrOff o)
    (StaticInt o) (IntPtr o) (IntOff o) (Width o) (Height o) (PercentWidth o)
    (FlexGrow o) (Gap o) (IsRow o) (Border o) (BorderFG o) (Title o)
    (ChildStart o) (ChildEnd o) (CondPtr o) (CondNode o) (ThenTmpl o)
    (ElseTmpl o) (IterTmpl o) (SlicePtr o) (ElemSize o) (iterGeoms o)
    (SwitchNode o) (SwitchCases o) (SwitchDef o) v (CustomLayout o) (LayerPtr
    o) (LayerWidth o) (LayerHeight o) (StaticSpans o) (SpansPtr o) (SpansOff
    o) (SelectionListPtr o) (SelectedPtr o) (Marker o) (MarkerWidth o).

Definition set_CustomLayout (v : option LayoutFunc) (o : Op) : Op :=
  mkOp (Kind o) (Depth o) (Parent o) (StaticStr o) (StrPtr o) (StrOff o)
    (StaticInt o) (IntPtr o) (IntOff o) (Width o) (Height o) (PercentWidth o)
    (FlexGrow o) (Gap o) (IsRow o) (Border o) (BorderFG o) (Title o)
    (ChildStart o) (ChildEnd o) (CondPtr o) (CondNode o) (ThenTmpl o)
    (ElseTmpl o) (IterTmpl o) (SlicePtr o) (ElemSize o) (iterGeoms o)
    (SwitchNode o) (SwitchCases o) (SwitchDef o) (CustomRenderer o) v
    (LayerPtr o) (LayerWidth o) (LayerHeight o) (StaticSpans o) (SpansPtr o)
    (SpansOff o) (SelectionListPtr o) (SelectedPtr o) (Marker o) (MarkerWidth
    o).

Definition set_LayerPtr (v : Z) (o : Op) : Op :=
  mkOp (Kind o) (Depth o) (Parent o) (StaticStr o) (StrPtr o) (StrOff o)
    (StaticInt o) (IntPtr o) (IntOff o) (Width o) (Height o) (PercentWidth o)
    (FlexGrow o) (Gap o) (IsRow o) (Border o) (BorderFG o) (Title o)
    (ChildStart o) (ChildEnd o) (CondPtr o) (CondNode o) (ThenTmpl o)
    (ElseTmpl o) (IterTmpl o) (SlicePtr o) (ElemSize o) (iterGeoms o)
    (SwitchNode o) (SwitchCases o) (SwitchDef o) (CustomRenderer o)
    (CustomLayout o) v (LayerWidth o) (LayerHeight o) (StaticSpans o)
    (SpansPtr o) (SpansOff o) (SelectionListPtr o) (SelectedPtr o) (Marker o)
    (MarkerWidth o).

Definition set_LayerWidth (v : Z) (o : Op) : Op :=
  mkOp (Kind o) (Depth o) (Parent o) (StaticStr o) (StrPtr o) (StrOff o)
    (StaticInt o) (IntPtr o) (IntOff o) (Width o) (Height o) (PercentWidth o)
    (FlexGrow o) (Gap o) (IsRow o) (Border o) (BorderFG o) (Title o)
    (ChildStart o) (ChildEnd o) (CondPtr o) (CondNode o) (ThenTmpl o)
    (ElseTmpl o) (IterTmpl o) (SlicePtr o) (ElemSize o) (iterGeoms o)
    (SwitchNode o) (SwitchCases o) (SwitchDef o) (CustomRenderer o)
    (CustomLayout o) (LayerPtr o) v (LayerHeight o) (StaticSpans o) (SpansPtr
    o) (SpansOff o) (SelectionListPtr o) (SelectedPtr o) (Marker o)
    (MarkerWidth o).

Definition set_LayerHeight (v : Z) (o : Op) : Op :=
  mkOp (Kind o) (Depth o) (Parent o) (StaticStr o) (StrPtr o) (StrOff o)
    (StaticInt o) (IntPtr o) (IntOff o) (Width o) (Height o) (PercentWidth o)
    (FlexGrow o) (Gap o) (IsRow o) (Border o) (BorderFG o) (Title o)
    (ChildStart o) (ChildEnd o) (CondPtr o) (CondNode o) (ThenTmpl o)
    (ElseTmpl o) (IterTmpl o) (SlicePtr o) (ElemSize o) (iterGeoms o)
    (SwitchNode o) (SwitchCases o) (SwitchDef o) (CustomRenderer o)
    (CustomLayout o) (LayerPtr o) (LayerWidth o) v (StaticSpans o) (SpansPtr
    o) (SpansOff o) (SelectionListPtr o) (SelectedPtr o) (Marker o)
    (MarkerWidth o).

Definition set_StaticSpans (v : list Span) (o : Op) : Op :=
  mkOp (Kind o) (Depth o) (Parent o) (StaticStr o) (StrPtr o) (StrOff o)
    (StaticInt o) (IntPtr o) (IntOff o) (Width o) (Height o) (PercentWidth o)
    (FlexGrow o) (Gap o) (IsRow o) (Border o) (BorderFG o) (Title o)
    (ChildStart o) (ChildEnd o) (CondPtr o) (CondNode o) (ThenTmpl o)
    (ElseTmpl o) (IterTmpl o) (SlicePtr o) (ElemSize o) (iterGeoms o)
    (SwitchNode o) (SwitchCases o) (SwitchDef o) (CustomRenderer o)
    (CustomLayout o) (LayerPtr o) (LayerWidth o) (LayerHeight o) v (SpansPtr
    o) (SpansOff o) (SelectionListPtr o) (SelectedPtr o) (Marker o)
    (MarkerWidth o).

Definition set_SpansPtr (v : Z) (o : Op) : Op :=
  mkOp (Kind o) (Depth o) (Parent o) (StaticStr o) (StrPtr o) (StrOff o)
    (StaticInt o) (IntPtr o) (IntOff o) (Width o) (Height o) (PercentWidth o)
    (FlexGrow o) (Gap o) (IsRow o) (Border o) (BorderFG o) (Title o)
    (ChildStart o) (ChildEnd o) (CondPtr o) (CondNode o) (ThenTmpl o)
    (ElseTmpl o) (IterTmpl o) (SlicePtr o) (ElemSize o) (iterGeoms o)
    (SwitchNode o) (SwitchCases o) (SwitchDef o) (CustomRenderer o)
    (CustomLayout o) (LayerPtr o) (LayerWidth o) (LayerHeight o) (StaticSpans
    o) v (SpansOff o) (SelectionListPtr o) (SelectedPtr o) (Marker o)
    (MarkerWidth o).

Definition set_SpansOff (v : Z) (o : Op) : Op :=
  mkOp (Kind o) (Depth o) (Parent o) (StaticStr o) (StrPtr o) (StrOff o)
    (StaticInt o) (IntPtr o) (IntOff o) (Width o) (Height o) (PercentWidth o)
    (FlexGrow o) (Gap o) (IsRow o) (Border o) (BorderFG o) (Title o)
    (ChildStart o) (ChildEnd o) (CondPtr o) (CondNode o) (ThenTmpl o)
    (ElseTmpl o) (IterTmpl o) (SlicePtr o) (ElemSize o) (iterGeoms o)
    (SwitchNode o) (SwitchCases o) (SwitchDef o) (CustomRenderer o)
    (CustomLayout o) (LayerPtr o) (LayerWidth o) (LayerHeight o) (StaticSpans
    o) (SpansPtr o) v (SelectionListPtr o) (SelectedPtr o) (Marker o)
    (MarkerWidth o).

Definition set_SelectionListPtr (v : Z) (o : Op) : Op :=
  mkOp (Kind o) (Depth o) (Parent o) (StaticStr o) (StrPtr o) (StrOff o)
    (StaticInt o) (IntPtr o) (IntOff o) (Width o) (Height o) (PercentWidth o)
    (FlexGrow o) (Gap o) (IsRow o) (Border o) (BorderFG o) (Title o)
    (ChildStart o) (ChildEnd o) (CondPtr o) (CondNode o) (ThenTmpl o)
    (ElseTmpl o) (IterTmpl o) (SlicePtr o) (ElemSize o) (iterGeoms o)
    (SwitchNode o) (SwitchCases o) (SwitchDef o) (CustomRenderer o)
    (CustomLayout o) (LayerPtr o) (LayerWidth o) (LayerHeight o) (StaticSpans
    o) (SpansPtr o) (SpansOff o) v (SelectedPtr o) (Marker o) (MarkerWidth o).

Definition set_SelectedPtr (v : Z) (o : Op) : Op :=
  mkOp (Kind o) (Depth o) (Parent o) (StaticStr o) (StrPtr o) (StrOff o)
    (StaticInt o) (IntPtr o) (IntOff o) (Width o) (Height o) (PercentWidth o)
    (FlexGrow o) (Gap o) (IsRow o) (Border o) (BorderFG o) (Title o)
    (ChildStart o) (ChildEnd o) (CondPtr o) (CondNode o) (ThenTmpl o)
    (ElseTmpl o) (IterTmpl o) (SlicePtr o) (ElemSize o) (iterGeoms o)
    (SwitchNode o) (SwitchCases o) (SwitchDef o) (CustomRenderer o)
    (CustomLayout o) (LayerPtr o) (LayerWidth o) (LayerHeight o) (StaticSpans
    o) (SpansPtr o) (SpansOff o) (SelectionListPtr o) v (Marker o)
    (MarkerWidth o).

Definition set_Marker (v : string) (o : Op) : Op :=
  mkOp (Kind o) (Depth o) (Parent o) (StaticStr o) (StrPtr o) (StrOff o)
    (StaticInt o) (IntPtr o) (IntOff o) (Width o) (Height o) (PercentWidth o)
    (FlexGrow o) (Gap o) (IsRow o) (Border o) (BorderFG o) (Title o)
    (ChildStart o) (ChildEnd o) (CondPtr o) (CondNode o) (ThenTmpl o)
    (ElseTmpl o) (IterTmpl o) (SlicePtr o) (ElemSize o) (iterGeoms o)
    (SwitchNode o) (SwitchCases o) (SwitchDef o) (CustomRenderer o)
    (CustomLayout o) (LayerPtr o) (LayerWidth o) (LayerHeight o) (StaticSpans
    o) (SpansPtr o) (SpansOff o) (SelectionListPtr o) (SelectedPtr o) v
    (MarkerWidth o).

Definition set_MarkerWidth (v : Z) (o : Op) : Op :=
  mkOp (Kind o) (Depth o) (Parent o) (StaticStr o) (StrPtr o) (StrOff o)
    (StaticInt o) (IntPtr o) (IntOff o) (Width o) (Height o) (PercentWidth o)
    (FlexGrow o) (Gap o) (IsRow o) (Border o) (BorderFG o) (Title o)
    (ChildStart o) (ChildEnd o) (CondPtr o) (CondNode o) (ThenTmpl o)
    (ElseTmpl o) (IterTmpl o) (SlicePtr o) (ElemSize o) (iterGeoms o)
    (SwitchNode o) (SwitchCases o) (SwitchDef o) (CustomRenderer o)
    (CustomLayout o) (LayerPtr o) (LayerWidth o) (LayerHeight o) (StaticSpans
    o) (SpansPtr o) (SpansOff o) (SelectionListPtr o) (SelectedPtr o) (Marker
    o) v.

Definition set_ops (v : list Op) (o : Template) : Template :=
  mkTemplate v (geom o) (maxDepth o) (byDepth o) (elemBase o).

Definition set_geom (v : list Geom) (o : Template) : Template :=
  mkTemplate (ops o) v (maxDepth o) (byDepth o) (elemBase o).

Definition set_maxDepth (v : Z) (o : Template) : Template :=
  mkTemplate (ops o) (geom o) v (byDepth o) (elemBase o).

Definition set_byDepth (v : list (list Z)) (o : Template) : Template :=
  mkTemplate (ops o) (geom o) (maxDepth o) v (elemBase o).

Definition set_elemBase (v : Z) (o : Template) : Template :=
  mkTemplate (ops o) (geom o) (maxDepth o) (byDepth o) v.

Definition zeroOp : Op :=
  mkOp OpText 0 0 EmptyString nil 0 0 nil 0 0 0 f32_zero f32_zero 0
    false (mkBorderStyle 0) nil EmptyString 0 0
    nil None None None None nil 0 [] None [] None None None
    nil 0 0 [] nil 0 nil nil EmptyString 0.

Notation "o |> f" := (f o) (at level 45, left associativity, only parsing).

(** Indexing by a Go integer: an index below zero addresses nothing. *)
Definition lookupZ {A} (l : list A) (i : Z) : option A :=
  if i <? 0 then None else l !! Z.to_nat i.

Definition alterZ {A} (f : A -> A) (i : Z) (l : list A) : list A :=
  if i <? 0 then l else alter f (Z.to_nat i) l.

Definition lenZ {A} (l : list A) : Z := Z.of_nat (length l).

(** ** The declarative tree *)

Inductive TextContent :=
| ContentString (s : string)
| ContentPtr (p : Z)
| ContentOther.

Inductive ProgressValue :=
| ValueInt (n : Z)
| ValuePtr (p : Z)
| ValueOther.

Inductive SpansValue :=
| SpansSlice (l : list Span)
| SpansPointer (p : Z)
| SpansOther.

Record flex := mkFlex {
  percentWidth : float32;
  width : Z;
  height : Z;
  flexGrow : float32 }.

(** What [reflect] tells of an [Items] value: not a pointer (the untyped nil
    included), a pointer to something that is not a slice, or a pointer to a
    slice, with its address and the size of one element. *)
Inductive ItemsValue :=
| ItemsNotPointer
| ItemsPointerToOther
| ItemsPointerToSlice (slicePtr elemSize : Z).

(** A node of the declaration. The iteration nodes carry the address of the
    probe element that [reflect.New] hands out and the node their [Render]
    function answers on it ([None]: a nil function); a component carries the
    node its [Build] method answers; a [SelectionList] is given with its own
    address, whether it was declared by value or by pointer. *)
Inductive Node :=
| NilNode
| Text (Content : TextContent)
| Progress (Value : ProgressValue) (BarWidth : Z)
| Row (Children : list Node) (gap : Z) (f : flex) (border : BorderStyle)
    (title : string) (borderFG : Z)
| Col (Children : list Node) (gap : Z) (f : flex) (border : BorderStyle)
    (title : string) (borderFG : Z)
| IfNode (Cond : option Z) (Then : Node)
| ForEachNode (Items : ItemsValue) (probe : Z) (Render : option Node)
| RendererNode (r : Renderer)
| Box (Layout : option LayoutFunc) (Children : list Node)
| Condition (cond : ConditionNode) (getThen getElse : Node)
| LayerView (layer : Z) (ViewWidth ViewHeight : Z) (grow : float32)
| RichText (Spans : SpansValue)
| SelectionListNode (self : Z) (Items : ItemsValue) (selected : Z)
    (marker : string) (probe : Z) (Render : option Node)
| Component (built : Node)
| Switch (sw : SwitchNodeInterface) (getCaseNodes : list Node)
    (getDefaultNode : Node)
| UnknownNode.

Definition isNilNode (n : Node) : bool :=
  match n with NilNode => true | _ => false end.

(** ** The compiler *)

Definition addOp (op : Op) (depth : Z) (t : Template) : Template * Z :=
  let idx := int16 (lenZ (ops t)) in
  let op := set_Depth (int8 depth) op in
  let t := set_ops (ops t ++ [op]) t in
  let t :=
    if 0 <=? depth then
      let bd :=
        if lenZ (byDepth t) <=? depth
        then byDepth t ++ replicate (Z.to_nat (depth + 1) - length (byDepth t)) []
        else byDepth t in
      let bd := alter (fun l => l ++ [idx]) (Z.to_nat depth) bd in
      let t := set_byDepth bd t in
      if maxDepth t <? depth then set_maxDepth depth t else t
    else t in
  (t, idx).

(** Modelled from the spec: [isWithinRange] is declared outside the engine's
    file; a pointer is element-relative when it lies within
    [[elem_base, elem_base + elem_size)]. *)
Definition isWithinRange (p base size : Z) : bool :=
  (base <=? p) && (p <? base + size).

(** A sub-template starts with room for eight depths. *)
Definition newTemplate (depths : nat) : Template :=
  mkTemplate [] [] 0 (replicate depths []) nil.

(** The end of every sub-template compilation: cut [byDepth] to the depths in
    use and allocate the geometry. *)
Definition finishSub (t : Template) : Template :=
  let t :=
    if 0 <=? maxDepth t
    then set_byDepth (take (Z.to_nat (maxDepth t + 1)) (byDepth t)) t
    else t in
  set_geom (replicate (length (ops t)) zeroGeom) t.

(** [t.ops[idx].ChildStart = childStart; t.ops[idx].ChildEnd = childEnd]:
    an index that wrapped below zero is out of range. *)
Definition setChildRange (idx : Z) (childStart : option Z) (childEnd : Z)
    (t : Template) : option Template :=
  if idx <? 0 then None
  else
    let upd o :=
      let o := match childStart with Some s => set_ChildStart s o | None => o end in
      set_ChildEnd childEnd o in
    Some (set_ops (alter upd (Z.to_nat idx) (ops t)) t).

Definition compileRenderer (r : Renderer) (parent depth : Z) (t : Template)
    : Template * Z :=
  addOp (zeroOp |> set_Kind OpCustom |> set_Parent parent
           |> set_CustomRenderer (Some r)) depth t.

Definition compileLayer (layer viewW viewH : Z) (grow : float32)
    (parent depth : Z) (t : Template) : Template * Z :=
  addOp (zeroOp |> set_Kind OpLayer |> set_Parent parent
           |> set_LayerPtr layer |> set_LayerWidth viewW
           |> set_LayerHeight viewH |> set_FlexGrow grow) depth t.

Definition compileRichText (spans : SpansValue) (parent depth : Z)
    (elemBase elemSize : Z) (t : Template) : Template * Z :=
  let op := zeroOp |> set_Parent parent in
  let op :=
    match spans with
    | SpansSlice l => op |> set_Kind OpRichText |> set_StaticSpans l
    | SpansPointer p =>
        if negb (elemBase =? nil) && isWithinRange p elemBase elemSize
        then op |> set_Kind OpRichTextOff
                |> set_SpansOff (uintptr (p - elemBase))
        else op |> set_Kind OpRichTextPtr |> set_SpansPtr p
    | SpansOther => op |> set_Kind OpRichText |> set_StaticSpans []
    end in
  addOp op depth t.

Definition compileText (content : TextContent) (parent depth : Z)
    (elemBase elemSize : Z) (t : Template) : Template * Z :=
  let op := zeroOp |> set_Parent parent in
  let op :=
    match content with
    | ContentString s => op |> set_Kind OpText |> set_StaticStr s
    | ContentPtr p =>
        if negb (elemBase =? nil) && isWithinRange p elemBase elemSize
        then op |> set_Kind OpTextOff |> set_StrOff (uintptr (p - elemBase))
        else op |> set_Kind OpTextPtr |> set_StrPtr p
    | ContentOther => op
    end in
  addOp op depth t.

Definition compileProgress (value : ProgressValue) (barWidth : Z)
    (parent depth : Z) (elemBase elemSize : Z) (t : Template) : Template * Z :=
  let width := if barWidth =? 0 then 20 else barWidth in
  let op := zeroOp |> set_Parent parent |> set_Width width in
  let op :=
    match value with
    | ValueInt n => op |> set_Kind OpProgress |> set_StaticInt n
    | ValuePtr p =>
        if negb (elemBase =? nil) && isWithinRange p elemBase elemSize
        then op |> set_Kind OpProgressOff |> set_IntOff (uintptr (p - elemBase))
        else op |> set_Kind OpProgressPtr |> set_IntPtr p
    | ValueOther => op
    end in
  addOp op depth t.

(** The condition of [compileCondition] after the check of its pointer
    against the element range. *)
Definition bindCondition (cond : ConditionNode) (elemBase elemSize : Z)
    : ConditionNode :=
  if negb (elemBase =? nil) && (0 <? elemSize)
     && (elemBase <=? cnPtr cond) && (cnPtr cond <? elemBase + elemSize)
  then mkConditionNode (cnPtr cond) (cnOp cond) (cnVal cond) (cnOrd cond)
         (Some (cnPtr cond - elemBase))
  else cond.

(** The functions of the compiler that call [compile] back take it as
    their first argument. *)
Section Compile.

Variable compile : Node -> Z -> Z -> Z -> Z -> Template -> option (Template * Z).

(** The compilation of a branch, of a case or of an iteration body as a
    sub-template of its own. *)
Definition compileSub (node : Node) (elemBase elemSize : Z) : option Template :=
  match compile node (-1) 0 elemBase elemSize (newTemplate 8) with
  | Some (s, _) => Some (finishSub s)
  | None => None
  end.

(** [for _, child := range children { t.compile(child, idx, depth+1, ...) }] *)
Fixpoint compileChildren (children : list Node) (idx depth : Z)
    (elemBase elemSize : Z) (t : Template) : option Template :=
  match children with
  | [] => Some t
  | child :: children =>
      match compile child idx depth elemBase elemSize t with
      | Some (t, _) => compileChildren children idx depth elemBase elemSize t
      | None => None
      end
  end.

Definition compileBox (layout : option LayoutFunc) (children : list Node)
    (parent depth : Z) (elemBase elemSize : Z) (t : Template)
    : option (Template * Z) :=
  let '(t, idx) :=
    addOp (zeroOp |> set_Kind OpLayout |> set_Parent parent
             |> set_CustomLayout layout
             |> set_ChildStart (int16 (lenZ (ops t)))) depth t in
  match compileChildren children idx (depth + 1) elemBase elemSize t with
  | Some t =>
      match setChildRange idx None (int16 (lenZ (ops t))) t with
      | Some t => Some (t, idx)
      | None => None
      end
  | None => None
  end.

Definition compileSelectionList (self : Z) (items : ItemsValue)
    (selected : Z) (marker : string) (probe : Z) (render : option Node)
    (parent depth : Z) (t : Template) : option (Template * Z) :=
  if self =? nil then None
  else
    match items with
    | ItemsPointerToSlice slicePtr sliceElemSize =>
        let marker := if String.eqb marker EmptyString
                      then String ">" (String " " EmptyString)
                      else marker in
        let markerWidth := int16 (RuneCountInString marker) in
        let op := zeroOp |> set_Kind OpSelectionList |> set_Parent parent
                    |> set_SlicePtr slicePtr |> set_ElemSize sliceElemSize
                    |> set_SelectionListPtr self
                    |> set_SelectedPtr selected |> set_Marker marker
                    |> set_MarkerWidth markerWidth in
        match render with
        | None => Some (addOp op depth t)
        | Some body =>
            match compileSub body probe sliceElemSize with
            | Some iterTmpl =>
                Some (addOp (set_IterTmpl (Some iterTmpl) op) depth t)
            | None => None
            end
        end
    | _ => None
    end.

Definition compileContainer (children : list Node) (gap : Z) (isRow : bool)
    (f : flex) (border : BorderStyle) (title : string) (borderFG : Z)
    (parent depth : Z) (elemBase elemSize : Z) (t : Template)
    : option (Template * Z) :=
  let op := zeroOp |> set_Kind OpContainer |> set_Parent parent
              |> set_IsRow isRow |> set_Gap gap
              |> set_PercentWidth (percentWidth f) |> set_Width (width f)
              |> set_Height (height f) |> set_FlexGrow (flexGrow f)
              |> set_Border border |> set_Title title
              |> set_BorderFG borderFG in
  let '(t, idx) := addOp op depth t in
  let childStart := int16 (lenZ (ops t)) in
  match compileChildren children idx (depth + 1) elemBase elemSize t with
  | Some t =>
      let childEnd := int16 (lenZ (ops t)) in
      match setChildRange idx (Some childStart) childEnd t with
      | Some t => Some (t, idx)
      | None => None
      end
  | None => None
  end.

Definition compileIf (cond : option Z) (then_ : Node) (parent depth : Z)
    (elemBase elemSize : Z) (t : Template) : option (Template * Z) :=
  let op := zeroOp |> set_Kind OpIf |> set_Parent parent in
  let op := match cond with Some p => set_CondPtr p op | None => op end in
  if isNilNode then_ then Some (addOp op depth t)
  else
    match compileSub then_ elemBase elemSize with
    | Some thenTmpl => Some (addOp (set_ThenTmpl (Some thenTmpl) op) depth t)
    | None => None
    end.

Definition compileCondition (cond : ConditionNode) (then_ else_ : Node)
    (parent depth : Z) (elemBase elemSize : Z) (t : Template)
    : option (Template * Z) :=
  let cond := bindCondition cond elemBase elemSize in
  let op := zeroOp |> set_Kind OpIf |> set_Parent parent
              |> set_CondNode (Some cond) in
  match
    (if isNilNode then_ then Some op
     else match compileSub then_ elemBase elemSize with
          | Some thenTmpl => Some (set_ThenTmpl (Some thenTmpl) op)
          | None => None
          end)
  with
  | Some op =>
      if isNilNode else_ then Some (addOp op depth t)
      else match compileSub else_ elemBase elemSize with
           | Some elseTmpl => Some (addOp (set_ElseTmpl (Some elseTmpl) op) depth t)
           | None => None
           end
  | None => None
  end.

(** The templates of the cases of a switch, nil for a nil case. *)
Fixpoint compileCases (caseNodes : list Node) (elemBase elemSize : Z)
    : option (list (option Template)) :=
  match caseNodes with
  | [] => Some []
  | caseNode :: caseNodes =>
      match
        (if isNilNode caseNode then Some None
         else match compileSub caseNode elemBase elemSize with
              | Some caseTmpl => Some (Some caseTmpl)
              | None => None
              end)
      with
      | Some c =>
          match compileCases caseNodes elemBase elemSize with
          | Some rest => Some (c :: rest)
          | None => None
          end
      | None => None
      end
  end.

Definition compileSwitch (sw : SwitchNodeInterface) (caseNodes : list Node)
    (defNode : Node) (parent depth : Z) (elemBase elemSize : Z)
    (t : Template) : option (Template * Z) :=
  let op := zeroOp |> set_Kind OpSwitch |> set_Parent parent
              |> set_SwitchNode (Some sw) in
  match compileCases caseNodes elemBase elemSize with
  | Some caseTmpls =>
      let op := set_SwitchCases caseTmpls op in
      if isNilNode defNode then Some (addOp op depth t)
      else match compileSub defNode elemBase elemSize with
           | Some defTmpl => Some (addOp (set_SwitchDef (Some defTmpl) op) depth t)
           | None => None
           end
  | None => None
  end.

(** [reflect] panics on an [Items] that is not a pointer to a slice, and on
    a nil [Render]. *)
Definition compileForEach (items : ItemsValue) (probe : Z)
    (render : option Node) (parent depth : Z) (t : Template)
    : option (Template * Z) :=
  match items, render with
  | ItemsPointerToSlice slicePtr elemSize, Some body =>
      match compileSub body probe elemSize with
      | Some iterTmpl =>
          Some (addOp (zeroOp |> set_Kind OpForEach |> set_Parent parent
                         |> set_SlicePtr slicePtr |> set_ElemSize elemSize
                         |> set_IterTmpl (Some iterTmpl)) depth t)
      | None => None
      end
  | _, _ => None
  end.

End Compile.

Fixpoint compile (node : Node) (parent depth : Z) (elemBase elemSize : Z)
    (t : Template) {struct node} : option (Template * Z) :=
  match node with
  | NilNode => Some (t, -1)
  | Text content =>
      Some (compileText content parent depth elemBase elemSize t)
  | Progress value barWidth =>
      Some (compileProgress value barWidth parent depth elemBase elemSize t)
  | Row children gap f border title borderFG =>
      compileContainer compile children gap true f border title borderFG
        parent depth elemBase elemSize t
  | Col children gap f border title borderFG =>
      compileContainer compile children gap false f border title borderFG
        parent depth elemBase elemSize t
  | IfNode cond then_ =>
      compileIf compile cond then_ parent depth elemBase elemSize t
  | ForEachNode items probe render =>
      compileForEach compile items probe render parent depth t
  | RendererNode r => Some (compileRenderer r parent depth t)
  | Box layout children =>
      compileBox compile layout children parent depth elemBase elemSize t
  | Condition cond then_ else_ =>
      compileCondition compile cond then_ else_ parent depth elemBase elemSize t
  | LayerView layer viewW viewH grow =>
      Some (compileLayer layer viewW viewH grow parent depth t)
  | RichText spans =>
      Some (compileRichText spans parent depth elemBase elemSize t)
  | SelectionListNode self items selected marker probe render =>
      compileSelectionList compile self items selected marker probe render
        parent depth t
  | Component built => compile built parent depth elemBase elemSize t
  | Switch sw caseNodes defNode =>
      compileSwitch compile sw caseNodes defNode parent depth elemBase elemSize t
  | UnknownNode => Some (t, -1)
  end.

(** The loop of [Build] that lowers [maxDepth] past the empty depths: [n] is
    [maxDepth + 1]. *)
Fixpoint trimDepth (bd : list (list Z)) (n : nat) : Z :=
  match n with
  | O => -1
  | S k =>
      match bd !! k with
      | Some (_ :: _) => Z.of_nat k
      | _ => trimDepth bd k
      end
  end.

Definition Build (ui : Node) : option Template :=
  match compile ui (-1) 0 nil 0 (newTemplate 16) with
  | Some (t, _) =>
      let t := set_maxDepth (trimDepth (byDepth t) (Z.to_nat (maxDepth t + 1))) t in
      let t :=
        if 0 <=? maxDepth t
        then set_byDepth (take (Z.to_nat (maxDepth t + 1)) (byDepth t)) t
        else t in
      Some (set_geom (replicate (length (ops t)) zeroGeom) t)
  | None => None
  end.

(** ** Execution: reading ops and geometry *)

Definition opAt (t : Template) (i : Z) : Op :=
  default zeroOp (lookupZ (ops t) i).

Definition geomAt (t : Template) (i : Z) : Geom :=
  default zeroGeom (lookupZ (geom t) i).

Definition updGeom (i : Z) (f : Geom -> Geom) (t : Template) : Template :=
  set_geom (alterZ f i (geom t)) t.

Definition updOp (i : Z) (f : Op -> Op) (t : Template) : Template :=
  set_ops (alterZ f i (ops t)) t.

(** A loop [for i := lo; i < hi; i++]. *)
Definition forRange {S} (lo hi : Z) (body : Z -> S -> S) (s : S) : S :=
  fold_left (fun s i => body i s) (seqZ lo (hi - lo)) s.

(** A loop [for _, i := range l]. *)
Definition forEach {A S} (l : list A) (body : A -> S -> S) (s : S) : S :=
  fold_left (fun s i => body i s) l s.

Definition hasBorder (op : Op) : bool := negb (Horizontal (Border op) =? 0).

Definition isKind (k : OpKind) (op : Op) : bool := OpKind_eqb (Kind op) k.

(** ** Phase 1: width distribution *)

Definition setOpWidth (op : Op) (g : Geom) (availW : Z) (elemBase : Z)
    (mem : Mem) : Geom :=
  match Kind op with
  | OpText => set_W (int16 (RuneCountInString (StaticStr op))) g
  | OpTextPtr => set_W (int16 (RuneCountInString (strAt mem (StrPtr op)))) g
  | OpTextOff =>
      if negb (elemBase =? nil)
      then set_W (int16 (RuneCountInString
                           (strAt mem (uintptr (elemBase + StrOff op))))) g
      else set_W 10 g
  | OpProgress | OpProgressPtr | OpProgressOff => set_W (Width op) g
  | OpCustom =>
      match CustomRenderer op with
      | Some r => set_W (int16 (fst (MinSize r))) g
      | None => g
      end
  | OpLayout => set_W availW g
  | OpLayer =>
      if 0 <? LayerWidth op then set_W (LayerWidth op) g else set_W availW g
  | OpSelectionList => set_W availW g
  | OpContainer =>
      if 0 <? Width op then set_W (Width op) g
      else if f32_pos (PercentWidth op)
      then set_W (f32_to_int16 (f32_mul (f32_of_int availW) (PercentWidth op))) g
      else set_W availW g
  | _ => set_W availW g
  end.

Definition distributeColChildWidths (idx : Z) (op : Op) (availW : Z)
    (elemBase : Z) (mem : Mem) (t : Template) : Template :=
  forRange (ChildStart op) (ChildEnd op)
    (fun i t =>
       let childOp := opAt t i in
       if negb (Parent childOp =? idx) then t
       else updGeom i (fun g => setOpWidth childOp g availW elemBase mem) t)
    t.

(** The number of direct children, counted in [int16]. *)
Definition childCount (idx : Z) (op : Op) (t : Template) : Z :=
  forRange (ChildStart op) (ChildEnd op)
    (fun i n => if Parent (opAt t i) =? idx then int16 (n + 1) else n) 0.

(** Pass 1 of the row: the state is the template, [usedW], [totalFlex],
    [flexChildren] and [implicitFlexChildren]. *)
Definition rowPass1 (idx : Z) (op : Op) (availW : Z) (elemBase : Z)
    (mem : Mem) (t : Template)
    : Template * Z * float32 * list Z * list Z :=
  forRange (ChildStart op) (ChildEnd op)
    (fun i '(t, usedW, totalFlex, flexChildren, implicitFlexChildren) =>
       let childOp := opAt t i in
       if negb (Parent childOp =? idx)
       then (t, usedW, totalFlex, flexChildren, implicitFlexChildren)
       else if f32_pos (FlexGrow childOp)
       then (t, usedW, f32_add totalFlex (FlexGrow childOp),
             flexChildren ++ [i], implicitFlexChildren)
       else if isKind OpContainer childOp && (Width childOp =? 0)
               && f32_is0 (PercentWidth childOp)
       then (t, usedW, totalFlex, flexChildren, implicitFlexChildren ++ [i])
       else
         let t := updGeom i (fun g => setOpWidth childOp g availW elemBase mem) t in
         (t, int16 (usedW + W (geomAt t i)), totalFlex,
          flexChildren, implicitFlexChildren))
    (t, 0, f32_zero, [], []).

(** The loop over the explicit flex children: the last one takes what is
    left. *)
Fixpoint rowFlexPass (remaining : Z) (totalFlex : float32)
    (flexChildren : list Z) (distributed : Z) (t : Template) : Template :=
  match flexChildren with
  | [] => t
  | childIdx :: rest =>
      let childOp := opAt t childIdx in
      let flexShare := f32_div (FlexGrow childOp) totalFlex in
      let flexW := f32_to_int16 (f32_mul (f32_of_int remaining) flexShare) in
      let flexW :=
        match rest with
        | [] => int16 (remaining - distributed)
        | _ => flexW
        end in
      let distributed := int16 (distributed + flexW) in
      rowFlexPass remaining totalFlex rest distributed
        (updGeom childIdx (set_W flexW) t)
  end.

(** The loop over the implicit flex children. *)
Fixpoint rowImplicitPass (remaining shareW : Z) (children : list Z)
    (distributed : Z) (t : Template) : Template :=
  match children with
  | [] => t
  | childIdx :: rest =>
      let w :=
        match rest with
        | [] => int16 (remaining - distributed)
        | _ => shareW
        end in
      rowImplicitPass remaining shareW rest (int16 (distributed + w))
        (updGeom childIdx (set_W w) t)
  end.

(** The gap cost added to the used size. *)
Definition addGaps (op : Op) (count used : Z) : Z :=
  if (1 <? count) && (0 <? Gap op)
  then int16 (used + int16 (int16 (Gap op) * int16 (count - 1)))
  else used.

Definition distributeRowChildWidths (idx : Z) (op : Op) (availW : Z)
    (elemBase : Z) (mem : Mem) (t : Template) : Template :=
  let '(t, usedW, totalFlex, flexChildren, implicitFlexChildren) :=
    rowPass1 idx op availW elemBase mem t in
  let usedW := addGaps op (childCount idx op t) usedW in
  let remaining := int16 (availW - usedW) in
  if (0 <? remaining) && f32_pos totalFlex
  then rowFlexPass remaining totalFlex flexChildren 0 t
  else if (0 <? remaining) && (0 <? lenZ implicitFlexChildren)
  then
    let shareW := int16 (Z.quot remaining (int16 (lenZ implicitFlexChildren))) in
    rowImplicitPass remaining shareW implicitFlexChildren 0 t
  else t.

Definition distributeWidthsToChildren (idx : Z) (op : Op) (g : Geom)
    (elemBase : Z) (mem : Mem) (t : Template) : Template :=
  let contentW := if hasBorder op then int16 (W g - 2) else W g in
  if IsRow op
  then distributeRowChildWidths idx op contentW elemBase mem t
  else distributeColChildWidths idx op contentW elemBase mem t.

Definition depthOps (t : Template) (depth : Z) : list Z :=
  default [] (lookupZ (byDepth t) depth).

Definition distributeWidths (screenW : Z) (elemBase : Z) (mem : Mem)
    (t : Template) : Template :=
  let t :=
    forEach (depthOps t 0)
      (fun idx t =>
         updGeom idx (fun g => setOpWidth (opAt t idx) g screenW elemBase mem) t)
      t in
  forRange 0 (maxDepth t + 1)
    (fun depth t =>
       forEach (depthOps t depth)
         (fun idx t =>
            let op := opAt t idx in
            if isKind OpContainer op
            then distributeWidthsToChildren idx op (geomAt t idx) elemBase mem t
            else t)
         t)
    t.

(** [Height]: the sum of the heights of the root ops. (The method is named
    [Template_Height] here, [Height] being the explicit height of an op.) *)
Definition Template_Height (t : Template) : Z :=
  if lenZ (geom t) =? 0 then 0
  else
    fst (forEach (ops t)
           (fun op '(totalH, i) =>
              (if Parent op =? -1 then int16 (totalH + H (geomAt t i)) else totalH,
               i + 1))
           (0, 0)).

(** ** Conditions, switches and selection lists at execution *)

Definition compareWith (c : ConditionNode) (v : Z) : bool :=
  match cnOp c with
  | condOpEq => v =? cnVal c
  | condOpNe => negb (v =? cnVal c)
  | condOpGt => cnOrd c && (cnVal c <? v)
  | condOpLt => cnOrd c && (v <? cnVal c)
  | condOpGte => cnOrd c && (cnVal c <=? v)
  | condOpLte => cnOrd c && (v <=? cnVal c)
  end.

Definition evaluate (c : ConditionNode) (mem : Mem) : bool :=
  compareWith c (intAt mem (cnPtr c)).

(** Modelled from the spec: [evaluateWithBase] is declared outside the files
    of the engine; a condition whose pointer was found element-relative reads
    its value at the recorded offset from the current element base, any other
    condition reads through its pointer. *)
Definition evaluateWithBase (c : ConditionNode) (base : Z) (mem : Mem) : bool :=
  match cnOff c with
  | Some off =>
      if base =? nil then evaluate c mem
      else compareWith c (intAt mem (uintptr (base + off)))
  | None => evaluate c mem
  end.

(** [(op.CondPtr != nil && *op.CondPtr) ||
     (op.CondNode != nil && op.CondNode.evaluateWithBase(base))] *)
Definition condTrueWithBase (op : Op) (base : Z) (mem : Mem) : bool :=
  (negb (CondPtr op =? nil) && boolAt mem (CondPtr op))
  || match CondNode op with
     | Some c => evaluateWithBase c base mem
     | None => false
     end.

Definition condTrueRender (op : Op) (mem : Mem) : bool :=
  (negb (CondPtr op =? nil) && boolAt mem (CondPtr op))
  || match CondNode op with
     | Some c => evaluate c mem
     | None => false
     end.

Fixpoint indexOf (v : Z) (l : list Z) (i : Z) : Z :=
  match l with
  | [] => -1
  | x :: l => if x =? v then i else indexOf v l (i + 1)
  end.

(** Modelled from the spec: the current match index of a switch node. *)
Definition getMatchIndex (sw : option SwitchNodeInterface) (mem : Mem) : Z :=
  match sw with
  | Some s => indexOf (intAt mem (swPtr s)) (swVals s) 0
  | None => -1
  end.

(** Where the template of a conditional or of a switch lives in its op. *)
Inductive Branch := ThenBranch | ElseBranch | CaseBranch (k : nat) | DefaultBranch.

Definition getBranch (b : Branch) (op : Op) : option Template :=
  match b with
  | ThenBranch => ThenTmpl op
  | ElseBranch => ElseTmpl op
  | CaseBranch k => mjoin (SwitchCases op !! k)
  | DefaultBranch => SwitchDef op
  end.

Definition setBranch (b : Branch) (s : Template) (op : Op) : Op :=
  match b with
  | ThenBranch => set_ThenTmpl (Some s) op
  | ElseBranch => set_ElseTmpl (Some s) op
  | CaseBranch k => set_SwitchCases (<[k := Some s]> (SwitchCases op)) op
  | DefaultBranch => set_SwitchDef (Some s) op
  end.

(** The branch of a conditional that is laid out and rendered:
    [ThenTmpl != nil && condTrue], else [ElseTmpl != nil && !condTrue]. *)
Definition ifBranch (op : Op) (condTrue : bool) : option (Branch * Template) :=
  match ThenTmpl op, condTrue with
  | Some s, true => Some (ThenBranch, s)
  | _, _ =>
      match ElseTmpl op, condTrue with
      | Some s, false => Some (ElseBranch, s)
      | _, _ => None
      end
  end.

(** The template a switch selects, [None] when it is nil. *)
Definition switchBranch (op : Op) (mem : Mem) : option (Branch * Template) :=
  let matchIdx := getMatchIndex (SwitchNode op) mem in
  let b :=
    if (0 <=? matchIdx) && (matchIdx <? lenZ (SwitchCases op))
    then CaseBranch (Z.to_nat matchIdx)
    else DefaultBranch in
  match getBranch b op with
  | Some s => Some (b, s)
  | None => None
  end.

(** Modelled from the spec: [ensureVisible] is declared outside the files of
    the engine: it "updates the caller-owned windowing offset so the selected
    index remains visible". Without a selected index or without a cap there is
    no window to move; otherwise the window [[offset, offset + MaxVisible)]
    moves by the least amount that brings the selected index inside. *)
Definition ensureVisible (s : SelectionList) (mem : Mem) : SelectionList :=
  if (Selected s =? nil) || (MaxVisible s <=? 0) then s
  else
    let sel := intAt mem (Selected s) in
    if sel <? offset s
    then mkSelectionList (Selected s) (MaxVisible s) (len s) sel
    else if offset s + MaxVisible s <=? sel
    then mkSelectionList (Selected s) (MaxVisible s) (len s)
           (sel - MaxVisible s + 1)
    else s.

(** ** Phase 2: layout *)

(** The case [OpSelectionList] of [layout]. *)
Definition layoutSelectionList (op : Op) (g : Geom) (mem : Mem) : Geom * Mem :=
  let sliceHdr := sliceAt mem (SlicePtr op) in
  let mem :=
    if negb (SelectionListPtr op =? nil) then
      let s := listAt mem (SelectionListPtr op) in
      let s := mkSelectionList (Selected s) (MaxVisible s) (Len sliceHdr) (offset s) in
      setList (SelectionListPtr op) (ensureVisible s mem) mem
    else mem in
  let visibleCount := Len sliceHdr in
  let visibleCount :=
    if negb (SelectionListPtr op =? nil)
       && (0 <? MaxVisible (listAt mem (SelectionListPtr op)))
       && (MaxVisible (listAt mem (SelectionListPtr op)) <? visibleCount)
    then MaxVisible (listAt mem (SelectionListPtr op))
    else visibleCount in
  let g := set_H (int16 visibleCount) g in
  ((if H g =? 0 then set_H 1 g else g), mem).

(** The case [OpLayer] of [layout]. *)
Definition layoutLayer (op : Op) (g : Geom) (mem : Mem) : Geom :=
  let g :=
    if 0 <? LayerHeight op then set_H (LayerHeight op) g
    else if f32_pos (FlexGrow op) then set_H 1 g
    else if negb (LayerPtr op =? nil) && (0 <? viewHeight (layerAt mem (LayerPtr op)))
    then set_H (int16 (viewHeight (layerAt mem (LayerPtr op)))) g
    else set_H 1 g in
  set_ContentH (H g) g.

Definition layoutCustom (idx : Z) (op : Op) (t : Template) : Template :=
  match CustomLayout op with
  | None => t
  | Some layoutFn =>
      let g := geomAt t idx in
      let childSizes :=
        forRange (ChildStart op) (ChildEnd op)
          (fun i sizes =>
             if negb (Parent (opAt t i) =? idx) then sizes
             else sizes ++ [mkChildSize (W (geomAt t i)) (H (geomAt t i))])
          [] in
      let rects := layoutFn childSizes (W g) (H g) in
      let '(t, _, maxH) :=
        forRange (ChildStart op) (ChildEnd op)
          (fun i '(t, childIdx, maxH) =>
             if negb (Parent (opAt t i) =? idx) then (t, childIdx, maxH)
             else
               match rects !! childIdx with
               | Some r =>
                   let t := updGeom i (fun g =>
                     g |> set_LocalX (int16 (RX r)) |> set_LocalY (int16 (RY r))
                       |> set_W (int16 (RW r)) |> set_H (int16 (RH r))) t in
                   let bottom := int16 (int16 (RY r) + int16 (RH r)) in
                   (t, S childIdx, if maxH <? bottom then bottom else maxH)
               | None => (t, S childIdx, maxH)
               end)
          (t, O, 0) in
      updGeom idx (set_H maxH) t
  end.

(** The steps every control-flow child repeats on its sub-template: hand the
    element base down, distribute widths, lay out. [layout] is the layout of
    a sub-template. *)
Definition layoutSub (layout : Template -> Mem -> Template * Mem)
    (sub : Template) (availW : Z) (base : Z) (mem : Mem) : Template * Mem :=
  let sub := set_elemBase base sub in
  let sub := distributeWidths availW base mem sub in
  layout sub mem.

Definition layoutForEach (layout : Template -> Mem -> Template * Mem)
    (op : Op) (availW : Z) (mem : Mem) : Op * Mem * Z * Z :=
  match IterTmpl op with
  | None => (op, mem, 0, 0)
  | Some iter =>
      if SlicePtr op =? nil then (op, mem, 0, 0)
      else
        let sliceHdr := sliceAt mem (SlicePtr op) in
        if Len sliceHdr =? 0 then (op, mem, 0, 0)
        else
          (* the scratch only ever holds geometry this loop overwrites, so
             its capacity is not told apart from its length *)
          let geoms :=
            if lenZ (iterGeoms op) <? Len sliceHdr
            then replicate (Z.to_nat (Len sliceHdr)) zeroGeom
            else take (Z.to_nat (Len sliceHdr)) (iterGeoms op) in
          let '(iter, geoms, mem, cursor, maxW) :=
            forRange 0 (Len sliceHdr)
              (fun i '(iter, geoms, mem, cursor, maxW) =>
                 let elemPtr := uintptr (Data sliceHdr + uintptr (i * ElemSize op)) in
                 let '(iter, mem) := layoutSub layout iter availW elemPtr mem in
                 let itemH := Template_Height iter in
                 let geoms := alterZ (fun g =>
                   g |> set_LocalX 0 |> set_LocalY cursor |> set_H itemH
                     |> set_W availW) i geoms in
                 (iter, geoms, mem, int16 (cursor + itemH),
                  if maxW <? availW then availW else maxW))
              (iter, geoms, mem, 0, 0) in
          (op |> set_IterTmpl (Some iter) |> set_iterGeoms geoms,
           mem, cursor, maxW)
  end.

(** The width a row takes from the sub-template of a control-flow child:
    [if len(tmpl.geom) > 0 { ... tmpl.geom[0].W }]. *)
Definition subRootW (sub : Template) : option Z :=
  match geom sub with
  | g :: _ => Some (W g)
  | [] => None
  end.

Definition layoutRowChild (layout : Template -> Mem -> Template * Mem)
    (idx : Z) (op : Op) (availW contentOffX contentOffY : Z) (i : Z)
    (st : Template * Mem * Z * Z * bool) : Template * Mem * Z * Z * bool :=
  let '(t, mem, cursor, maxH, firstChild) := st in
  let childOp := opAt t i in
  if negb (Parent childOp =? idx) then st
  else
    let cursor :=
      if negb firstChild && (0 <? Gap op) then int16 (cursor + int16 (Gap op))
      else cursor in
    let viaSub (b : option (Branch * Template)) :=
      match b with
      | Some (b, sub) =>
          let '(sub, mem) := layoutSub layout sub availW (elemBase t) mem in
          let h := Template_Height sub in
          let t := updOp i (setBranch b sub) t in
          let t := updGeom i (fun g =>
            g |> set_LocalX (int16 (contentOffX + cursor))
              |> set_LocalY contentOffY |> set_H h) t in
          let '(t, cursor) :=
            match subRootW sub with
            | Some w => (updGeom i (set_W w) t, int16 (cursor + w))
            | None => (t, cursor)
            end in
          (t, mem, cursor, if maxH <? h then h else maxH, false)
      | None => (t, mem, cursor, maxH, false)
      end in
    match Kind childOp with
    | OpIf => viaSub (ifBranch childOp (condTrueWithBase childOp (elemBase t) mem))
    | OpForEach =>
        let '(childOp, mem, h, w) := layoutForEach layout childOp availW mem in
        let t := updOp i (fun _ => childOp) t in
        let t := updGeom i (fun g =>
          g |> set_LocalX (int16 (contentOffX + cursor))
            |> set_LocalY contentOffY |> set_H h |> set_W w) t in
        (t, mem, int16 (cursor + w), if maxH <? h then h else maxH, false)
    | OpSwitch => viaSub (switchBranch childOp mem)
    | _ =>
        let t := updGeom i (fun g =>
          g |> set_LocalX (int16 (contentOffX + cursor))
            |> set_LocalY contentOffY) t in
        let childGeom := geomAt t i in
        (t, mem, int16 (cursor + W childGeom),
         if maxH <? H childGeom then H childGeom else maxH, false)
    end.

Definition layoutColChild (layout : Template -> Mem -> Template * Mem)
    (idx : Z) (op : Op) (availW contentOffX contentOffY : Z) (i : Z)
    (st : Template * Mem * Z * bool) : Template * Mem * Z * bool :=
  let '(t, mem, cursor, firstChild) := st in
  let childOp := opAt t i in
  if negb (Parent childOp =? idx) then st
  else
    let cursor :=
      if negb firstChild && (0 <? Gap op) then int16 (cursor + int16 (Gap op))
      else cursor in
    let viaSub (b : option (Branch * Template)) (contentToo : bool) :=
      match b with
      | Some (b, sub) =>
          let '(sub, mem) := layoutSub layout sub availW (elemBase t) mem in
          let h := Template_Height sub in
          let t := updOp i (setBranch b sub) t in
          let t := updGeom i (fun g =>
            let g := g |> set_LocalX contentOffX
                       |> set_LocalY (int16 (contentOffY + cursor)) |> set_H h in
            let g := if contentToo then set_ContentH h g else g in
            set_W availW g) t in
          (t, mem, int16 (cursor + h), false)
      | None =>
          let t := updGeom i (fun g =>
            let g := set_H 0 g in
            if contentToo then set_ContentH 0 g else g) t in
          (t, mem, cursor, false)
      end in
    match Kind childOp with
    | OpIf =>
        viaSub (ifBranch childOp (condTrueWithBase childOp (elemBase t) mem)) true
    | OpForEach =>
        let '(childOp, mem, h, _) := layoutForEach layout childOp availW mem in
        let t := updOp i (fun _ => childOp) t in
        let t := updGeom i (fun g =>
          g |> set_LocalX contentOffX
            |> set_LocalY (int16 (contentOffY + cursor))
            |> set_H h |> set_W availW) t in
        (t, mem, int16 (cursor + h), false)
    | OpSwitch => viaSub (switchBranch childOp mem) false
    | _ =>
        let t := updGeom i (fun g =>
          g |> set_LocalX contentOffX
            |> set_LocalY (int16 (contentOffY + cursor))) t in
        (t, mem, int16 (cursor + H (geomAt t i)), false)
    end.

Definition layoutContainer (layout : Template -> Mem -> Template * Mem)
    (idx : Z) (op : Op) (t : Template) (mem : Mem) : Template * Mem :=
  let contentOffX := if hasBorder op then 1 else 0 in
  let contentOffY := if hasBorder op then 1 else 0 in
  let availW := W (geomAt t idx) in
  let availW := if hasBorder op then int16 (availW - 2) else availW in
  let '(t, mem, h) :=
    if IsRow op then
      let '(t, mem, _, maxH, _) :=
        forRange (ChildStart op) (ChildEnd op)
          (layoutRowChild layout idx op availW contentOffX contentOffY)
          (t, mem, 0, 0, true) in
      (t, mem, maxH)
    else
      let '(t, mem, cursor, _) :=
        forRange (ChildStart op) (ChildEnd op)
          (layoutColChild layout idx op availW contentOffX contentOffY)
          (t, mem, 0, true) in
      (t, mem, cursor) in
  let h := if hasBorder op then int16 (h + 2) else h in
  let t := updGeom idx (fun g =>
    let g := g |> set_H h |> set_ContentH h in
    if 0 <? Height op then set_H (Height op) g else g) t in
  (t, mem).

(** The body of the loops of [layout] on one op. *)
Definition layoutOp (layout : Template -> Mem -> Template * Mem)
    (idx : Z) (st : Template * Mem) : Template * Mem :=
  let '(t, mem) := st in
  let op := opAt t idx in
  match Kind op with
  | OpText | OpTextPtr | OpTextOff
  | OpProgress | OpProgressPtr | OpProgressOff
  | OpRichText | OpRichTextPtr | OpRichTextOff =>
      (updGeom idx (set_H 1) t, mem)
  | OpSelectionList =>
      let '(g, mem) := layoutSelectionList op (geomAt t idx) mem in
      (updGeom idx (fun _ => g) t, mem)
  | OpCustom =>
      match CustomRenderer op with
      | Some r => (updGeom idx (set_H (int16 (snd (MinSize r)))) t, mem)
      | None => (t, mem)
      end
  | OpLayer => (updGeom idx (fun g => layoutLayer op g mem) t, mem)
  | OpLayout => (layoutCustom idx op t, mem)
  | OpContainer => layoutContainer layout idx op t mem
  | _ => (t, mem)
  end.

(** [layout], bottom-up. The fuel bounds the nesting of sub-templates inside
    sub-templates: one unit is used on entering a template. *)
Fixpoint layout (fuel : nat) (t : Template) (mem : Mem) : Template * Mem :=
  match fuel with
  | O => (t, mem)
  | S fuel =>
      forEach (reverse (seqZ 0 (maxDepth t + 1)))
        (fun depth st =>
           forEach (depthOps (fst st) depth) (layoutOp (layout fuel)) st)
        (t, mem)
  end.

(** ** Phase 3: flex distribution in columns *)

(** The template of the active branch of a conditional, as
    [getIfFlexGrow] and [propagateFlexToIf] select it. *)
Definition activeBranch (op : Op) (base : Z) (mem : Mem)
    : option (Branch * Template) :=
  let condTrue := condTrueWithBase op base mem in
  match (if condTrue then ThenTmpl op else None) with
  | Some s => Some (ThenBranch, s)
  | None =>
      match (if negb condTrue then ElseTmpl op else None) with
      | Some s => Some (ElseBranch, s)
      | None => None
      end
  end.

Definition getIfFlexGrow (t : Template) (op : Op) (mem : Mem) : float32 :=
  match activeBranch op (elemBase t) mem with
  | Some (_, tmpl) =>
      match ops tmpl with
      | rootOp :: _ =>
          if isKind OpContainer rootOp && f32_pos (FlexGrow rootOp)
          then FlexGrow rootOp
          else f32_zero
      | [] => f32_zero
      end
  | None => f32_zero
  end.

(** [distributeFlexGrow] is the flex distribution of a sub-template. *)
Definition propagateFlexToIf (distributeFlexGrow : Z -> Template -> Template)
    (t : Template) (op : Op) (newH : Z) (mem : Mem) : Op :=
  match activeBranch op (elemBase t) mem with
  | Some (b, tmpl) =>
      match ops tmpl with
      | rootOp :: _ =>
          if isKind OpContainer rootOp && f32_pos (FlexGrow rootOp)
          then setBranch b (distributeFlexGrow newH (updGeom 0 (set_H newH) tmpl)) op
          else op
      | [] => op
      end
  | None => op
  end.

(** The height a column may fill. *)
Definition colAvailH (idx : Z) (op : Op) (rootH : Z) (t : Template) : Z :=
  let g := geomAt t idx in
  let availH :=
    if f32_pos (FlexGrow op) && (0 <? H g)
    then if hasBorder op then int16 (H g - 2) else H g
    else if 0 <=? Parent op
    then
      let parentH := H (geomAt t (Parent op)) in
      if hasBorder (opAt t (Parent op)) then int16 (parentH - 2) else parentH
    else rootH in
  if 0 <? Height op
  then if hasBorder op then int16 (Height op - 2) else Height op
  else availH.

(** The first loop of [distributeFlexInCol]: [usedH], [totalFlex],
    [flexChildren] and [flexGrowValues]. *)
Definition colPass1 (idx : Z) (op : Op) (t : Template) (mem : Mem)
    : Z * float32 * list Z * list float32 :=
  forRange (ChildStart op) (ChildEnd op)
    (fun i '(usedH, totalFlex, flexChildren, flexGrowValues) =>
       let childOp := opAt t i in
       if negb (Parent childOp =? idx)
       then (usedH, totalFlex, flexChildren, flexGrowValues)
       else
         let childGeom := geomAt t i in
         if (isKind OpContainer childOp || isKind OpLayer childOp)
            && f32_pos (FlexGrow childOp)
         then (int16 (usedH + ContentH childGeom),
               f32_add totalFlex (FlexGrow childOp),
               flexChildren ++ [i], flexGrowValues ++ [FlexGrow childOp])
         else if isKind OpIf childOp && f32_pos (getIfFlexGrow t childOp mem)
         then (int16 (usedH + ContentH childGeom),
               f32_add totalFlex (getIfFlexGrow t childOp mem),
               flexChildren ++ [i],
               flexGrowValues ++ [getIfFlexGrow t childOp mem])
         else (int16 (usedH + H childGeom), totalFlex,
               flexChildren, flexGrowValues))
    (0, f32_zero, [], []).

(** The loop that hands the extra height out; the last flex child takes what
    is left. *)
Fixpoint colFlexPass (remaining : Z) (totalFlex : float32)
    (flexChildren : list Z) (flexGrowValues : list float32)
    (distributed : Z) (t : Template) : Template :=
  match flexChildren, flexGrowValues with
  | childIdx :: rest, grow :: grows =>
      let flexShare := f32_div grow totalFlex in
      let extraH := f32_to_int16 (f32_mul (f32_of_int remaining) flexShare) in
      let extraH :=
        match rest with
        | [] => int16 (remaining - distributed)
        | _ => extraH
        end in
      colFlexPass remaining totalFlex rest grows (int16 (distributed + extraH))
        (updGeom childIdx (fun g => set_H (int16 (ContentH g + extraH)) g) t)
  | _, _ => t
  end.

(** The sweep that recomputes the vertical positions of the children. *)
Definition colReposition (idx : Z) (op : Op) (t : Template) : Template :=
  let contentOffY := if hasBorder op then 1 else 0 in
  fst (fst
    (forRange (ChildStart op) (ChildEnd op)
       (fun i '(t, cursor, firstChild) =>
          if negb (Parent (opAt t i) =? idx) then (t, cursor, firstChild)
          else
            let cursor :=
              if negb firstChild && (0 <? Gap op)
              then int16 (cursor + int16 (Gap op)) else cursor in
            let t := updGeom i (set_LocalY (int16 (contentOffY + cursor))) t in
            (t, int16 (cursor + H (geomAt t i)), false))
       (t, 0, true))).

Definition distributeFlexInCol (distributeFlexGrow : Z -> Template -> Template)
    (idx : Z) (op : Op) (rootH : Z) (mem : Mem) (t : Template) : Template :=
  let availH := colAvailH idx op rootH t in
  let '(usedH, totalFlex, flexChildren, flexGrowValues) := colPass1 idx op t mem in
  let usedH := addGaps op (childCount idx op t) usedH in
  let remaining := int16 (availH - usedH) in
  if (0 <? remaining) && f32_pos totalFlex then
    let t := colFlexPass remaining totalFlex flexChildren flexGrowValues 0 t in
    let t := colReposition idx op t in
    let t :=
      forEach flexChildren
        (fun childIdx t =>
           let childOp := opAt t childIdx in
           if isKind OpIf childOp
           then updOp childIdx (fun _ =>
                  propagateFlexToIf distributeFlexGrow t childOp
                    (H (geomAt t childIdx)) mem) t
           else t)
        t in
    updGeom idx (set_H (if hasBorder op then int16 (availH + 2) else availH)) t
  else t.

(** [distributeFlexGrow], top-down; the fuel is that of [layout]. *)
Fixpoint distributeFlexGrow (fuel : nat) (mem : Mem) (rootH : Z)
    (t : Template) : Template :=
  match fuel with
  | O => t
  | S fuel =>
      forRange 0 (maxDepth t + 1)
        (fun depth t =>
           forEach (depthOps t depth)
             (fun idx t =>
                let op := opAt t idx in
                if isKind OpContainer op && negb (IsRow op)
                then distributeFlexInCol (distributeFlexGrow fuel mem) idx op rootH mem t
                else t)
             t)
        t
  end.

(** ** Render *)

(** The writes the engine asks of the buffer and of its collaborators. *)
Inductive BufCmd :=
| WriteStringFast (x y : Z) (s : string) (style : Style) (maxWidth : Z)
| WriteProgressBar (x y w : Z) (ratio : float32) (style : Style)
| WriteSpans (x y : Z) (spans : list Span) (maxWidth : Z)
| DrawBorder (x y w h : Z) (border : BorderStyle) (style : Style)
| RenderCall (r : Renderer) (x y w h : Z)
| Blit (layer : Z) (x y w h : Z).

Definition Buffer : Type := list BufCmd.

(** [float32(v) / 100.0] *)
Definition progressRatio (v : Z) : float32 :=
  f32_div (f32_of_int v) (f32_of_int 100).

(** Modelled from the spec: [SetViewport(w, h)] of a layer. *)
Definition SetViewport (layer w h : Z) (mem : Mem) : Mem :=
  setLayer layer (mkLayer w h) mem.

(** The title of a border: ["─ " + Title + " "]. *)
Definition titleStr (title : string) : string :=
  String "226" (String "148" (String "128" (String " "
    (String.append title (String " " EmptyString))))).

Definition spacesOf (n : Z) : string :=
  fold_right (fun _ s => String " " s) EmptyString (seqZ 0 n).

(** The case [OpLayer] of both render walks. *)
Definition renderLayer (op : Op) (g : Geom) (absX absY : Z)
    (st : Buffer * Mem) : Buffer * Mem :=
  let '(buf, mem) := st in
  if negb (LayerPtr op =? nil) then
    let layerW := if 0 <? LayerWidth op then LayerWidth op else W g in
    let mem := SetViewport (LayerPtr op) layerW (H g) mem in
    (buf ++ [Blit (LayerPtr op) absX absY layerW (H g)], mem)
  else st.

(** The border and the title of a container, in both render walks. *)
Definition renderBorder (op : Op) (g : Geom) (absX absY : Z) (mem : Mem)
    (buf : Buffer) : Buffer :=
  if hasBorder op then
    let style :=
      if negb (BorderFG op =? nil) then mkStyle (colorAt mem (BorderFG op))
      else DefaultStyle in
    let buf := buf ++ [DrawBorder absX absY (W g) (H g) (Border op) style] in
    if negb (String.eqb (Title op) EmptyString)
    then buf ++ [WriteStringFast (absX + 1) absY (titleStr (Title op)) style (W g - 2)]
    else buf
  else buf.

Definition renderSelectionList (op : Op) (absX absY maxW : Z) (mem : Mem)
    (buf : Buffer) : Buffer :=
  let sliceHdr := sliceAt mem (SlicePtr op) in
  if Len sliceHdr =? 0 then buf
  else
    let selectedIdx :=
      if negb (SelectedPtr op =? nil) then intAt mem (SelectedPtr op) else -1 in
    let list := listAt mem (SelectionListPtr op) in
    let windowed := negb (SelectionListPtr op =? nil) && (0 <? MaxVisible list) in
    let startIdx := if windowed then offset list else 0 in
    let endIdx :=
      if windowed
      then if Len sliceHdr <? startIdx + MaxVisible list
           then Len sliceHdr else startIdx + MaxVisible list
      else Len sliceHdr in
    let spaces := spacesOf (MarkerWidth op) in
    let contentW := maxW - MarkerWidth op in
    fst (forRange startIdx endIdx
      (fun i '(buf, y) =>
         let markerText := if i =? selectedIdx then Marker op else spaces in
         let buf := buf ++ [WriteStringFast absX y markerText emptyStyle maxW] in
         let buf :=
           match IterTmpl op with
           | Some iter =>
               match ops iter with
               | iterOp :: _ =>
                   let elemPtr := uintptr (Data sliceHdr + uintptr (i * ElemSize op)) in
                   let contentX := absX + MarkerWidth op in
                   match Kind iterOp with
                   | OpText =>
                       buf ++ [WriteStringFast contentX y (StaticStr iterOp)
                                 emptyStyle contentW]
                   | OpTextPtr =>
                       buf ++ [WriteStringFast contentX y
                                 (strAt mem (StrPtr iterOp)) emptyStyle contentW]
                   | OpTextOff =>
                       buf ++ [WriteStringFast contentX y
                                 (strAt mem (uintptr (elemPtr + StrOff iterOp)))
                                 emptyStyle contentW]
                   | OpRichText =>
                       buf ++ [WriteSpans contentX y (StaticSpans iterOp) contentW]
                   | OpRichTextPtr =>
                       buf ++ [WriteSpans contentX y
                                 (spansAt mem (SpansPtr iterOp)) contentW]
                   | OpRichTextOff =>
                       buf ++ [WriteSpans contentX y
                                 (spansAt mem (uintptr (elemPtr + SpansOff iterOp)))
                                 contentW]
                   | _ => buf
                   end
               | [] => buf
               end
           | None => buf
           end in
         (buf, y + 1))
      (buf, absY)).

(** The items an iteration renders: [i < sliceHdr.Len && i < len(iterGeoms)]. *)
Definition iterItems (op : Op) (mem : Mem) : list (Z * Geom) :=
  let n := Len (sliceAt mem (SlicePtr op)) in
  imap (fun i g => (Z.of_nat i, g)) (take (Z.to_nat n) (iterGeoms op)).

(** [renderSubOp], with [renderSubTemplate] inlined in it as the loop over
    the root ops of the sub-template. One unit of fuel is used by every
    call. *)
Fixpoint renderSubOp (fuel : nat) (sub : Template) (idx : Z)
    (globalX globalY maxW : Z) (elemBase : Z) (st : Buffer * Mem)
    : Buffer * Mem :=
  match fuel with
  | O => st
  | S fuel =>
      let renderSubTemplate (sub : Template) (globalX globalY maxW elemBase : Z)
          (st : Buffer * Mem) : Buffer * Mem :=
        fst (forEach (ops sub)
          (fun o '(st, i) =>
             (if Parent o =? -1
              then renderSubOp fuel sub (int16 i) globalX globalY maxW elemBase st
              else st, i + 1))
          (st, 0)) in
      let op := opAt sub idx in
      let g := geomAt sub idx in
      let absX := int16 (globalX + LocalX g) in
      let absY := int16 (globalY + LocalY g) in
      let '(buf, mem) := st in
      let children (st : Buffer * Mem) :=
        forRange (ChildStart op) (ChildEnd op)
          (fun i st =>
             if negb (Parent (opAt sub i) =? idx) then st
             else renderSubOp fuel sub i absX absY (W g) elemBase st)
          st in
      match Kind op with
      | OpText =>
          (buf ++ [WriteStringFast absX absY (StaticStr op) emptyStyle maxW], mem)
      | OpTextPtr =>
          (buf ++ [WriteStringFast absX absY (strAt mem (StrPtr op)) emptyStyle maxW],
           mem)
      | OpTextOff =>
          (buf ++ [WriteStringFast absX absY
                     (strAt mem (uintptr (elemBase + StrOff op))) emptyStyle maxW],
           mem)
      | OpProgress =>
          (buf ++ [WriteProgressBar absX absY (Width op)
                     (progressRatio (StaticInt op)) emptyStyle], mem)
      | OpProgressPtr =>
          (buf ++ [WriteProgressBar absX absY (Width op)
                     (progressRatio (intAt mem (IntPtr op))) emptyStyle], mem)
      | OpProgressOff =>
          (buf ++ [WriteProgressBar absX absY (Width op)
                     (progressRatio (intAt mem (uintptr (elemBase + IntOff op))))
                     emptyStyle], mem)
      | OpRichText => (buf ++ [WriteSpans absX absY (StaticSpans op) maxW], mem)
      | OpRichTextPtr =>
          (buf ++ [WriteSpans absX absY (spansAt mem (SpansPtr op)) maxW], mem)
      | OpRichTextOff =>
          (buf ++ [WriteSpans absX absY
                     (spansAt mem (uintptr (elemBase + SpansOff op))) maxW], mem)
      | OpSelectionList => (renderSelectionList op absX absY maxW mem buf, mem)
      | OpCustom =>
          match CustomRenderer op with
          | Some r => (buf ++ [RenderCall r absX absY (W g) (H g)], mem)
          | None => st
          end
      | OpLayout => children st
      | OpLayer => renderLayer op g absX absY st
      | OpContainer => children (renderBorder op g absX absY mem buf, mem)
      | OpIf =>
          match ifBranch op (condTrueWithBase op elemBase mem) with
          | Some (_, tmpl) => renderSubTemplate tmpl absX absY (W g) elemBase st
          | None => st
          end
      | OpForEach =>
          match IterTmpl op with
          | Some iter =>
              if negb (SlicePtr op =? nil) then
                let sliceHdr := sliceAt mem (SlicePtr op) in
                forEach (iterItems op mem)
                  (fun '(j, itemGeom) st =>
                     let itemAbsX := int16 (absX + LocalX itemGeom) in
                     let itemAbsY := int16 (absY + LocalY itemGeom) in
                     let nestedElemPtr :=
                       uintptr (Data sliceHdr + uintptr (j * ElemSize op)) in
                     renderSubTemplate iter itemAbsX itemAbsY (W itemGeom)
                       nestedElemPtr st)
                  st
              else st
          | None => st
          end
      | OpSwitch =>
          match switchBranch op mem with
          | Some (_, tmpl) => renderSubTemplate tmpl absX absY (W g) elemBase st
          | None => st
          end
      end
  end.

Definition renderSubTemplate (fuel : nat) (sub : Template)
    (globalX globalY maxW elemBase : Z) (st : Buffer * Mem) : Buffer * Mem :=
  fst (forEach (ops sub)
    (fun o '(st, i) =>
       (if Parent o =? -1
        then renderSubOp fuel sub (int16 i) globalX globalY maxW elemBase st
        else st, i + 1))
    (st, 0)).

(** [renderOp], the main render walk; [render] of a template is [renderOp]
    on its op [0]. *)
Fixpoint renderOp (fuel : nat) (t : Template) (idx : Z)
    (globalX globalY maxW : Z) (st : Buffer * Mem) : Buffer * Mem :=
  match fuel with
  | O => st
  | S fuel =>
      if (idx <? 0) || (lenZ (ops t) <=? idx) then st
      else
        let op := opAt t idx in
        let g := geomAt t idx in
        let absX := int16 (globalX + LocalX g) in
        let absY := int16 (globalY + LocalY g) in
        let '(buf, mem) := st in
        let children (st : Buffer * Mem) :=
          forRange (ChildStart op) (ChildEnd op)
            (fun i st =>
               if negb (Parent (opAt t i) =? idx) then st
               else renderOp fuel t i absX absY (W g) st)
            st in
        match Kind op with
        | OpText =>
            (buf ++ [WriteStringFast absX absY (StaticStr op) emptyStyle maxW], mem)
        | OpTextPtr =>
            (buf ++ [WriteStringFast absX absY (strAt mem (StrPtr op))
                       emptyStyle maxW], mem)
        | OpTextOff => st
        | OpProgress =>
            (buf ++ [WriteProgressBar absX absY (Width op)
                       (progressRatio (StaticInt op)) emptyStyle], mem)
        | OpProgressPtr =>
            (buf ++ [WriteProgressBar absX absY (Width op)
                       (progressRatio (intAt mem (IntPtr op))) emptyStyle], mem)
        | OpRichText => (buf ++ [WriteSpans absX absY (StaticSpans op) maxW], mem)
        | OpRichTextPtr =>
            (buf ++ [WriteSpans absX absY (spansAt mem (SpansPtr op)) maxW], mem)
        | OpRichTextOff => st
        | OpSelectionList => (renderSelectionList op absX absY maxW mem buf, mem)
        | OpCustom =>
            match CustomRenderer op with
            | Some r => (buf ++ [RenderCall r absX absY (W g) (H g)], mem)
            | None => st
            end
        | OpLayout => children st
        | OpLayer => renderLayer op g absX absY st
        | OpContainer => children (renderBorder op g absX absY mem buf, mem)
        | OpIf =>
            match ifBranch op (condTrueRender op mem) with
            | Some (_, tmpl) => renderOp fuel tmpl 0 absX absY (W g) st
            | None => st
            end
        | OpForEach =>
            match IterTmpl op with
            | Some iter =>
                if SlicePtr op =? nil then st
                else
                  let sliceHdr := sliceAt mem (SlicePtr op) in
                  if Len sliceHdr =? 0 then st
                  else
                    forEach (iterItems op mem)
                      (fun '(i, itemGeom) st =>
                         let itemAbsX := int16 (absX + LocalX itemGeom) in
                         let itemAbsY := int16 (absY + LocalY itemGeom) in
                         let elemPtr :=
                           uintptr (Data sliceHdr + uintptr (i * ElemSize op)) in
                         renderSubTemplate fuel iter itemAbsX itemAbsY
                           (W itemGeom) elemPtr st)
                      st
            | None => st
            end
        | OpSwitch =>
            match switchBranch op mem with
            | Some (_, tmpl) => renderOp fuel tmpl 0 absX absY (W g) st
            | None => st
            end
        | OpProgressOff => st
        end
  end.

Definition render (fuel : nat) (t : Template) (globalX globalY maxW : Z)
    (st : Buffer * Mem) : Buffer * Mem :=
  renderOp fuel t 0 globalX globalY maxW st.

(** ** Execute *)

(** The number of ops of a template, those of its sub-templates included,
    plus one: no walk of the template nests its calls deeper. *)
Fixpoint sizeT (t : Template) : nat :=
  S ((fix each (l : list Op) : nat :=
        match l with
        | [] => O
        | o :: l => (sizeOp o + each l)%nat
        end) (ops t))
with sizeOp (o : Op) : nat :=
  let sizeO (s : option Template) : nat :=
    match s with Some s => sizeT s | None => O end in
  S (sizeO (ThenTmpl o) + sizeO (ElseTmpl o) + sizeO (IterTmpl o)
     + sizeO (SwitchDef o)
     + (fix each (l : list (option Template)) : nat :=
          match l with
          | [] => O
          | c :: l => (sizeO c + each l)%nat
          end) (SwitchCases o))%nat.

(** [Execute] runs the three phases and renders; it answers the template
    with its geometry filled, the buffer and the state of the caller. *)
Definition Execute (t : Template) (buf : Buffer) (screenW screenH : Z)
    (mem : Mem) : Template * Buffer * Mem :=
  let fuel := sizeT t in
  let t := distributeWidths screenW nil mem t in
  let '(t, mem) := layout fuel t mem in
  let t := distributeFlexGrow fuel mem screenH t in
  let '(buf, mem) := render fuel t 0 0 screenW (buf, mem) in
  (t, buf, mem).

(** ** Render: text and progress leaves *)

Definition emptyMem : Mem :=
  mkMem (fun _ => EmptyString) (fun _ => 0) (fun _ => false) (fun _ => [])
    (fun _ => 0) (fun _ => mkSliceHeader 0 0)
    (fun _ => mkSelectionList 0 0 0 0) (fun _ => mkLayer 0 0).

(** A template of one leaf op, with its geometry allocated. *)
Definition leafTemplate (op : Op) : Template :=
  mkTemplate [op] [zeroGeom] 0 [[0]] nil.

Definition isProgressKind (k : OpKind) : bool :=
  match k with
  | OpProgress | OpProgressPtr | OpProgressOff => true
  | _ => false
  end.

(** The integer a progress op is bound to. *)
Definition progressValue (op : Op) (elemBase : Z) (mem : Mem) : Z :=
  match Kind op with
  | OpProgressPtr => intAt mem (IntPtr op)
  | OpProgressOff => intAt mem (uintptr (elemBase + IntOff op))
  | _ => StaticInt op
  end.

Definition progressBar (t : Template) (idx globalX globalY elemBase : Z)
    (mem : Mem) : BufCmd :=
  WriteProgressBar (int16 (globalX + LocalX (geomAt t idx)))
    (int16 (globalY + LocalY (geomAt t idx))) (Width (opAt t idx))
    (progressRatio (progressValue (opAt t idx) elemBase mem)) emptyStyle.

(** The float [1.0]. *)
Definition f32_one : float32 := S754_finite false 8388608 (-23).

Definition progressOffOp : Op :=
  zeroOp |> set_Kind OpProgressOff |> set_Width 20 |> set_IntOff 8.

(** ** Phase 1: the width of a text op *)

Definition isTextKind (k : OpKind) : bool :=
  match k with
  | OpText | OpTextPtr | OpTextOff => true
  | _ => false
  end.

(** The string the binding of a text op resolves to: the literal, the string
    behind the pointer, or the string at the offset from the current element
    base; an offset resolves to nothing without an element base. *)
Definition resolveText (op : Op) (elemBase : Z) (mem : Mem) : option string :=
  match Kind op with
  | OpText => Some (StaticStr op)
  | OpTextPtr => Some (strAt mem (StrPtr op))
  | OpTextOff =>
      if elemBase =? nil then None
      else Some (strAt mem (uintptr (elemBase + StrOff op)))
  | _ => None
  end.

(** ["café"], five bytes and four runes. *)
Definition cafe : string :=
  String "c" (String "a" (String "f" (String "195" (String "169" EmptyString)))).

(** A line of 32768 letters. *)
Definition longLine : string := Pos.iter (String "a") EmptyString 32768.

(** ** Phase 2: the height of a selection list *)

(** The number of visible items: the length of the sequence, capped at
    [MaxVisible] when that is positive. *)
Definition visibleCount (length maxVisible : Z) : Z :=
  if 0 <? maxVisible then Z.min length maxVisible else length.

(** A caller with a list at address 70 over a sequence of [n] items at
    address 500, the selected index [sel] being stored at address 50. *)
Definition listMem (n maxVisible sel : Z) : Mem :=
  mkMem (fun _ => EmptyString) (fun a => if a =? 50 then sel else 0)
    (fun _ => false) (fun _ => []) (fun _ => 0)
    (fun a => if a =? 500 then mkSliceHeader 1000 n else mkSliceHeader 0 0)
    (fun a => if a =? 70 then mkSelectionList 50 maxVisible 0 0
              else mkSelectionList 0 0 0 0)
    (fun _ => mkLayer 0 0).

Definition listOp : Op :=
  zeroOp |> set_Kind OpSelectionList |> set_SlicePtr 500
         |> set_SelectionListPtr 70 |> set_SelectedPtr 50.

(** ** The compiler *)

(** Induction on a declaration, with the hypothesis at hand for the children
    of a container, for every case of a switch and for the body an iteration
    renders. *)
Section NodeInduction.

Variable P : Node -> Prop.

Hypothesis onNil : P NilNode.
Hypothesis onText : forall c, P (Text c).
Hypothesis onProgress : forall v w, P (Progress v w).
Hypothesis onRow : forall cs gap f b title fg,
    Forall P cs -> P (Row cs gap f b title fg).
Hypothesis onCol : forall cs gap f b title fg,
    Forall P cs -> P (Col cs gap f b title fg).
Hypothesis onIf : forall c th, P th -> P (IfNode c th).
Hypothesis onForEach : forall items probe r,
    (forall body, r = Some body -> P body) -> P (ForEachNode items probe r).
Hypothesis onRenderer : forall r, P (RendererNode r).
Hypothesis onBox : forall layout cs, Forall P cs -> P (Box layout cs).
Hypothesis onCondition : forall c th el, P th -> P el -> P (Condition c th el).
Hypothesis onLayer : forall l w h g, P (LayerView l w h g).
Hypothesis onRichText : forall s, P (RichText s).
Hypothesis onSelectionList : forall self items sel marker probe r,
    (forall body, r = Some body -> P body) ->
    P (SelectionListNode self items sel marker probe r).
Hypothesis onComponent : forall b, P b -> P (Component b).
Hypothesis onSwitch : forall sw cs def,
    Forall P cs -> P def -> P (Switch sw cs def).
Hypothesis onUnknown : P UnknownNode.

Fixpoint Node_nested_ind (n : Node) : P n :=
  let all :=
    fix all (l : list Node) : Forall P l :=
      match l with
      | [] => @List.Forall_nil _ P
      | x :: l => @List.Forall_cons _ P x l (Node_nested_ind x) (all l)
      end in
  let body (r : option Node) : forall b, r = Some b -> P b :=
    match r with
    | Some b0 => fun b E =>
        eq_ind b0 P (Node_nested_ind b0) b (f_equal (default b0) E)
    | None => fun b E =>
        False_ind (P b) (eq_ind None (fun o => match o with Some _ => False | None => True end) I
                           (Some b) E)
    end in
  match n with
  | NilNode => onNil
  | Text c => onText c
  | Progress v w => onProgress v w
  | Row cs gap f b title fg => onRow cs gap f b title fg (all cs)
  | Col cs gap f b title fg => onCol cs gap f b title fg (all cs)
  | IfNode c th => onIf c th (Node_nested_ind th)
  | ForEachNode items probe r => onForEach items probe r (body r)
  | RendererNode r => onRenderer r
  | Box layout cs => onBox layout cs (all cs)
  | Condition c th el =>
      onCondition c th el (Node_nested_ind th) (Node_nested_ind el)
  | LayerView l w h g => onLayer l w h g
  | RichText s => onRichText s
  | SelectionListNode self items sel marker probe r =>
      onSelectionList self items sel marker probe r (body r)
  | Component b => onComponent b (Node_nested_ind b)
  | Switch sw cs def => onSwitch sw cs def (all cs) (Node_nested_ind def)
  | UnknownNode => onUnknown
  end.

End NodeInduction.

(** *** Rejected iteration sources *)

Definition isPointerToSlice (items : ItemsValue) : bool :=
  match items with
  | ItemsPointerToSlice _ _ => true
  | _ => false
  end.

(** A declaration holds a rejected source when a [ForEach] or a
    [SelectionList] whose [Items] is not a pointer to a slice stands at a
    place the compiler visits: among the children of a container, in the
    branch of a conditional, in a case of a switch, in what a component
    builds, in the body an iteration renders. *)
Fixpoint hasRejectedItems (n : Node) : bool :=
  let inBody (r : option Node) : bool :=
    match r with Some b => hasRejectedItems b | None => false end in
  match n with
  | Row cs _ _ _ _ _ | Col cs _ _ _ _ _ | Box _ cs => existsb hasRejectedItems cs
  | IfNode _ th => hasRejectedItems th
  | ForEachNode items _ r => negb (isPointerToSlice items) || inBody r
  | Condition _ th el => hasRejectedItems th || hasRejectedItems el
  | SelectionListNode _ items _ _ _ r => negb (isPointerToSlice items) || inBody r
  | Component b => hasRejectedItems b
  | Switch _ cs def => existsb hasRejectedItems cs || hasRejectedItems def
  | _ => false
  end.

Definition panics (n : Node) : Prop :=
  forall parent depth elemBase elemSize t,
    compile n parent depth elemBase elemSize t = None.

(** The parents of the ops a call of the compiler appends: none, or the
    parent it was given followed by parents that are indices of ops. *)
Definition appendsUnder (parent : Z) (t t' : Template) : Prop :=
  exists ps, map Parent (ops t') = map Parent (ops t) ++ ps
             /\ (ps = [] \/ exists rest, ps = parent :: rest
                                         /\ Forall (fun q => q <> -1) rest).

Definition recordsParents (n : Node) : Prop :=
  forall parent depth elemBase elemSize t t' r,
    compile n parent depth elemBase elemSize t = Some (t', r) ->
    appendsUnder parent t t'.

(** ** The height of a template *)

Definition sumZ (l : list Z) : Z := foldr Z.add 0 l.

(** The heights [geom[i].H] of the root ops, those whose parent is [-1],
    [i] being the index of the first op of [os]. *)
Fixpoint rootHeightsFrom (t : Template) (os : list Op) (i : Z) : list Z :=
  match os with
  | [] => []
  | o :: os =>
      if Parent o =? -1
      then H (geomAt t i) :: rootHeightsFrom t os (i + 1)
      else rootHeightsFrom t os (i + 1)
  end.

Definition rootHeights (t : Template) : list Z := rootHeightsFrom t (ops t) 0.

Definition heightStep (t : Template) (op : Op) (st : Z * Z) : Z * Z :=
  let '(totalH, i) := st in
  (if Parent op =? -1 then int16 (totalH + H (geomAt t i)) else totalH, i + 1).

Definition twoLines : Node :=
  Col [Text (ContentString "AAA"); Text (ContentString "BBB")]
    0 (mkFlex f32_zero 0 0 f32_zero) (mkBorderStyle 0) EmptyString nil.

(** The template of [twoLines] after one [Execute] on an empty buffer. *)
Definition twoLinesExecuted : Template :=
  match Build twoLines with
  | Some t => fst (fst (Execute t [] 20 5 emptyMem))
  | None => newTemplate 16
  end.

(** ** The shape of the compiled ops *)

(** The number of levels of ops a declaration compiles to: the ops of its
    sub-templates start again at depth zero and do not count. *)
Fixpoint levels (n : Node) : Z :=
  match n with
  | NilNode | UnknownNode => 0
  | Row cs _ _ _ _ _ | Col cs _ _ _ _ _ | Box _ cs =>
      1 + foldr Z.max 0 (map levels cs)
  | Component b => levels b
  | _ => 1
  end.

(** A run of ops laid out as the compiler lays a forest out, its first op at
    index [b], its roots under [parent] at depth [depth]: a tree is a leaf,
    whose [ChildEnd] is zero, or an op followed by the forest of its
    children, which [ChildEnd] closes. *)
Inductive wfForest : Z -> Z -> Z -> list Op -> Prop :=
| wfNil b parent depth : wfForest b parent depth []
| wfLeaf b parent depth op rest :
    Parent op = parent -> Depth op = depth -> ChildEnd op = 0 ->
    wfForest (b + 1) parent depth rest ->
    wfForest b parent depth (op :: rest)
| wfNode b parent depth op kids rest :
    Parent op = parent -> Depth op = depth ->
    ChildEnd op = b + 1 + lenZ kids ->
    wfForest (b + 1) b (depth + 1) kids ->
    wfForest (b + 1 + lenZ kids) parent depth rest ->
    wfForest b parent depth (op :: kids ++ rest).

(** [j] is a direct child of [i]: its parent is [i]. *)
Definition childOf (os : list Op) (j i : nat) : Prop :=
  exists o, os !! j = Some o /\ Parent o = Z.of_nat i.

(** [j] is a descendant of [i]: the chain of parents from [j] reaches [i]. *)
Inductive descendantOf (os : list Op) : nat -> nat -> Prop :=
| descendantChild j i : childOf os j i -> descendantOf os j i
| descendantStep j k i :
    childOf os j k -> descendantOf os k i -> descendantOf os j i.

Definition compilesWellFormed (n : Node) : Prop :=
  forall parent depth elemBase elemSize t t' r,
    compile n parent depth elemBase elemSize t = Some (t', r) ->
    lenZ (ops t') <= 32767 -> 0 <= depth -> depth + levels n <= 128 ->
    exists new, ops t' = ops t ++ new
                /\ wfForest (lenZ (ops t)) parent depth new.

Definition plainCol (cs : list Node) : Node :=
  Col cs 0 (mkFlex f32_zero 0 0 f32_zero) (mkBorderStyle 0) EmptyString nil.

Definition plainRow (cs : list Node) : Node :=
  Row cs 0 (mkFlex f32_zero 0 0 f32_zero) (mkBorderStyle 0) EmptyString nil.

(** A column of a text, a row of two texts, and a text. *)
Definition smallTree : Node :=
  plainCol [Text (ContentString "a");
            plainRow [Text (ContentString "b"); Text (ContentString "c")];
            Text (ContentString "d")].

Definition smallTemplate : Template := default (newTemplate 16) (Build smallTree).

(** A column nested [n] times in a column. *)
Fixpoint nestedCol (n : nat) : Node :=
  match n with
  | O => plainCol []
  | S n => plainCol [nestedCol n]
  end.

(** ** Phase 1: the flex children of a row *)

(** The direct children of the op [idx], in the order of the array. *)
Definition directChildren (idx : Z) (op : Op) (t : Template) : list Z :=
  List.filter (fun i => Parent (opAt t i) =? idx)
    (seqZ (ChildStart op) (ChildEnd op - ChildStart op)).

(** The explicit flex children of a row: the direct children whose
    [FlexGrow] is positive. *)
Definition rowFlexChildren (idx : Z) (op : Op) (t : Template) : list Z :=
  List.filter
    (fun i => (Parent (opAt t i) =? idx) && f32_pos (FlexGrow (opAt t i)))
    (seqZ (ChildStart op) (ChildEnd op - ChildStart op)).

(** The total flex of a row, summed in [float32] in the order of the
    children. *)
Definition rowTotalFlex (idx : Z) (op : Op) (t : Template) : float32 :=
  fold_left f32_add (map (fun i => FlexGrow (opAt t i)) (rowFlexChildren idx op t))
    f32_zero.

(** The width that remains for the flex children of a row: the available
    width less the widths of the fixed children and the gaps. *)
Definition rowRemaining (idx : Z) (op : Op) (availW elemBase : Z) (mem : Mem)
    (t : Template) : Z :=
  let '(t1, usedW, _, _, _) := rowPass1 idx op availW elemBase mem t in
  int16 (availW - addGaps op (childCount idx op t1) usedW).

(** The share of a flex child that is not the last:
    [int16(float32(remaining) * (flexGrow / totalFlex))]. *)
Definition flexShare (remaining : Z) (totalFlex grow : float32) : Z :=
  f32_to_int16 (f32_mul (f32_of_int remaining) (f32_div grow totalFlex)).

(** The sizes the loop over the flex children hands out. *)
Fixpoint flexSizes (remaining : Z) (totalFlex : float32) (grows : list float32)
    (distributed : Z) : list Z :=
  match grows with
  | [] => []
  | grow :: rest =>
      let w :=
        match rest with
        | [] => int16 (remaining - distributed)
        | _ => flexShare remaining totalFlex grow
        end in
      w :: flexSizes remaining totalFlex rest (int16 (distributed + w))
  end.

(** *** The first pass of a row *)

Definition rowPass1Step (idx : Z) (availW elemBase : Z) (mem : Mem) (i : Z)
    (st : Template * Z * float32 * list Z * list Z)
    : Template * Z * float32 * list Z * list Z :=
  let '(t, usedW, totalFlex, flexChildren, implicitFlexChildren) := st in
  let childOp := opAt t i in
  if negb (Parent childOp =? idx)
  then (t, usedW, totalFlex, flexChildren, implicitFlexChildren)
  else if f32_pos (FlexGrow childOp)
  then (t, usedW, f32_add totalFlex (FlexGrow childOp),
        flexChildren ++ [i], implicitFlexChildren)
  else if isKind OpContainer childOp && (Width childOp =? 0)
          && f32_is0 (PercentWidth childOp)
  then (t, usedW, totalFlex, flexChildren, implicitFlexChildren ++ [i])
  else
    let t := updGeom i (fun g => setOpWidth childOp g availW elemBase mem) t in
    (t, int16 (usedW + W (geomAt t i)), totalFlex,
     flexChildren, implicitFlexChildren).

(** A row of two empty columns with the flex weights [a] and [b]. *)
Definition flexRow (a b : Z) : Node :=
  plainRow [Col [] 0 (mkFlex f32_zero 0 0 (f32_of_int a)) (mkBorderStyle 0)
              EmptyString nil;
            Col [] 0 (mkFlex f32_zero 0 0 (f32_of_int b)) (mkBorderStyle 0)
              EmptyString nil].

Definition flexRowTemplate (a b : Z) : Template :=
  default (newTemplate 16) (Build (flexRow a b)).

(** The row with the weights [a] and [b] after the distribution of
    [availW] among its children. *)
Definition flexRowWidths (a b availW : Z) : Template :=
  distributeRowChildWidths 0 (opAt (flexRowTemplate a b) 0) availW nil emptyMem
    (flexRowTemplate a b).

(** ** Phase 3: the flex children of a column *)

(** A direct child takes part in the vertical flex when it is a container or
    a layer whose [FlexGrow] is positive, or a conditional whose active
    branch has such a container for root. *)
Definition isFlexChild (t : Template) (mem : Mem) (i : Z) : bool :=
  ((isKind OpContainer (opAt t i) || isKind OpLayer (opAt t i))
   && f32_pos (FlexGrow (opAt t i)))
  || (isKind OpIf (opAt t i) && f32_pos (getIfFlexGrow t (opAt t i) mem)).

(** The weight of a flex child. *)
Definition flexGrowOf (t : Template) (mem : Mem) (i : Z) : float32 :=
  if (isKind OpContainer (opAt t i) || isKind OpLayer (opAt t i))
     && f32_pos (FlexGrow (opAt t i))
  then FlexGrow (opAt t i)
  else getIfFlexGrow t (opAt t i) mem.

(** The height a child counts for in the used height: the content height of
    a flex child, the height of any other child. *)
Definition usedHeightOf (t : Template) (mem : Mem) (i : Z) : Z :=
  if isFlexChild t mem i then ContentH (geomAt t i) else H (geomAt t i).

Definition colFlexChildren (idx : Z) (op : Op) (t : Template) (mem : Mem)
    : list Z :=
  List.filter (isFlexChild t mem) (directChildren idx op t).

Definition colTotalFlex (idx : Z) (op : Op) (t : Template) (mem : Mem)
    : float32 :=
  fold_left f32_add (map (flexGrowOf t mem) (colFlexChildren idx op t mem))
    f32_zero.

(** The height that remains for the flex children of a column. *)
Definition colRemaining (idx : Z) (op : Op) (rootH : Z) (mem : Mem)
    (t : Template) : Z :=
  int16 (colAvailH idx op rootH t
         - addGaps op (childCount idx op t)
             (fst (fst (fst (colPass1 idx op t mem))))).

(** The border inset of a container: two cells when it has a border. *)
Definition borderInset (op : Op) : Z := if hasBorder op then 2 else 0.

Definition colPass1Step (idx : Z) (t : Template) (mem : Mem) (i : Z)
    (st : Z * float32 * list Z * list float32)
    : Z * float32 * list Z * list float32 :=
  let '(usedH, totalFlex, flexChildren, flexGrowValues) := st in
  let childOp := opAt t i in
  if negb (Parent childOp =? idx)
  then (usedH, totalFlex, flexChildren, flexGrowValues)
  else
    let childGeom := geomAt t i in
    if (isKind OpContainer childOp || isKind OpLayer childOp)
       && f32_pos (FlexGrow childOp)
    then (int16 (usedH + ContentH childGeom),
          f32_add totalFlex (FlexGrow childOp),
          flexChildren ++ [i], flexGrowValues ++ [FlexGrow childOp])
    else if isKind OpIf childOp && f32_pos (getIfFlexGrow t childOp mem)
    then (int16 (usedH + ContentH childGeom),
          f32_add totalFlex (getIfFlexGrow t childOp mem),
          flexChildren ++ [i],
          flexGrowValues ++ [getIfFlexGrow t childOp mem])
    else (int16 (usedH + H childGeom), totalFlex,
          flexChildren, flexGrowValues).

Definition colRepositionStep (idx : Z) (op : Op) (i : Z)
    (st : Template * Z * bool) : Template * Z * bool :=
  let '(t, cursor, firstChild) := st in
  if negb (Parent (opAt t i) =? idx) then (t, cursor, firstChild)
  else
    let cursor :=
      if negb firstChild && (0 <? Gap op)
      then int16 (cursor + int16 (Gap op)) else cursor in
    let t := updGeom i (set_LocalY
                          (int16 ((if hasBorder op then 1 else 0) + cursor))) t in
    (t, int16 (cursor + H (geomAt t i)), false).

(** The three phases of [Execute] that fill the geometry, without the
    render. *)
Definition layoutPhases (t : Template) (screenW screenH : Z) (mem : Mem)
    : Template :=
  let t := distributeWidths screenW nil mem t in
  let '(t, mem) := layout (sizeT t) t mem in
  distributeFlexGrow (sizeT t) mem screenH t.

Definition flexCol (cs : list Node) : Node :=
  Col cs 0 (mkFlex f32_zero 0 0 (f32_of_int 1)) (mkBorderStyle 0) EmptyString nil.

(** A column of two rows of equal weight, laid out on a screen of 20 by 10,
    before the flex distribution. *)
Definition twoFlexRows : Template :=
  let t := default (newTemplate 16)
             (Build (plainCol
                       [Row [] 0 (mkFlex f32_zero 0 0 (f32_of_int 1))
                          (mkBorderStyle 0) EmptyString nil;
                        Row [] 0 (mkFlex f32_zero 0 0 (f32_of_int 1))
                          (mkBorderStyle 0) EmptyString nil])) in
  fst (layout 3 (distributeWidths 20 nil emptyMem t) emptyMem).

(** A column that holds a flex column and, beside it, a plain column whose
    only child is a flex column. *)
Definition siblingFlex : Node :=
  plainCol [flexCol []; plainCol [flexCol []]].

(** Its template after the three phases on a screen of 20 by 10. *)
Definition siblingFlexLaidOut : Template :=
  layoutPhases (default (newTemplate 16) (Build siblingFlex)) 20 10 emptyMem.

(** ** Two frames in a row *)

(** A custom layout that stacks the children, each as wide as the box and as
    high as its minimum. *)
Definition stackLayout : LayoutFunc :=
  fun children availW availH =>
    snd (fold_left
           (fun '(y, rects) c => (y + MinH c, rects ++ [mkRect 0 y availW (MinH c)]))
           children (0, [])).

(** A box around a column of a title and of a row of two columns. *)
Definition boxedColumns : Node :=
  Box (Some stackLayout)
    [plainCol [Text (ContentString "hello");
               plainRow [plainCol [Text (ContentString "a")];
                         plainCol [Text (ContentString "b")]]]].

Definition boxedTemplate : Template :=
  default (newTemplate 16) (Build boxedColumns).

(** The geometry as a list of [(W, H, LocalX, LocalY)]. *)
Definition geometry (t : Template) : list (Z * Z * Z * Z) :=
  map (fun g => (W g, H g, LocalX g, LocalY g)) (geom t).

(** The frame number [n] on a screen of 20 by 5, each on a cleared buffer:
    the template, what the buffer received, and the state of the caller. *)
Fixpoint boxedFrame (n : nat) : Template * Buffer * Mem :=
  match n with
  | O => (boxedTemplate, [], emptyMem)
  | S n =>
      let '(t, _, mem) := boxedFrame n in
      Execute t [] 20 5 mem
  end.

(** ** The index of the ops by depth *)

(** The indices of the ops of depth [d], in increasing order. *)
Definition opsOfDepth (t : Template) (d : Z) : list Z :=
  List.filter (fun i => Depth (opAt t i) =? d) (seqZ 0 (lenZ (ops t))).

(** [byDepth] files every op under its depth, and nothing beyond
    [maxDepth]. *)
Definition byDepthOk (t : Template) : Prop :=
  (forall d, 0 <= d -> depthOps t d = opsOfDepth t d)
  /\ (forall d, maxDepth t < d -> depthOps t d = []).

(** What the compiler keeps: a property of templates that every [addOp]
    within the capacity of the op fields and every [setChildRange] keep. *)
Definition keptByCompiler (I : Template -> Prop) : Prop :=
  (forall op depth t,
      0 <= depth <= 127 -> lenZ (ops t) < 32767 ->
      I t -> I (fst (addOp op depth t)))
  /\ (forall idx cs ce t t',
         setChildRange idx cs ce t = Some t' -> I t -> I t').

Definition compileKeeps (I : Template -> Prop) (n : Node) : Prop :=
  forall parent depth elemBase elemSize t t' r,
    compile n parent depth elemBase elemSize t = Some (t', r) ->
    lenZ (ops t') <= 32767 -> 0 <= depth -> depth + levels n <= 128 ->
    I t -> I t'.

(** ** What a frame leaves alone *)

(** An op without what a frame writes into it: the sub-templates, whose
    geometry is filled, and the scratch geometry of an iteration. *)
Definition staticPart (op : Op) : Op :=
  op |> set_ThenTmpl None |> set_ElseTmpl None |> set_IterTmpl None
     |> set_iterGeoms [] |> set_SwitchCases [] |> set_SwitchDef None.

(** Two templates with the same ops up to sub-templates and scratch, as
    many geometry entries, and the same index by depth. *)
Definition sameSkeleton (t t' : Template) : Prop :=
  map staticPart (ops t') = map staticPart (ops t)
  /\ length (geom t') = length (geom t)
  /\ byDepth t' = byDepth t
  /\ maxDepth t' = maxDepth t
  /\ elemBase t' = elemBase t.

Definition twoLinesTemplate : Template :=
  default (newTemplate 16) (Build twoLines).

(** ** Phase 2: the height of a column *)

(** The gap a child of a column or of a row adds before itself. *)
Definition gapCost (op : Op) (firstChild : bool) : Z :=
  if negb firstChild && (0 <? Gap op) then Gap op else 0.

(** The gaps between [n] children, the first of which is still to come
    when [firstChild] is set. *)
Definition gapsOf (op : Op) (firstChild : bool) (n : Z) : Z :=
  if 0 <? Gap op
  then Gap op * (if firstChild then Z.max 0 (n - 1) else n)
  else 0.

(** The column of [twoLines] with its widths distributed and its ops laid
    out. *)
Definition twoLinesLaid : Template :=
  fst (layout 3 (distributeWidths 20 nil emptyMem twoLinesTemplate) emptyMem).

(** ** Phase 1: the implicit flex children of a row *)

(** A child of a row shares the width that is left when it is a container
    without a flex weight, without a width and without a percentage. *)
Definition isImplicitFlex (idx : Z) (t : Template) (i : Z) : bool :=
  (Parent (opAt t i) =? idx)
  && negb (f32_pos (FlexGrow (opAt t i)))
  && (isKind OpContainer (opAt t i) && (Width (opAt t i) =? 0)
      && f32_is0 (PercentWidth (opAt t i))).

Definition rowImplicitChildren (idx : Z) (op : Op) (t : Template) : list Z :=
  List.filter (isImplicitFlex idx t)
    (seqZ (ChildStart op) (ChildEnd op - ChildStart op)).

(** The widths the loop over [n] implicit flex children hands out. *)
Fixpoint implicitSizes (remaining shareW : Z) (n : nat) (distributed : Z)
    : list Z :=
  match n with
  | O => []
  | S m =>
      let w := match m with
               | O => int16 (remaining - distributed)
               | S _ => shareW
               end in
      w :: implicitSizes remaining shareW m (int16 (distributed + w))
  end.

(** A row of two columns that ask for no width. *)
Definition plainPair : Template :=
  default (newTemplate 16) (Build (plainRow [plainCol []; plainCol []])).

(** The body of an iteration over elements of 16 bytes, probed at address
    100: one text bound to the string at offset 8. *)
Definition fieldText : Template :=
  fst (compileText (ContentPtr 108) (-1) 0 100 16 (newTemplate 8)).

(** ** The condition builders *)

(** [If(&x)] and [IfOrd(&x)] with their comparisons, on integers: a
    [ConditionEval] is a condition that is not ordered, an
    [OrdConditionEval] one that is. *)
Module Conditions.

Record Condition := mkCondition { ptr : Z }.

Record OrdCondition := mkOrdCondition { ordPtr : Z }.

Definition If (p : Z) : Condition := mkCondition p.

Definition IfOrd (p : Z) : OrdCondition := mkOrdCondition p.

Definition Eq (c : Condition) (val : Z) : ConditionNode :=
  mkConditionNode (ptr c) condOpEq val false None.

Definition Ne (c : Condition) (val : Z) : ConditionNode :=
  mkConditionNode (ptr c) condOpNe val false None.

Definition OrdEq (c : OrdCondition) (val : Z) : ConditionNode :=
  mkConditionNode (ordPtr c) condOpEq val true None.

Definition OrdNe (c : OrdCondition) (val : Z) : ConditionNode :=
  mkConditionNode (ordPtr c) condOpNe val true None.

Definition Gt (c : OrdCondition) (val : Z) : ConditionNode :=
  mkConditionNode (ordPtr c) condOpGt val true None.

Definition Lt (c : OrdCondition) (val : Z) : ConditionNode :=
  mkConditionNode (ordPtr c) condOpLt val true None.

Definition Gte (c : OrdCondition) (val : Z) : ConditionNode :=
  mkConditionNode (ordPtr c) condOpGte val true None.

Definition Lte (c : OrdCondition) (val : Z) : ConditionNode :=
  mkConditionNode (ordPtr c) condOpLte val true None.

End Conditions.

(** ** Attributes, colours, styles and cells *)

(** The value types of a cell. [Attribute], [ColorMode] and the colour
    components are [uint8]: integers of [[0, 256)]. The methods named
    [Equal] carry the name of their receiver. *)
Module Cells.

Definition Attribute : Type := Z.

(** [AttrNone = 0; AttrBold = 1 << iota; ...]: [iota] is 1 on the line of
    [AttrBold]. *)
Definition AttrNone : Attribute := 0.

Definition AttrBold : Attribute := Z.shiftl 1 1.

Definition AttrDim : Attribute := Z.shiftl 1 2.

Definition AttrItalic : Attribute := Z.shiftl 1 3.

Definition AttrUnderline : Attribute := Z.shiftl 1 4.

Definition AttrBlink : Attribute := Z.shiftl 1 5.

Definition AttrInverse : Attribute := Z.shiftl 1 6.

Definition AttrStrikethrough : Attribute := Z.shiftl 1 7.

(** [a&attr != 0] *)
Definition Has (a attr : Attribute) : bool := negb (Z.land a attr =? 0).

(** [a | attr] *)
Definition With (a attr : Attribute) : Attribute := Z.lor a attr.

(** [a &^ attr] *)
Definition Without (a attr : Attribute) : Attribute := Z.ldiff a attr.

Definition ColorMode : Type := Z.

Definition ColorDefault : ColorMode := 0.

Definition Color16 : ColorMode := 1.

Definition Color256 : ColorMode := 2.

Definition ColorRGB : ColorMode := 3.

Record Color := mkColor {
  Mode : ColorMode;
  R : Z;
  G : Z;
  B : Z;
  Index : Z }.

Definition DefaultColor : Color := mkColor ColorDefault 0 0 0 0.

Definition BasicColor (index : Z) : Color := mkColor Color16 0 0 0 index.

Definition PaletteColor (index : Z) : Color := mkColor Color256 0 0 0 index.

Definition RGB (r g b : Z) : Color := mkColor ColorRGB r g b 0.

(** [uint8(x)] *)
Definition uint8 (z : Z) : Z := z mod 256.

(** [Hex] takes a [uint32]. *)
Definition Hex (hex : Z) : Color :=
  mkColor ColorRGB
    (uint8 (Z.land (Z.shiftr hex 16) 255))
    (uint8 (Z.land (Z.shiftr hex 8) 255))
    (uint8 (Z.land hex 255))
    0.

Definition Color_Equal (c other : Color) : bool :=
  if negb (Mode c =? Mode other) then false
  else if Mode c =? ColorDefault then true
  else if (Mode c =? Color16) || (Mode c =? Color256)
  then Index c =? Index other
  else if Mode c =? ColorRGB
  then (R c =? R other) && (G c =? G other) && (B c =? B other)
  else false.

Record Style := mkStyle {
  FG : Color;
  BG : Color;
  Attr : Attribute }.

Definition DefaultStyle : Style := mkStyle DefaultColor DefaultColor 0.

Definition Foreground (s : Style) (c : Color) : Style :=
  mkStyle c (BG s) (Attr s).

Definition Background (s : Style) (c : Color) : Style :=
  mkStyle (FG s) c (Attr s).

Definition Bold (s : Style) : Style :=
  mkStyle (FG s) (BG s) (With (Attr s) AttrBold).

Definition Dim (s : Style) : Style :=
  mkStyle (FG s) (BG s) (With (Attr s) AttrDim).

Definition Italic (s : Style) : Style :=
  mkStyle (FG s) (BG s) (With (Attr s) AttrItalic).

Definition Underline (s : Style) : Style :=
  mkStyle (FG s) (BG s) (With (Attr s) AttrUnderline).

Definition Inverse (s : Style) : Style :=
  mkStyle (FG s) (BG s) (With (Attr s) AttrInverse).

Definition Strikethrough (s : Style) : Style :=
  mkStyle (FG s) (BG s) (With (Attr s) AttrStrikethrough).

Definition Style_Equal (s other : Style) : bool :=
  Color_Equal (FG s) (FG other) && Color_Equal (BG s) (BG other)
  && (Attr s =? Attr other).

Record Cell := mkCell {
  Rune : Z;
  CellStyle : Style }.

(** The rune of [EmptyCell] is a space. *)
Definition EmptyCell : Cell := mkCell 32 DefaultStyle.

Definition NewCell (r : Z) (style : Style) : Cell := mkCell r style.

Definition Cell_Equal (c other : Cell) : bool :=
  (Rune c =? Rune other) && Style_Equal (CellStyle c) (CellStyle other).

(** The builders of [Style] that switch an attribute on, each with its
    attribute. *)
Definition attrBuilders : list ((Style -> Style) * Attribute) :=
  [(Bold, AttrBold); (Dim, AttrDim); (Italic, AttrItalic);
   (Underline, AttrUnderline); (Inverse, AttrInverse);
   (Strikethrough, AttrStrikethrough)].

(** An integer that fits [uint8]. *)
Definition isUint8 (z : Z) : Prop := 0 <= z < 256.

End Cells.

(** ** Phase 3: the positions of the children of a column *)

(** The gap a column leaves between two children. *)
Definition gapWidth (op : Op) : Z := if 0 <? Gap op then Gap op else 0.

(** * Properties of the engine *)

Lemma int16_range z : -32768 <= int16 z <= 32767.
Proof. unfold int16, wrap. change (2 ^ (16 - 1)) with 32768. change (2 ^ 16) with 65536.
  pose proof (Z.mod_pos_bound (z + 32768) 65536). lia. Qed.

Lemma int16_id z : -32768 <= z <= 32767 -> int16 z = z.
Proof. intros Hz. unfold int16, wrap. change (2 ^ (16 - 1)) with 32768. change (2 ^ 16) with 65536.
  rewrite Z.mod_small; lia. Qed.

Lemma int16_mod z : int16 z mod 65536 = z mod 65536.
Proof. unfold int16, wrap. change (2 ^ (16 - 1)) with 32768. change (2 ^ 16) with 65536.
  Z.div_mod_to_equations. lia. Qed.

Lemma int16_eq_mod a b : a mod 65536 = b mod 65536 -> int16 a = int16 b.
Proof. intros E. unfold int16, wrap. change (2 ^ (16 - 1)) with 32768. change (2 ^ 16) with 65536.
  f_equal. rewrite <- (Z.add_mod_idemp_l a), <- (Z.add_mod_idemp_l b) by lia. now rewrite E. Qed.

Lemma int16_add_l a b : int16 (int16 a + b) = int16 (a + b).
Proof. apply int16_eq_mod. rewrite <- Z.add_mod_idemp_l, int16_mod, Z.add_mod_idemp_l by lia. reflexivity. Qed.

Lemma int16_add_r a b : int16 (a + int16 b) = int16 (a + b).
Proof. rewrite Z.add_comm, int16_add_l. f_equal. lia. Qed.

Lemma int16_sub_r a b : int16 (a - int16 b) = int16 (a - b).
Proof. apply int16_eq_mod. rewrite <- Zminus_mod_idemp_r, int16_mod, Zminus_mod_idemp_r. reflexivity. Qed.

Lemma int16_idem a : int16 (int16 a) = int16 a.
Proof. apply int16_id, int16_range. Qed.

Lemma int16_inj a b : int16 a = int16 b -> -32768 <= a <= 32767 -> -32768 <= b <= 32767 -> a = b.
Proof. intros E Ha Hb. rewrite !int16_id in E; auto. Qed.

(** C6. In the main render walk an offset-bound text op leaves the buffer
    (and the state of the caller) as they were: it writes nothing. *)
Theorem renderOp_TextOff_writes_nothing :
  forall (fuel : nat) (t : Template) (idx globalX globalY maxW : Z)
         (st : Buffer * Mem),
    Kind (opAt t idx) = OpTextOff ->
    renderOp fuel t idx globalX globalY maxW st = st.
Proof.
  intros fuel t idx gx gy maxW [buf mem] HK.
  destruct fuel as [|fuel]; simpl; [reflexivity|].
  destruct ((idx <? 0) || (lenZ (ops t) <=? idx)); [reflexivity|].
  rewrite HK. reflexivity.
Qed.

Lemma renderOp_TextOff_writes_nothing_witness :
  Kind (opAt (leafTemplate (set_Kind OpTextOff zeroOp)) 0) = OpTextOff /\
  renderOp 3 (leafTemplate (set_Kind OpTextOff zeroOp)) 0 0 0 80 ([], emptyMem)
  = ([], emptyMem).
Proof.
  split; [reflexivity|].
  apply (renderOp_TextOff_writes_nothing 3
           (leafTemplate (set_Kind OpTextOff zeroOp)) 0 0 0 80 ([], emptyMem)).
  reflexivity.
Defined.

(** The sub-template walk, for contrast, writes the string found at the
    offset from the element base. *)
Lemma renderSubOp_TextOff_writes :
  forall (fuel : nat) (sub : Template) (idx globalX globalY maxW elemBase : Z)
         (buf : Buffer) (mem : Mem),
    Kind (opAt sub idx) = OpTextOff ->
    renderSubOp (S fuel) sub idx globalX globalY maxW elemBase (buf, mem)
    = (buf ++ [WriteStringFast (int16 (globalX + LocalX (geomAt sub idx)))
                 (int16 (globalY + LocalY (geomAt sub idx)))
                 (strAt mem (uintptr (elemBase + StrOff (opAt sub idx))))
                 emptyStyle maxW], mem).
Proof. intros * HK. simpl. rewrite HK. reflexivity. Qed.




Lemma RuneCountInString_nonneg (s : string) : 0 <= RuneCountInString s.
Proof.
  assert (Haux : forall (n : nat) (s : string),
             (String.length s <= n)%nat -> 0 <= RuneCountInString s).
  { induction n as [|n IHn]; intros [|c r] Hlen; simpl in *; try lia.
    repeat case_match; subst;
      match goal with
      | |- 0 <= 1 + RuneCountInString ?x =>
          assert (0 <= RuneCountInString x)
            by (apply IHn; cbn [String.length] in *; lia); lia
      end. }
  apply (Haux (String.length s)). lia.
Qed.




(** C8, as the code has it. The height of a selection list is
    [max(visible_count, 1)] as long as the visible count fits in 16 bits (it
    is the count cut to 16 bits, or 1 when that is 0, in general); layout
    stores the length in the list and, when the list has a selected index and
    a positive cap, leaves the offset so that the selected index lies in the
    window [[offset, offset + MaxVisible)]; nothing else of the list
    changes. *)
Theorem layoutSelectionList_height :
  forall (op : Op) (g : Geom) (mem : Mem),
    SelectionListPtr op <> nil ->
    0 <= Len (sliceAt mem (SlicePtr op)) ->
    let list := listAt mem (SelectionListPtr op) in
    let n := visibleCount (Len (sliceAt mem (SlicePtr op))) (MaxVisible list) in
    let g' := fst (layoutSelectionList op g mem) in
    let list' := listAt (snd (layoutSelectionList op g mem)) (SelectionListPtr op) in
    H g' = (if int16 n =? 0 then 1 else int16 n)
    /\ (n <= 32767 -> H g' = Z.max n 1)
    /\ len list' = Len (sliceAt mem (SlicePtr op))
    /\ MaxVisible list' = MaxVisible list
    /\ Selected list' = Selected list
    /\ (Selected list <> nil -> 0 < MaxVisible list ->
        offset list' <= intAt mem (Selected list)
                     < offset list' + MaxVisible list').
Proof.
  intros op g mem Hptr Hlen list n g' list'.
  assert (Hnil : (SelectionListPtr op =? nil) = false) by (apply Z.eqb_neq; exact Hptr).
  set (s0 := mkSelectionList (Selected list) (MaxVisible list)
               (Len (sliceAt mem (SlicePtr op))) (offset list)).
  assert (Hmax : MaxVisible (ensureVisible s0 mem) = MaxVisible list).
  { unfold ensureVisible. repeat case_match; reflexivity. }
  assert (Hl' : list' = ensureVisible s0 mem).
  { unfold list', layoutSelectionList. rewrite Hnil. simpl.
    rewrite Z.eqb_refl. reflexivity. }
  assert (Hg : H g' = (if int16 n =? 0 then 1 else int16 n)).
  { unfold g', layoutSelectionList. rewrite Hnil. simpl.
    rewrite Z.eqb_refl. fold list. fold s0. rewrite Hmax.
    unfold n, visibleCount.
    destruct (0 <? MaxVisible list) eqn:E1; simpl.
    - destruct (MaxVisible list <? Len (sliceAt mem (SlicePtr op))) eqn:E2.
      + apply Z.ltb_lt in E2. rewrite Z.min_r by lia.
        simpl. destruct (int16 (MaxVisible list) =? 0); reflexivity.
      + apply Z.ltb_ge in E2. rewrite Z.min_l by lia.
        simpl. destruct (int16 (Len _) =? 0); reflexivity.
    - simpl. destruct (int16 (Len _) =? 0); reflexivity. }
  split; [exact Hg|]. split.
  { intros Hn. rewrite Hg.
    assert (0 <= n).
    { unfold n, visibleCount. destruct (0 <? MaxVisible list) eqn:E; [|lia].
      apply Z.ltb_lt in E. lia. }
    rewrite int16_id by lia.
    destruct (n =? 0) eqn:E0; [apply Z.eqb_eq in E0|apply Z.eqb_neq in E0]; lia. }
  rewrite Hl'.
  split; [unfold ensureVisible; repeat case_match; reflexivity|].
  split; [exact Hmax|].
  split; [unfold ensureVisible; repeat case_match; reflexivity|].
  intros Hsel Hpos. unfold ensureVisible. simpl.
  assert (E1 : (Selected list =? nil) = false) by (apply Z.eqb_neq; exact Hsel).
  assert (E2 : (MaxVisible list <=? 0) = false) by (apply Z.leb_gt; exact Hpos).
  rewrite E1, E2. simpl.
  destruct (intAt mem (Selected list) <? offset list) eqn:E3; simpl.
  - lia.
  - apply Z.ltb_ge in E3.
    destruct (offset list + MaxVisible list <=? intAt mem (Selected list)) eqn:E4;
      simpl; [lia|].
    apply Z.leb_gt in E4. lia.
Qed.

Lemma layoutSelectionList_height_witness :
  H (fst (layoutSelectionList listOp zeroGeom (listMem 10 3 7))) = 3
  /\ offset (listAt (snd (layoutSelectionList listOp zeroGeom (listMem 10 3 7))) 70)
     <= 7
     < offset (listAt (snd (layoutSelectionList listOp zeroGeom (listMem 10 3 7))) 70)
       + 3.
Proof.
  pose proof (layoutSelectionList_height listOp zeroGeom (listMem 10 3 7)
                ltac:(discriminate) ltac:(discriminate)) as Hw.
  split.
  - exact (proj1 (proj2 Hw) ltac:(discriminate)).
  - exact (proj2 (proj2 (proj2 (proj2 (proj2 Hw)))) ltac:(discriminate) eq_refl).
Defined.

(** C8 as the specification states it fails on a long sequence without a
    cap: 40000 items are all visible, and the height is 40000 cut to 16
    bits. *)
Lemma layoutSelectionList_height_wraps :
  visibleCount (Len (sliceAt (listMem 40000 0 0) (SlicePtr listOp)))
    (MaxVisible (listAt (listMem 40000 0 0) (SelectionListPtr listOp))) = 40000
  /\ H (fst (layoutSelectionList listOp zeroGeom (listMem 40000 0 0))) = -25536.
Proof. split; reflexivity. Qed.

Lemma compileSub_panics n elemBase elemSize :
  panics n -> compileSub compile n elemBase elemSize = None.
Proof. intros Hn. unfold compileSub. rewrite Hn. reflexivity. Qed.

Lemma rejected_not_nil n : hasRejectedItems n = true -> isNilNode n = false.
Proof. destruct n; simpl; congruence. Qed.

Lemma compileChildren_panics cs :
  Forall (fun c => hasRejectedItems c = true -> panics c) cs ->
  existsb hasRejectedItems cs = true ->
  forall idx depth elemBase elemSize t,
    compileChildren compile cs idx depth elemBase elemSize t = None.
Proof.
  induction 1 as [|c cs Hc _ IH]; simpl; [discriminate|].
  intros Hex idx depth eb es t.
  destruct (hasRejectedItems c) eqn:Ec.
  - rewrite (Hc eq_refl). reflexivity.
  - destruct (compile c idx depth eb es t) as [[t' r]|]; [|reflexivity].
    apply IH. exact Hex.
Qed.

Lemma compileCases_panics cs :
  Forall (fun c => hasRejectedItems c = true -> panics c) cs ->
  existsb hasRejectedItems cs = true ->
  forall elemBase elemSize, compileCases compile cs elemBase elemSize = None.
Proof.
  induction 1 as [|c cs Hc _ IH]; simpl; [discriminate|].
  intros Hex eb es.
  destruct (hasRejectedItems c) eqn:Ec.
  - rewrite (rejected_not_nil _ Ec), (compileSub_panics _ _ _ (Hc eq_refl)).
    reflexivity.
  - rewrite (IH Hex). repeat case_match; reflexivity.
Qed.

Lemma rejected_panics n : hasRejectedItems n = true -> panics n.
Proof.
  induction n using Node_nested_ind; simpl; intros Hr; try discriminate Hr;
    intros parent depth eb es t; simpl.
  - unfold compileContainer. destruct (addOp _ depth t) as [t1 idx].
    rewrite compileChildren_panics; auto.
  - unfold compileContainer. destruct (addOp _ depth t) as [t1 idx].
    rewrite compileChildren_panics; auto.
  - unfold compileIf. rewrite (rejected_not_nil _ Hr).
    rewrite compileSub_panics; auto.
  - unfold compileForEach.
    destruct items; simpl in Hr; try reflexivity.
    destruct r as [body|]; [|reflexivity].
    rewrite compileSub_panics; [reflexivity|]. match goal with Hb : forall b, _ = Some b -> _ |- _ => apply (Hb body); auto end.
  - unfold compileBox. destruct (addOp _ depth t) as [t1 idx].
    rewrite compileChildren_panics; auto.
  - unfold compileCondition.
    destruct (hasRejectedItems n1) eqn:E1.
    + rewrite (rejected_not_nil _ E1), compileSub_panics; auto.
    + simpl in Hr. rewrite (rejected_not_nil _ Hr).
      rewrite (compileSub_panics n2); auto.
      repeat case_match; reflexivity.
  - unfold compileSelectionList.
    destruct (self =? nil); [reflexivity|].
    destruct items; simpl in Hr; try reflexivity.
    destruct r as [body|]; [|discriminate Hr].
    rewrite compileSub_panics; [reflexivity|]. match goal with Hb : forall b, _ = Some b -> _ |- _ => apply (Hb body); auto end.
  - apply IHn. exact Hr.
  - unfold compileSwitch.
    destruct (existsb hasRejectedItems cs) eqn:E1.
    + rewrite compileCases_panics; auto.
    + simpl in Hr. rewrite (rejected_not_nil _ Hr).
      rewrite (compileSub_panics n); auto.
      repeat case_match; reflexivity.
Qed.

(** C9. [Build] panics on every declaration that holds a [ForEach] or a
    [SelectionList] whose [Items] is not a pointer to a slice: no template
    is produced. *)
Theorem Build_rejects_non_pointer_items :
  forall ui : Node, hasRejectedItems ui = true -> Build ui = None.
Proof.
  intros ui Hr. unfold Build. rewrite (rejected_panics ui Hr). reflexivity.
Qed.

Lemma Build_rejects_non_pointer_items_witness :
  Build (Col [Text (ContentString EmptyString);
              ForEachNode ItemsNotPointer 9000 (Some (Text (ContentPtr 9000)))]
           0 (mkFlex f32_zero 0 0 f32_zero) (mkBorderStyle 0) EmptyString nil)
  = None.
Proof. apply Build_rejects_non_pointer_items. reflexivity. Defined.

(** *** The parents the compiler records *)

Lemma addOp_ops op depth t :
  ops (fst (addOp op depth t)) = ops t ++ [set_Depth (int8 depth) op].
Proof. unfold addOp. repeat case_match; reflexivity. Qed.

Lemma addOp_idx op depth t : snd (addOp op depth t) = int16 (lenZ (ops t)).
Proof. reflexivity. Qed.

Lemma setChildRange_Some idx cs ce t t' :
  setChildRange idx cs ce t = Some t' ->
  0 <= idx /\
  ops t' = alter (fun o => set_ChildEnd ce
                    (match cs with Some s => set_ChildStart s o | None => o end))
             (Z.to_nat idx) (ops t).
Proof.
  unfold setChildRange. destruct (idx <? 0) eqn:E; [discriminate|].
  intros [= <-]. apply Z.ltb_ge in E. split; [exact E|reflexivity].
Qed.

Lemma map_alter_same {A B} (g : A -> B) (f : A -> A) (i : nat) (l : list A) :
  (forall x, g (f x) = g x) -> map g (alter f i l) = map g l.
Proof.
  intros Hg. revert i. induction l as [|x l IH]; intros [|i]; simpl;
    try reflexivity.
  - rewrite Hg. reflexivity.
  - f_equal. apply IH.
Qed.

Lemma addOp_appendsUnder op depth t :
  appendsUnder (Parent op) t (fst (addOp op depth t)).
Proof.
  exists [Parent op]. rewrite addOp_ops, map_app. split; [reflexivity|].
  right. exists []. split; [reflexivity|constructor].
Qed.

Lemma compileChildren_parents cs :
  Forall recordsParents cs ->
  forall idx depth elemBase elemSize t t',
    idx <> -1 ->
    compileChildren compile cs idx depth elemBase elemSize t = Some t' ->
    exists ps, map Parent (ops t') = map Parent (ops t) ++ ps
               /\ Forall (fun q => q <> -1) ps.
Proof.
  induction 1 as [|c cs Hc _ IH]; simpl; intros idx depth eb es t t' Hidx Hcs.
  - injection Hcs as <-. exists []. rewrite app_nil_r. split; [reflexivity|constructor].
  - destruct (compile c idx depth eb es t) as [[t1 r1]|] eqn:E1; [|discriminate].
    destruct (Hc _ _ _ _ _ _ _ E1) as (ps1 & Hp1 & Hps1).
    destruct (IH _ _ _ _ _ _ Hidx Hcs) as (ps2 & Hp2 & Hps2).
    exists (ps1 ++ ps2). rewrite Hp2, Hp1, app_assoc. split; [reflexivity|].
    apply Forall_app. split; [|exact Hps2].
    destruct Hps1 as [->|(rest & -> & Hrest)]; constructor; assumption.
Qed.

Lemma container_parents cs op0 cstart depth elemBase elemSize t t' :
  Forall recordsParents cs ->
  match compileChildren compile cs (snd (addOp op0 depth t)) (depth + 1)
          elemBase elemSize (fst (addOp op0 depth t)) with
  | Some t2 =>
      match setChildRange (snd (addOp op0 depth t)) cstart
              (int16 (lenZ (ops t2))) t2 with
      | Some t3 => Some (t3, snd (addOp op0 depth t))
      | None => None
      end
  | None => None
  end = Some t' ->
  appendsUnder (Parent op0) t (fst t').
Proof.
  intros Hcs Hc.
  destruct (compileChildren _ _ _ _ _ _ _) as [t2|] eqn:E2; [|discriminate].
  destruct (setChildRange _ _ _ _) as [t3|] eqn:E3; [|discriminate].
  injection Hc as <-. simpl.
  apply setChildRange_Some in E3 as [Hidx Hops].
  assert (Hne : snd (addOp op0 depth t) <> -1) by lia.
  destruct (compileChildren_parents cs Hcs _ _ _ _ _ _ Hne E2)
    as (ps & Hps & Hall).
  exists (Parent op0 :: ps). split.
  - rewrite Hops, map_alter_same by (intros x; destruct cstart; reflexivity).
    rewrite Hps, addOp_ops, map_app, <- app_assoc. reflexivity.
  - right. exists ps. split; [reflexivity|exact Hall].
Qed.

(** The cases of the compiler that end in one [addOp]. *)
Ltac by_addOp Hc lemma :=
  repeat match type of Hc with
         | context [isNilNode ?n] => destruct (isNilNode n) eqn:?
         | context [compileSub ?a ?b ?c ?d] => destruct (compileSub a b c d) eqn:?
         | context [compileCases ?a ?b ?c ?d] => destruct (compileCases a b c d) eqn:?
         | context [match ?x with _ => _ end] => destruct x eqn:?
         end;
  try discriminate;
  match type of Hc with
  | Some (addOp ?o ?d ?t) = Some _ =>
      let HA := fresh "HA" in
      pose proof (lemma o d t) as HA;
      rewrite (surjective_pairing (addOp o d t)) in Hc;
      injection Hc as <- <-; exact HA
  end.

Lemma compile_recordsParents n : recordsParents n.
Proof.
  induction n using Node_nested_ind; intros parent depth eb es t t' res Hc;
    cbn [compile] in Hc.
  - injection Hc as <- <-. exists []. rewrite app_nil_r. auto.
  - unfold compileText in Hc. by_addOp Hc addOp_appendsUnder.
  - unfold compileProgress in Hc. by_addOp Hc addOp_appendsUnder.
  - unfold compileContainer in Hc.
    match type of Hc with context [addOp ?o depth t] =>
      rewrite (surjective_pairing (addOp o depth t)) in Hc;
      apply (container_parents cs o) in Hc; auto end.
  - unfold compileContainer in Hc.
    match type of Hc with context [addOp ?o depth t] =>
      rewrite (surjective_pairing (addOp o depth t)) in Hc;
      apply (container_parents cs o) in Hc; auto end.
  - unfold compileIf in Hc. by_addOp Hc addOp_appendsUnder.
  - unfold compileForEach in Hc. by_addOp Hc addOp_appendsUnder.
  - unfold compileRenderer in Hc. by_addOp Hc addOp_appendsUnder.
  - unfold compileBox in Hc.
    match type of Hc with context [addOp ?o depth t] =>
      rewrite (surjective_pairing (addOp o depth t)) in Hc;
      apply (container_parents cs o) in Hc; auto end.
  - unfold compileCondition in Hc. by_addOp Hc addOp_appendsUnder.
  - unfold compileLayer in Hc. by_addOp Hc addOp_appendsUnder.
  - unfold compileRichText in Hc. by_addOp Hc addOp_appendsUnder.
  - unfold compileSelectionList in Hc. by_addOp Hc addOp_appendsUnder.
  - eapply IHn. exact Hc.
  - unfold compileSwitch in Hc. by_addOp Hc addOp_appendsUnder.
  - injection Hc as <- <-. exists []. rewrite app_nil_r. auto.
Qed.

Lemma Template_Height_unfold t :
  Template_Height t
  = if lenZ (geom t) =? 0 then 0
    else fst (forEach (ops t) (heightStep t) (0, 0)).
Proof. reflexivity. Qed.

Lemma height_no_roots t os :
  Forall (fun q => q <> -1) (map Parent os) ->
  forall acc i,
    fst (forEach os (heightStep t) (acc, i)) = acc
    /\ rootHeightsFrom t os i = [].
Proof.
  unfold forEach.
  induction os as [|o os IH]; simpl; intros Hall acc i; [split; reflexivity|].
  inversion Hall as [|q qs Hq Hqs]; subst.
  apply Z.eqb_neq in Hq. rewrite Hq. apply IH. exact Hqs.
Qed.

Lemma Build_parents ui t0 :
  Build ui = Some t0 ->
  map Parent (ops t0) = []
  \/ exists rest, map Parent (ops t0) = -1 :: rest
                  /\ Forall (fun q => q <> -1) rest.
Proof.
  unfold Build.
  destruct (compile ui (-1) 0 nil 0 (newTemplate 16)) as [[t r]|] eqn:E;
    [|discriminate].
  intros [= <-].
  destruct (compile_recordsParents ui _ _ _ _ _ _ _ E) as (ps & Hps & Hcase).
  assert (Hops : forall t1, ops (set_geom (replicate (length (ops t1)) zeroGeom) t1)
                            = ops t1) by reflexivity.
  rewrite Hops. clear Hops.
  match goal with
  | |- context [ops (if ?c then ?a else ?b)] =>
      replace (ops (if c then a else b)) with (ops t)
        by (destruct c; reflexivity)
  end.
  simpl in Hps. rewrite Hps.
  destruct Hcase as [->|(rest & -> & Hrest)]; [left; reflexivity|].
  right. exists rest. split; [reflexivity|exact Hrest].
Qed.

(** C7. On a template that [Build] produced, whatever geometry [Execute]
    has left in it, [Height] is the sum of [geom[i].H] over the ops [i]
    whose parent is [-1]. (The heights are 16-bit values, as the type of
    [Geom] has them.) *)
Theorem Height_is_sum_of_root_heights :
  forall (ui : Node) (t0 t : Template),
    Build ui = Some t0 ->
    map Parent (ops t) = map Parent (ops t0) ->
    (forall i, -32768 <= H (geomAt t i) <= 32767) ->
    Template_Height t = sumZ (rootHeights t).
Proof.
  intros ui t0 t HB Hsame Hrange.
  rewrite Template_Height_unfold. unfold rootHeights.
  destruct (Build_parents ui t0 HB) as [Hnone|(rest & Hroot & Hrest)];
    rewrite <- Hsame in *.
  - destruct (ops t) as [|o os]; [|discriminate Hnone].
    simpl. destruct (lenZ (geom t) =? 0); reflexivity.
  - destruct (ops t) as [|o os]; [discriminate Hroot|].
    simpl in Hroot. injection Hroot as Ho Hos. rewrite <- Hos in Hrest.
    unfold forEach. simpl. rewrite Ho. simpl.
    destruct (height_no_roots t os Hrest (int16 (0 + H (geomAt t 0))) (0 + 1))
      as [Hfst Hnil].
    unfold forEach in Hfst. rewrite Hfst, Hnil. simpl.
    rewrite int16_id by (specialize (Hrange 0); lia).
    destruct (lenZ (geom t) =? 0) eqn:E; [|lia].
    apply Z.eqb_eq in E. unfold geomAt, lookupZ. simpl.
    destruct (geom t); [reflexivity|]. unfold lenZ in E. simpl in E. lia.
Qed.

Lemma Height_is_sum_of_root_heights_witness :
  Template_Height twoLinesExecuted = 2.
Proof.
  assert (HB : Build twoLines = Some (default (newTemplate 16) (Build twoLines)))
    by (vm_compute; reflexivity).
  assert (HP : map Parent (ops twoLinesExecuted)
               = map Parent (ops (default (newTemplate 16) (Build twoLines))))
    by (vm_compute; reflexivity).
  assert (HG : geom twoLinesExecuted
               = [mkGeom 20 2 0 0 2; mkGeom 3 1 0 0 0; mkGeom 3 1 0 1 0])
    by (vm_compute; reflexivity).
  rewrite (Height_is_sum_of_root_heights twoLines _ twoLinesExecuted HB HP).
  - vm_compute. reflexivity.
  - intros i. unfold geomAt, lookupZ. rewrite HG.
    destruct (i <? 0); [simpl; lia|].
    destruct (Z.to_nat i) as [|[|[|n]]]; simpl; lia.
Defined.

Lemma int8_id z : -128 <= z <= 127 -> int8 z = z.
Proof.
  intros Hz. unfold int8, wrap. change (2 ^ (8 - 1)) with 128.
  change (2 ^ 8) with 256. rewrite Z.mod_small; lia.
Qed.

Lemma lenZ_app {A} (l1 l2 : list A) : lenZ (l1 ++ l2) = lenZ l1 + lenZ l2.
Proof. unfold lenZ. rewrite length_app. lia. Qed.

Lemma lenZ_nonneg {A} (l : list A) : 0 <= lenZ l.
Proof. unfold lenZ. lia. Qed.

Lemma alter_middle {A} (f : A -> A) (l1 : list A) (x : A) (l2 : list A) :
  alter f (length l1) (l1 ++ x :: l2) = l1 ++ f x :: l2.
Proof. induction l1 as [|y l1 IH]; simpl; [reflexivity|]. f_equal. exact IH. Qed.

Lemma wfForest_app b parent depth l1 l2 :
  wfForest b parent depth l1 ->
  wfForest (b + lenZ l1) parent depth l2 ->
  wfForest b parent depth (l1 ++ l2).
Proof.
  induction 1 as [b p d|b p d op rest Hp Hd Hc _ IH
                 |b p d op kids rest Hp Hd Hc Hkids _ _ IH]; intros H2.
  - simpl. replace (b + lenZ []) with b in H2 by (unfold lenZ; simpl; lia).
    exact H2.
  - simpl. apply wfLeaf; auto. apply IH.
    replace (b + 1 + lenZ rest) with (b + lenZ (op :: rest))
      by (unfold lenZ; simpl; lia).
    exact H2.
  - simpl. rewrite <- app_assoc. apply wfNode; auto. apply IH.
    replace (b + 1 + lenZ kids + lenZ rest) with (b + lenZ (op :: kids ++ rest))
      by (unfold lenZ; simpl; rewrite length_app; lia).
    exact H2.
Qed.

Lemma compile_grows n parent depth elemBase elemSize t t' r :
  compile n parent depth elemBase elemSize t = Some (t', r) ->
  lenZ (ops t) <= lenZ (ops t').
Proof.
  intros Hc. destruct (compile_recordsParents n _ _ _ _ _ _ _ Hc) as (ps & Hps & _).
  apply (f_equal length) in Hps. rewrite length_app, !length_map in Hps.
  unfold lenZ. lia.
Qed.

Lemma compileChildren_grows cs idx depth elemBase elemSize t t' :
  compileChildren compile cs idx depth elemBase elemSize t = Some t' ->
  lenZ (ops t) <= lenZ (ops t').
Proof.
  revert t. induction cs as [|c cs IH]; simpl; intros t Hc.
  - injection Hc as <-. lia.
  - destruct (compile c idx depth elemBase elemSize t) as [[t1 r1]|] eqn:E1;
      [|discriminate].
    apply compile_grows in E1. apply IH in Hc. lia.
Qed.

Lemma addOp_wellFormed op depth t :
  ChildEnd op = 0 -> 0 <= depth <= 127 ->
  exists new, ops (fst (addOp op depth t)) = ops t ++ new
              /\ wfForest (lenZ (ops t)) (Parent op) depth new.
Proof.
  intros Hce Hd. exists [set_Depth (int8 depth) op].
  split; [apply addOp_ops|].
  apply wfLeaf; simpl; auto; [apply int8_id; lia|constructor].
Qed.

Lemma levels_nonneg n : 0 <= levels n.
Proof.
  induction n using Node_nested_ind; simpl; try lia.
  all: assert (0 <= foldr Z.max 0 (map levels cs))
         by (clear; induction cs; simpl; lia); lia.
Qed.

Lemma levels_children cs bound :
  foldr Z.max 0 (map levels cs) <= bound ->
  Forall (fun c => levels c <= bound) cs.
Proof.
  induction cs as [|c cs IH]; simpl; intros Hb; constructor; [lia|].
  apply IH. lia.
Qed.

Lemma compileChildren_wellFormed cs :
  Forall compilesWellFormed cs ->
  forall idx depth elemBase elemSize t t',
    compileChildren compile cs idx depth elemBase elemSize t = Some t' ->
    lenZ (ops t') <= 32767 -> 0 <= depth ->
    Forall (fun c => levels c <= 128 - depth) cs ->
    exists new, ops t' = ops t ++ new
                /\ wfForest (lenZ (ops t)) idx depth new.
Proof.
  induction 1 as [|c cs Hc _ IH]; simpl;
    intros idx depth eb es t t' Hcs Hlen Hd Hlev.
  - injection Hcs as <-. exists []. rewrite app_nil_r. split; [reflexivity|constructor].
  - destruct (compile c idx depth eb es t) as [[t1 r1]|] eqn:E1; [|discriminate].
    inversion Hlev as [|c0 cs0 Hl1 Hl2]; subst.
    pose proof (compileChildren_grows _ _ _ _ _ _ _ Hcs) as Hg.
    destruct (Hc _ _ _ _ _ _ _ E1 ltac:(lia) Hd ltac:(lia)) as (n1 & Ho1 & Hw1).
    destruct (IH _ _ _ _ _ _ Hcs Hlen Hd Hl2) as (n2 & Ho2 & Hw2).
    exists (n1 ++ n2). rewrite Ho2, Ho1, app_assoc. split; [reflexivity|].
    apply wfForest_app; [exact Hw1|].
    rewrite Ho1, lenZ_app in Hw2. exact Hw2.
Qed.

Lemma container_wellFormed cs op0 cstart depth elemBase elemSize t t' :
  Forall compilesWellFormed cs ->
  match compileChildren compile cs (snd (addOp op0 depth t)) (depth + 1)
          elemBase elemSize (fst (addOp op0 depth t)) with
  | Some t2 =>
      match setChildRange (snd (addOp op0 depth t)) cstart
              (int16 (lenZ (ops t2))) t2 with
      | Some t3 => Some (t3, snd (addOp op0 depth t))
      | None => None
      end
  | None => None
  end = Some t' ->
  lenZ (ops (fst t')) <= 32767 -> 0 <= depth ->
  depth + (1 + foldr Z.max 0 (map levels cs)) <= 128 ->
  exists new, ops (fst t') = ops t ++ new
              /\ wfForest (lenZ (ops t)) (Parent op0) depth new.
Proof.
  intros Hcs Hc Hlen Hd Hlev.
  destruct (compileChildren _ _ _ _ _ _ _) as [t2|] eqn:E2; [|discriminate].
  destruct (setChildRange _ _ _ _) as [t3|] eqn:E3; [|discriminate].
  injection Hc as <-. cbn [fst snd] in *.
  apply setChildRange_Some in E3 as [Hidx Hops].
  assert (Hlen2 : lenZ (ops t2) = lenZ (ops t3)).
  { rewrite Hops. unfold lenZ. rewrite length_alter. reflexivity. }
  pose proof (compileChildren_grows _ _ _ _ _ _ _ E2) as Hg.
  rewrite addOp_ops, lenZ_app in Hg. change (lenZ [_]) with 1 in Hg.
  pose proof (lenZ_nonneg (ops t)) as Hn0.
  assert (Hi : snd (addOp op0 depth t) = lenZ (ops t)).
  { rewrite addOp_idx. apply int16_id. lia. }
  assert (Hm : 0 <= foldr Z.max 0 (map levels cs))
    by (clear; induction cs; simpl; lia).
  destruct (compileChildren_wellFormed cs Hcs _ _ _ _ _ _ E2 ltac:(lia) ltac:(lia))
    as (kids & Hk & Hw).
  { apply levels_children. lia. }
  rewrite addOp_ops in Hk. rewrite addOp_ops, lenZ_app in Hw.
  change (lenZ [_]) with 1 in Hw. rewrite Hi in Hw.
  exists (set_ChildEnd (int16 (lenZ (ops t2)))
            (match cstart with
             | Some s => set_ChildStart s (set_Depth (int8 depth) op0)
             | None => set_Depth (int8 depth) op0
             end) :: kids).
  split.
  - rewrite Hops, Hk, Hi. unfold lenZ. rewrite Nat2Z.id.
    rewrite <- app_assoc. simpl.
    rewrite alter_middle. reflexivity.
  - rewrite <- (app_nil_r kids). apply wfNode.
    + destruct cstart; reflexivity.
    + destruct cstart; simpl; apply int8_id; lia.
    + simpl. rewrite int16_id by lia.
      rewrite Hk, !lenZ_app. change (lenZ [_]) with 1. lia.
    + exact Hw.
    + constructor.
Qed.

(** The cases of the compiler that end in one [addOp] of a leaf. *)
Ltac by_addOp_leaf Hc :=
  repeat match type of Hc with
         | context [isNilNode ?n] => destruct (isNilNode n) eqn:?
         | context [compileSub ?a ?b ?c ?d] => destruct (compileSub a b c d) eqn:?
         | context [compileCases ?a ?b ?c ?d] => destruct (compileCases a b c d) eqn:?
         | context [match ?x with _ => _ end] => destruct x eqn:?
         end;
  try discriminate;
  match type of Hc with
  | Some (addOp ?o ?d ?t) = Some _ =>
      let HA := fresh "HA" in
      pose proof (addOp_wellFormed o d t) as HA;
      rewrite (surjective_pairing (addOp o d t)) in Hc;
      injection Hc as <- <-; apply HA; [reflexivity|simpl in *; lia]
  end.

Lemma compile_wellFormed n : compilesWellFormed n.
Proof.
  induction n using Node_nested_ind;
    intros parent depth eb es t t' res Hc Hlen Hd Hlev;
    cbn [compile] in Hc.
  - injection Hc as <- <-. exists []. rewrite app_nil_r. split; [reflexivity|constructor].
  - unfold compileText in Hc. by_addOp_leaf Hc.
  - unfold compileProgress in Hc. by_addOp_leaf Hc.
  - unfold compileContainer in Hc.
    match type of Hc with context [addOp ?o depth t] =>
      rewrite (surjective_pairing (addOp o depth t)) in Hc;
      apply (container_wellFormed cs o) in Hc; auto end.
  - unfold compileContainer in Hc.
    match type of Hc with context [addOp ?o depth t] =>
      rewrite (surjective_pairing (addOp o depth t)) in Hc;
      apply (container_wellFormed cs o) in Hc; auto end.
  - unfold compileIf in Hc. by_addOp_leaf Hc.
  - unfold compileForEach in Hc. by_addOp_leaf Hc.
  - unfold compileRenderer in Hc. by_addOp_leaf Hc.
  - unfold compileBox in Hc.
    match type of Hc with context [addOp ?o depth t] =>
      rewrite (surjective_pairing (addOp o depth t)) in Hc;
      apply (container_wellFormed cs o) in Hc; auto end.
  - unfold compileCondition in Hc. by_addOp_leaf Hc.
  - unfold compileLayer in Hc. by_addOp_leaf Hc.
  - unfold compileRichText in Hc. by_addOp_leaf Hc.
  - unfold compileSelectionList in Hc. by_addOp_leaf Hc.
  - eapply IHn; eauto.
  - unfold compileSwitch in Hc. by_addOp_leaf Hc.
  - injection Hc as <- <-. exists []. rewrite app_nil_r. split; [reflexivity|constructor].
Qed.

(** *** From the forest to the indices of the flat array *)

(** Every op of a forest is a root of it or has its parent before it in the
    forest, one level up, and lies before the end of its parent's range. *)
Lemma wfForest_parent b parent depth l :
  wfForest b parent depth l ->
  forall (k : nat) (op : Op),
    l !! k = Some op ->
    (Parent op = parent /\ Depth op = depth)
    \/ exists (k' : nat) (pop : Op),
         (k' < k)%nat /\ l !! k' = Some pop
         /\ Parent op = b + Z.of_nat k'
         /\ Depth op = Depth pop + 1
         /\ b + Z.of_nat k < ChildEnd pop.
Proof.
  induction 1 as [b p d|b p d op rest Hp Hd Hc _ IH
                 |b p d op kids rest Hp Hd Hc _ IHk _ IHr]; intros k o Hk.
  - discriminate Hk.
  - destruct k as [|k]; simpl in Hk.
    + injection Hk as <-. left. auto.
    + destruct (IH k o Hk) as [?|(k' & pop & Hlt & Hl & Hpar & Hdep & Hend)];
        [left; assumption|].
      right. exists (S k'), pop.
      split; [lia|]. split; [exact Hl|]. split; [lia|]. split; [exact Hdep|lia].
  - destruct k as [|k]; simpl in Hk.
    + injection Hk as <-. left. auto.
    + apply lookup_app_Some in Hk as [Hk|[Hge Hk]].
      * destruct (IHk k o Hk) as [[Hpar Hdep]|(k' & pop & Hlt & Hl & Hpar & Hdep & Hend)].
        -- right. exists O, op.
           apply lookup_lt_Some in Hk. unfold lenZ in *.
           split; [lia|]. split; [reflexivity|]. split; [lia|].
           split; [lia|lia].
        -- right. exists (S k'), pop.
           split; [lia|]. split; [|split; [lia|split; [exact Hdep|lia]]].
           change ((kids ++ rest) !! k' = Some pop).
           apply lookup_app_Some. left. exact Hl.
      * destruct (IHr _ o Hk) as [?|(k' & pop & Hlt & Hl & Hpar & Hdep & Hend)];
          [left; assumption|].
        right. exists (S (length kids + k')), pop. unfold lenZ in *.
        split; [lia|]. split; [|split; [lia|split; [exact Hdep|lia]]].
        change ((kids ++ rest) !! (length kids + k')%nat = Some pop).
        apply lookup_app_Some. right. split; [lia|].
        replace (length kids + k' - length kids)%nat with k' by lia. exact Hl.
Qed.

(** No range of a forest ends beyond the forest. *)
Lemma wfForest_end b parent depth l :
  wfForest b parent depth l -> 0 <= b ->
  forall (k : nat) (op : Op), l !! k = Some op -> ChildEnd op <= b + lenZ l.
Proof.
  induction 1 as [b p d|b p d op rest Hp Hd Hc _ IH
                 |b p d op kids rest Hp Hd Hc _ IHk _ IHr]; intros Hb k o Hk.
  - discriminate Hk.
  - destruct k as [|k]; simpl in Hk.
    + injection Hk as <-. pose proof (lenZ_nonneg (op :: rest)). lia.
    + specialize (IH ltac:(lia) k o Hk). unfold lenZ in *. simpl. lia.
  - pose proof (lenZ_nonneg kids) as Hkn.
    assert (Hl : lenZ (op :: kids ++ rest) = 1 + lenZ kids + lenZ rest)
      by (unfold lenZ; simpl; rewrite length_app; lia).
    pose proof (lenZ_nonneg rest) as Hrn.
    destruct k as [|k]; simpl in Hk.
    + injection Hk as <-. lia.
    + apply lookup_app_Some in Hk as [Hk|[Hge Hk]].
      * specialize (IHk ltac:(lia) k o Hk). lia.
      * specialize (IHr ltac:(lia) _ o Hk). lia.
Qed.

(** The ranges of a forest nest, and the parent of an op inside a range is
    not before the op that owns the range. *)
Lemma wfForest_nested b parent depth l :
  wfForest b parent depth l -> 0 <= b ->
  forall (i j : nat) (opi opj : Op),
    l !! i = Some opi -> l !! j = Some opj ->
    b + Z.of_nat i < b + Z.of_nat j < ChildEnd opi ->
    ChildEnd opj <= ChildEnd opi /\ b + Z.of_nat i <= Parent opj.
Proof.
  induction 1 as [b p d|b p d op rest Hp Hd Hc Hrest IH
                 |b p d op kids rest Hp Hd Hc Hkids IHk Hrest IHr];
    intros Hb i j opi opj Hi Hj Hrange.
  - discriminate Hi.
  - destruct i as [|i]; simpl in Hi.
    + injection Hi as <-. lia.
    + destruct j as [|j]; [lia|]. simpl in Hj.
      destruct (IH ltac:(lia) i j opi opj Hi Hj ltac:(lia)). split; lia.
  - pose proof (lenZ_nonneg kids) as Hkn.
    destruct i as [|i]; simpl in Hi.
    + injection Hi as <-. destruct j as [|j]; [lia|]. simpl in Hj.
      apply lookup_app_Some in Hj as [Hj|[Hge Hj]].
      * split.
        -- pose proof (wfForest_end _ _ _ _ Hkids ltac:(lia) j opj Hj). lia.
        -- destruct (wfForest_parent _ _ _ _ Hkids j opj Hj)
             as [[Hpar _]|(k' & pop & _ & _ & Hpar & _)]; lia.
      * unfold lenZ in *. lia.
    + destruct j as [|j]; [lia|]. simpl in Hj.
      apply lookup_app_Some in Hi as [Hi|[Hgi Hi]];
        apply lookup_app_Some in Hj as [Hj|[Hgj Hj]].
      * destruct (IHk ltac:(lia) i j opi opj Hi Hj ltac:(lia)). split; lia.
      * pose proof (wfForest_end _ _ _ _ Hkids ltac:(lia) i opi Hi).
        unfold lenZ in *. lia.
      * apply lookup_lt_Some in Hj. lia.
      * destruct (IHr ltac:(lia) _ _ opi opj Hi Hj ltac:(unfold lenZ; lia)).
        split; unfold lenZ in *; lia.
Qed.

(** The forest of a template [Build] produced within the bounds. *)
Lemma Build_wellFormed ui t :
  Build ui = Some t -> lenZ (ops t) <= 32767 -> levels ui <= 128 ->
  wfForest 0 (-1) 0 (ops t).
Proof.
  unfold Build.
  destruct (compile ui (-1) 0 nil 0 (newTemplate 16)) as [[t1 r]|] eqn:E;
    [|discriminate].
  intros [= <-].
  assert (Hops : forall t2, ops (set_geom (replicate (length (ops t2)) zeroGeom) t2)
                            = ops t2) by reflexivity.
  rewrite Hops. clear Hops.
  match goal with
  | |- context [ops (if ?c then ?a else ?b)] =>
      replace (ops (if c then a else b)) with (ops t1)
        by (destruct c; reflexivity)
  end.
  intros Hlen Hlev.
  destruct (compile_wellFormed ui _ _ _ _ _ _ _ E Hlen ltac:(lia) ltac:(lia))
    as (new & Hnew & Hw).
  simpl in Hnew. rewrite Hnew. exact Hw.
Qed.

Section FlatForest.

Variable os : list Op.
Hypothesis forest : wfForest 0 (-1) 0 os.

Lemma flat_parent (j : nat) (c : Op) :
  os !! j = Some c ->
  Parent c = -1
  \/ exists (k : nat) (pop : Op),
       (k < j)%nat /\ os !! k = Some pop /\ Parent c = Z.of_nat k
       /\ Depth c = Depth pop + 1 /\ Z.of_nat j < ChildEnd pop.
Proof.
  intros Hj.
  destruct (wfForest_parent _ _ _ _ forest j c Hj)
    as [[Hp _]|(k & pop & Hlt & Hk & Hp & Hd & He)]; [left; exact Hp|].
  right. exists k, pop. repeat split; auto; lia.
Qed.

Lemma flat_child_depth (i j : nat) (op c : Op) :
  os !! i = Some op -> os !! j = Some c -> Parent c = Z.of_nat i ->
  Depth c = Depth op + 1 /\ Z.of_nat i < Z.of_nat j < ChildEnd op.
Proof.
  intros Hi Hj Hp.
  destruct (flat_parent j c Hj) as [Hroot|(k & pop & Hlt & Hk & Hpk & Hd & He)];
    [lia|].
  assert (k = i) by lia. subst k. rewrite Hi in Hk. injection Hk as <-.
  split; [exact Hd|lia].
Qed.

Lemma flat_descendant_inside (j i : nat) :
  descendantOf os j i ->
  forall op, os !! i = Some op -> Z.of_nat i < Z.of_nat j < ChildEnd op.
Proof.
  induction 1 as [j i (c & Hj & Hp)|j k i (c & Hj & Hp) _ IH]; intros op Hi.
  - apply (flat_child_depth i j op c Hi Hj Hp).
  - specialize (IH op Hi).
    destruct (flat_parent j c Hj) as [Hroot|(k' & pop & Hlt & Hk & Hpk & Hd & He)];
      [lia|].
    assert (k' = k) by lia. subst k'.
    destruct (wfForest_nested _ _ _ _ forest ltac:(lia) i k op pop Hi Hk ltac:(lia)).
    lia.
Qed.

Lemma flat_inside_descendant (i : nat) (op : Op) :
  os !! i = Some op ->
  forall j : nat, Z.of_nat i < Z.of_nat j < ChildEnd op -> descendantOf os j i.
Proof.
  intros Hi j. induction j as [j IH] using lt_wf_ind. intros Hrange.
  pose proof (wfForest_end _ _ _ _ forest ltac:(lia) i op Hi) as Hend.
  destruct (os !! j) as [c|] eqn:Hj;
    [|apply lookup_ge_None in Hj; unfold lenZ in Hend; lia].
  destruct (wfForest_nested _ _ _ _ forest ltac:(lia) i j op c Hi Hj ltac:(lia))
    as [_ Hge].
  destruct (flat_parent j c Hj) as [Hroot|(k & pop & Hlt & Hk & Hpk & Hd & He)];
    [lia|].
  destruct (decide (k = i)) as [->|Hne].
  - apply descendantChild. exists c. auto.
  - apply descendantStep with k; [exists c; auto|].
    apply IH; lia.
Qed.

Lemma flat_descendant_deeper (j i : nat) :
  descendantOf os j i ->
  forall op c, os !! i = Some op -> os !! j = Some c -> Depth op + 1 <= Depth c.
Proof.
  induction 1 as [j i (c0 & Hj & Hp)|j k i (c0 & Hj & Hp) _ IH]; intros op c Hi Hc.
  - rewrite Hj in Hc. injection Hc as <-.
    destruct (flat_child_depth i j op c0 Hi Hj Hp). lia.
  - rewrite Hj in Hc. injection Hc as <-.
    destruct (flat_parent j c0 Hj) as [Hroot|(k' & pop & Hlt & Hk & Hpk & Hd & He)];
      [lia|].
    assert (k' = k) by lia. subst k'.
    specialize (IH op pop Hi Hk). lia.
Qed.

End FlatForest.

(** C1, within the capacity of the op fields. When [Build] compiles a
    declaration of at most 128 levels into at most 32767 ops, then for every
    op at index [i]: the descendants of the op are the ops whose index lies
    in [[i+1, ChildEnd)]; an op whose parent is [i] stands one level deeper
    than the op; and an op of that range that stands one level deeper than
    the op has [i] for parent. *)
Theorem Build_child_ranges :
  forall (ui : Node) (t : Template),
    Build ui = Some t ->
    lenZ (ops t) <= 32767 ->
    levels ui <= 128 ->
    forall (i : nat) (op : Op),
      ops t !! i = Some op ->
      (forall j : nat,
          descendantOf (ops t) j i
          <-> Z.of_nat i + 1 <= Z.of_nat j < ChildEnd op)
      /\ (forall (j : nat) (c : Op),
             ops t !! j = Some c -> Parent c = Z.of_nat i ->
             Depth c = Depth op + 1)
      /\ (forall (j : nat) (c : Op),
             ops t !! j = Some c ->
             Z.of_nat i + 1 <= Z.of_nat j < ChildEnd op ->
             Depth c = Depth op + 1 ->
             Parent c = Z.of_nat i).
Proof.
  intros ui t HB Hlen Hlev i op Hi.
  pose proof (Build_wellFormed ui t HB Hlen Hlev) as Hw.
  split; [|split].
  - intros j. split.
    + intros Hd. pose proof (flat_descendant_inside _ Hw j i Hd op Hi). lia.
    + intros Hr. apply (flat_inside_descendant _ Hw i op Hi). lia.
  - intros j c Hj Hp. apply (flat_child_depth _ Hw i j op c Hi Hj Hp).
  - intros j c Hj Hr Hd.
    destruct (flat_parent _ Hw j c Hj) as [Hroot|(k & pop & Hlt & Hk & Hpk & Hdk & He)].
    + destruct (wfForest_nested _ _ _ _ Hw ltac:(lia) i j op c Hi Hj ltac:(lia)).
      lia.
    + destruct (wfForest_nested _ _ _ _ Hw ltac:(lia) i j op c Hi Hj ltac:(lia))
        as [_ Hge].
      destruct (decide (k = i)) as [->|Hne]; [exact Hpk|].
      assert (Hin : descendantOf (ops t) k i)
        by (apply (flat_inside_descendant _ Hw i op Hi); lia).
      pose proof (flat_descendant_deeper _ Hw k i Hin op pop Hi Hk). lia.
Qed.

Lemma Build_child_ranges_witness :
  (forall j : nat, descendantOf (ops smallTemplate) j 2 <-> 3 <= Z.of_nat j < 5)
  /\ (forall (j : nat) (c : Op),
         ops smallTemplate !! j = Some c -> Parent c = 2 -> Depth c = 2).
Proof.
  assert (HB : Build smallTree = Some smallTemplate) by (vm_compute; reflexivity).
  assert (Hlen : lenZ (ops smallTemplate) <= 32767) by (vm_compute; discriminate).
  assert (Hlev : levels smallTree <= 128) by (vm_compute; discriminate).
  assert (Hop : ops smallTemplate !! 2%nat = Some (opAt smallTemplate 2))
    by (vm_compute; reflexivity).
  destruct (Build_child_ranges smallTree smallTemplate HB Hlen Hlev 2
              (opAt smallTemplate 2) Hop) as (Hdesc & Hdepth & _).
  split; [exact Hdesc|exact Hdepth].
Defined.

(** C1 as the specification states it fails on a declaration of 129 levels:
    the op at index 128 is the direct child of the op at index 127, which
    stands at depth 127, and its own depth is -128. *)
Lemma Build_depth_wraps :
  match Build (nestedCol 128) with
  | Some t =>
      match ops t !! 127%nat, ops t !! 128%nat with
      | Some op, Some c => Some (Depth op, Parent c, Depth c)
      | _, _ => None
      end
  | None => None
  end = Some (127, 127, -128).
Proof. vm_compute. reflexivity. Qed.

(** ** Reading and writing the geometry *)

Lemma opAt_updGeom i f t j : opAt (updGeom i f t) j = opAt t j.
Proof. reflexivity. Qed.

Lemma ops_updGeom i f t : ops (updGeom i f t) = ops t.
Proof. reflexivity. Qed.

Lemma lenZ_geom_updGeom i f t : lenZ (geom (updGeom i f t)) = lenZ (geom t).
Proof.
  unfold updGeom, alterZ, lenZ. simpl. destruct (i <? 0); [reflexivity|].
  rewrite length_alter. reflexivity.
Qed.

Lemma geomAt_updGeom_same i f t :
  0 <= i < lenZ (geom t) -> geomAt (updGeom i f t) i = f (geomAt t i).
Proof.
  intros Hi. unfold geomAt, updGeom, lookupZ, alterZ, lenZ in *. simpl.
  assert (E : (i <? 0) = false) by (apply Z.ltb_ge; lia). rewrite E.
  rewrite list_lookup_alter_eq.
  destruct (geom t !! Z.to_nat i) eqn:El; [reflexivity|].
  apply lookup_ge_None in El. lia.
Qed.

Lemma geomAt_updGeom_other i f t j :
  i <> j -> geomAt (updGeom i f t) j = geomAt t j.
Proof.
  intros Hne. unfold geomAt, updGeom, lookupZ, alterZ. simpl.
  destruct (j <? 0) eqn:Ej; [reflexivity|].
  destruct (i <? 0) eqn:Ei; [reflexivity|].
  apply Z.ltb_ge in Ej, Ei.
  rewrite list_lookup_alter_ne by lia. reflexivity.
Qed.

Lemma opAt_same_ops t t' i : ops t' = ops t -> opAt t' i = opAt t i.
Proof. intros E. unfold opAt. rewrite E. reflexivity. Qed.

Lemma flexSizes_length R F gs d : length (flexSizes R F gs d) = length gs.
Proof. revert d. induction gs as [|g gs IH]; simpl; intros d; [|rewrite IH]; reflexivity. Qed.

Lemma flexSizes_share R F gs d (k : nat) g :
  gs !! k = Some g -> (S k < length gs)%nat ->
  flexSizes R F gs d !! k = Some (flexShare R F g).
Proof.
  revert d k. induction gs as [|g0 gs IH]; intros d k Hk Hlt; [discriminate|].
  destruct k as [|k]; simpl in *.
  - injection Hk as ->. destruct gs; [simpl in Hlt; lia|reflexivity].
  - apply IH; [exact Hk|lia].
Qed.

Lemma sumZ_cons x l : sumZ (x :: l) = x + sumZ l.
Proof. reflexivity. Qed.

Lemma sumZ_app l1 l2 : sumZ (l1 ++ l2) = sumZ l1 + sumZ l2.
Proof.
  induction l1 as [|x l1 IH]; [reflexivity|].
  rewrite <- app_comm_cons, !sumZ_cons, IH. lia.
Qed.

Lemma flexSizes_cons R F g g1 gs d :
  flexSizes R F (g :: g1 :: gs) d
  = flexShare R F g
    :: flexSizes R F (g1 :: gs) (int16 (d + flexShare R F g)).
Proof. reflexivity. Qed.

(** The sizes handed out and what was distributed before add up to the
    remaining size, in 16-bit arithmetic. *)
Lemma flexSizes_sum R F gs d :
  gs <> [] -> int16 (d + sumZ (flexSizes R F gs d)) = int16 R.
Proof.
  revert d. induction gs as [|g gs IH]; intros d Hne; [congruence|].
  destruct gs as [|g1 gs].
  - simpl. rewrite Z.add_0_r, int16_add_r. f_equal. lia.
  - rewrite flexSizes_cons, sumZ_cons.
    specialize (IH (int16 (d + flexShare R F g)) ltac:(discriminate)).
    rewrite int16_add_l in IH. rewrite <- IH. f_equal. lia.
Qed.

(** The last size is the remaining size less what the sizes before it
    distributed. *)
Lemma flexSizes_last R F gs d :
  gs <> [] ->
  last (flexSizes R F gs d)
  = Some (int16 (R - d - sumZ (take (length gs - 1) (flexSizes R F gs d)))).
Proof.
  revert d. induction gs as [|g gs IH]; intros d Hne; [congruence|].
  destruct gs as [|g1 gs].
  - simpl. f_equal. f_equal. lia.
  - rewrite flexSizes_cons.
    specialize (IH (int16 (d + flexShare R F g)) ltac:(discriminate)).
    rewrite last_cons, IH.
    replace (length (g :: g1 :: gs) - 1)%nat with (S (length (g1 :: gs) - 1))
      by (simpl; lia).
    rewrite firstn_cons, sumZ_cons. f_equal.
    set (w := flexShare R F g).
    set (s := sumZ _).
    replace (R - int16 (d + w) - s) with ((R - s) - int16 (d + w)) by lia.
    rewrite int16_sub_r. f_equal. lia.
Qed.

Lemma rowPass1_unfold idx op availW elemBase mem t :
  rowPass1 idx op availW elemBase mem t
  = fold_left (fun s i => rowPass1Step idx availW elemBase mem i s)
      (seqZ (ChildStart op) (ChildEnd op - ChildStart op))
      (t, 0, f32_zero, [], []).
Proof. reflexivity. Qed.

Lemma rowPass1_fold idx availW elemBase mem t l :
  forall t1 usedW totalFlex fc ifc,
    ops t1 = ops t ->
    let r := fold_left (fun s i => rowPass1Step idx availW elemBase mem i s) l
               (t1, usedW, totalFlex, fc, ifc) in
    let P := fun i => (Parent (opAt t i) =? idx) && f32_pos (FlexGrow (opAt t i)) in
    ops (fst (fst (fst (fst r)))) = ops t
    /\ lenZ (geom (fst (fst (fst (fst r))))) = lenZ (geom t1)
    /\ snd (fst r) = fc ++ List.filter P l
    /\ snd (fst (fst r))
       = fold_left f32_add (map (fun i => FlexGrow (opAt t i)) (List.filter P l))
           totalFlex.
Proof.
  induction l as [|i l IH]; intros t1 usedW totalFlex fc ifc Hops; cbn zeta.
  - simpl. rewrite app_nil_r. auto.
  - cbn [fold_left List.filter].
    remember (rowPass1Step idx availW elemBase mem i
                (t1, usedW, totalFlex, fc, ifc)) as st1 eqn:Est.
    unfold rowPass1Step in Est. rewrite (opAt_same_ops t t1 i Hops) in Est.
    destruct (Parent (opAt t i) =? idx) eqn:Ep; cbn [negb andb] in *.
    + destruct (f32_pos (FlexGrow (opAt t i))) eqn:Ef.
      * subst st1.
        destruct (IH t1 usedW (f32_add totalFlex (FlexGrow (opAt t i)))
                    (fc ++ [i]) ifc Hops) as (H1 & H2 & H3 & H4).
        split; [exact H1|]. split; [exact H2|]. split.
        -- rewrite H3, <- app_assoc. reflexivity.
        -- exact H4.
      * destruct (isKind OpContainer (opAt t i) && (Width (opAt t i) =? 0)
                  && f32_is0 (PercentWidth (opAt t i))); subst st1.
        -- apply IH. exact Hops.
        -- match goal with
           | |- context [fold_left _ l (?t2, ?u2, _, _, _)] =>
               destruct (IH t2 u2 totalFlex fc ifc Hops) as (H1 & H2 & H3 & H4)
           end.
           split; [exact H1|]. split; [|split; [exact H3|exact H4]].
           rewrite H2. apply lenZ_geom_updGeom.
    + subst st1. apply IH. exact Hops.
Qed.

Lemma rowPass1_spec idx op availW elemBase mem t :
  let r := rowPass1 idx op availW elemBase mem t in
  ops (fst (fst (fst (fst r)))) = ops t
  /\ lenZ (geom (fst (fst (fst (fst r))))) = lenZ (geom t)
  /\ snd (fst r) = rowFlexChildren idx op t
  /\ snd (fst (fst r)) = rowTotalFlex idx op t.
Proof.
  cbn zeta. rewrite rowPass1_unfold.
  apply (rowPass1_fold idx availW elemBase mem t _ t 0 f32_zero [] [] eq_refl).
Qed.

(** *** The loop over the flex children *)

Lemma rowFlexPass_spec R F fc :
  forall d t,
    NoDup fc ->
    (forall c, In c fc -> 0 <= c < lenZ (geom t)) ->
    let t' := rowFlexPass R F fc d t in
    ops t' = ops t
    /\ map (fun c => W (geomAt t' c)) fc
       = flexSizes R F (map (fun c => FlexGrow (opAt t c)) fc) d
    /\ (forall j, ~ In j fc -> geomAt t' j = geomAt t j).
Proof.
  induction fc as [|c rest IH]; intros d t Hnd Hin; cbn zeta.
  - simpl. auto.
  - apply NoDup_cons in Hnd as [Hc Hnd].
    rewrite list_elem_of_In in Hc.
    cbn [rowFlexPass].
    set (w := match rest with
              | [] => int16 (R - d)
              | _ :: _ => f32_to_int16 (f32_mul (f32_of_int R)
                                          (f32_div (FlexGrow (opAt t c)) F))
              end).
    specialize (IH (int16 (d + w)) (updGeom c (set_W w) t) Hnd).
    cbn zeta in IH.
    destruct IH as (H1 & H2 & H3).
    { intros c' Hc'. rewrite lenZ_geom_updGeom. apply Hin. right. exact Hc'. }
    split; [exact H1|]. split.
    + cbn [map]. rewrite H2, (H3 c Hc), geomAt_updGeom_same by (apply Hin; left; reflexivity).
      cbn [flexSizes]. f_equal.
      * unfold w. destruct rest; reflexivity.
      * f_equal. unfold w. destruct rest; reflexivity.
    + intros j Hj. rewrite H3 by (intros Hr; apply Hj; right; exact Hr).
      apply geomAt_updGeom_other. intros ->. apply Hj. left. reflexivity.
Qed.

Lemma rowFlexChildren_NoDup idx op t : NoDup (rowFlexChildren idx op t).
Proof.
  unfold rowFlexChildren. apply NoDup_ListNoDup, List.NoDup_filter.
  apply NoDup_ListNoDup, NoDup_seqZ.
Qed.

Lemma rowFlexChildren_range idx op t c :
  In c (rowFlexChildren idx op t) -> ChildStart op <= c < ChildEnd op.
Proof.
  unfold rowFlexChildren. intros Hc. apply List.filter_In in Hc as [Hc _].
  apply list_elem_of_In, elem_of_seqZ in Hc. lia.
Qed.

(** The flex children of a row are not empty when their total flex is
    positive. *)
Lemma rowFlexChildren_nonempty idx op t :
  f32_pos (rowTotalFlex idx op t) = true -> rowFlexChildren idx op t <> [].
Proof.
  unfold rowTotalFlex. intros Hpos Hnil. rewrite Hnil in Hpos. discriminate Hpos.
Qed.

Lemma distributeRowChildWidths_flex idx op availW elemBase mem t :
  distributeRowChildWidths idx op availW elemBase mem t
  = let r := rowPass1 idx op availW elemBase mem t in
    let R := rowRemaining idx op availW elemBase mem t in
    if (0 <? R) && f32_pos (snd (fst (fst r)))
    then rowFlexPass R (snd (fst (fst r))) (snd (fst r)) 0 (fst (fst (fst (fst r))))
    else if (0 <? R) && (0 <? lenZ (snd r))
    then rowImplicitPass R (int16 (Z.quot R (int16 (lenZ (snd r))))) (snd r) 0
           (fst (fst (fst (fst r))))
    else fst (fst (fst (fst r))).
Proof.
  unfold distributeRowChildWidths, rowRemaining.
  destruct (rowPass1 idx op availW elemBase mem t) as [[[[t1 usedW] F1] fc1] ifc1].
  reflexivity.
Qed.




Lemma colPass1_unfold idx op t mem :
  colPass1 idx op t mem
  = fold_left (fun s i => colPass1Step idx t mem i s)
      (seqZ (ChildStart op) (ChildEnd op - ChildStart op))
      (0, f32_zero, [], []).
Proof. reflexivity. Qed.

Lemma filter_cons_bool {A} (P : A -> bool) x l :
  List.filter P (x :: l) = if P x then x :: List.filter P l else List.filter P l.
Proof. reflexivity. Qed.

Lemma colPass1_fold idx t mem l :
  forall usedH totalFlex fc gv,
    let r := fold_left (fun s i => colPass1Step idx t mem i s) l
               (usedH, totalFlex, fc, gv) in
    let kids := List.filter (fun i => Parent (opAt t i) =? idx) l in
    let flexKids := List.filter (isFlexChild t mem) kids in
    int16 (fst (fst (fst r)))
    = int16 (usedH + sumZ (map (usedHeightOf t mem) kids))
    /\ snd (fst (fst r))
       = fold_left f32_add (map (flexGrowOf t mem) flexKids) totalFlex
    /\ snd (fst r) = fc ++ flexKids
    /\ snd r = gv ++ map (flexGrowOf t mem) flexKids.
Proof.
  induction l as [|i l IH]; intros usedH totalFlex fc gv; cbn zeta.
  - simpl. rewrite !app_nil_r, Z.add_0_r. auto.
  - cbn [fold_left]. rewrite filter_cons_bool.
    remember (colPass1Step idx t mem i (usedH, totalFlex, fc, gv)) as st1 eqn:Est.
    unfold colPass1Step in Est.
    destruct (Parent (opAt t i) =? idx) eqn:Ep; cbn [negb] in Est.
    + destruct ((isKind OpContainer (opAt t i) || isKind OpLayer (opAt t i))
                && f32_pos (FlexGrow (opAt t i))) eqn:E1.
      * assert (Ei : isFlexChild t mem i = true)
          by (unfold isFlexChild; rewrite E1; reflexivity).
        assert (Eu : usedHeightOf t mem i = ContentH (geomAt t i))
          by (unfold usedHeightOf; rewrite Ei; reflexivity).
        assert (Eg : flexGrowOf t mem i = FlexGrow (opAt t i))
          by (unfold flexGrowOf; rewrite E1; reflexivity).
        rewrite filter_cons_bool, Ei. cbn [map]. rewrite sumZ_cons, Eu, Eg.
        subst st1.
        destruct (IH (int16 (usedH + ContentH (geomAt t i)))
                    (f32_add totalFlex (FlexGrow (opAt t i)))
                    (fc ++ [i]) (gv ++ [FlexGrow (opAt t i)]))
          as (H1 & H2 & H3 & H4).
        split; [|split; [|split]].
        -- rewrite H1, int16_add_l. f_equal. lia.
        -- exact H2.
        -- rewrite H3, <- app_assoc. reflexivity.
        -- rewrite H4, <- app_assoc. reflexivity.
      * destruct (isKind OpIf (opAt t i) && f32_pos (getIfFlexGrow t (opAt t i) mem))
          eqn:E2.
        -- assert (Ei : isFlexChild t mem i = true)
             by (unfold isFlexChild; rewrite E1, E2; reflexivity).
           assert (Eu : usedHeightOf t mem i = ContentH (geomAt t i))
             by (unfold usedHeightOf; rewrite Ei; reflexivity).
           assert (Eg : flexGrowOf t mem i = getIfFlexGrow t (opAt t i) mem)
             by (unfold flexGrowOf; rewrite E1; reflexivity).
           rewrite filter_cons_bool, Ei. cbn [map]. rewrite sumZ_cons, Eu, Eg.
           subst st1.
           destruct (IH (int16 (usedH + ContentH (geomAt t i)))
                      (f32_add totalFlex (getIfFlexGrow t (opAt t i) mem))
                      (fc ++ [i]) (gv ++ [getIfFlexGrow t (opAt t i) mem]))
             as (H1 & H2 & H3 & H4).
           split; [|split; [|split]].
           ++ rewrite H1, int16_add_l. f_equal. lia.
           ++ exact H2.
           ++ rewrite H3, <- app_assoc. reflexivity.
           ++ rewrite H4, <- app_assoc. reflexivity.
        -- assert (Ei : isFlexChild t mem i = false)
             by (unfold isFlexChild; rewrite E1, E2; reflexivity).
           assert (Eu : usedHeightOf t mem i = H (geomAt t i))
             by (unfold usedHeightOf; rewrite Ei; reflexivity).
           rewrite filter_cons_bool, Ei. cbn [map]. rewrite sumZ_cons, Eu.
           subst st1.
           destruct (IH (int16 (usedH + H (geomAt t i))) totalFlex fc gv)
             as (H1 & H2 & H3 & H4).
           split; [|split; [|split]]; auto.
           rewrite H1, int16_add_l. f_equal. lia.
    + subst st1. apply IH.
Qed.

Lemma colPass1_spec idx op t mem :
  let r := colPass1 idx op t mem in
  int16 (fst (fst (fst r)))
  = int16 (sumZ (map (usedHeightOf t mem) (directChildren idx op t)))
  /\ snd (fst (fst r)) = colTotalFlex idx op t mem
  /\ snd (fst r) = colFlexChildren idx op t mem
  /\ snd r = map (flexGrowOf t mem) (colFlexChildren idx op t mem).
Proof.
  cbn zeta. rewrite colPass1_unfold.
  apply (colPass1_fold idx t mem _ 0 f32_zero [] []).
Qed.

(** *** The loop that hands the extra height out *)

Lemma zip_with_ext_in {A B C} (f g : A -> B -> C) (l1 : list A) (l2 : list B) :
  (forall a b, In a l1 -> f a b = g a b) -> zip_with f l1 l2 = zip_with g l1 l2.
Proof.
  revert l2. induction l1 as [|a l1 IH]; intros [|b l2] Hfg; cbn [zip_with];
    try reflexivity.
  rewrite (Hfg a b (or_introl eq_refl)), IH; [reflexivity|].
  intros a' b' Ha'. apply Hfg. right. exact Ha'.
Qed.

Lemma colFlexPass_spec R F fc :
  forall gv d t,
    NoDup fc -> length gv = length fc ->
    (forall c, In c fc -> 0 <= c < lenZ (geom t)) ->
    let t' := colFlexPass R F fc gv d t in
    ops t' = ops t
    /\ lenZ (geom t') = lenZ (geom t)
    /\ map (fun c => H (geomAt t' c)) fc
       = zip_with (fun c e => int16 (ContentH (geomAt t c) + e)) fc
           (flexSizes R F gv d)
    /\ (forall j, ~ In j fc -> geomAt t' j = geomAt t j).
Proof.
  induction fc as [|c rest IH]; intros gv d t Hnd Hlen Hin; cbn zeta.
  - destruct gv; simpl; auto.
  - destruct gv as [|g gv]; [discriminate Hlen|].
    apply NoDup_cons in Hnd as [Hc Hnd].
    rewrite list_elem_of_In in Hc.
    cbn [colFlexPass].
    set (e := match rest with
              | [] => int16 (R - d)
              | _ :: _ => f32_to_int16 (f32_mul (f32_of_int R) (f32_div g F))
              end).
    assert (He : flexSizes R F (g :: gv) d
                 = e :: flexSizes R F gv (int16 (d + e))).
    { cbn [flexSizes]. unfold e, flexShare.
      destruct rest, gv; try discriminate Hlen; reflexivity. }
    specialize (IH gv (int16 (d + e))
                  (updGeom c (fun g0 => set_H (int16 (ContentH g0 + e)) g0) t) Hnd).
    cbn zeta in IH.
    destruct IH as (H1 & H2 & H3 & H4).
    { simpl in Hlen. lia. }
    { intros c' Hc'. rewrite lenZ_geom_updGeom. apply Hin. right. exact Hc'. }
    split; [exact H1|]. split; [rewrite H2; apply lenZ_geom_updGeom|]. split.
    + cbn [map]. rewrite He. cbn [zip_with].
      rewrite (H4 c Hc), geomAt_updGeom_same by (apply Hin; left; reflexivity).
      f_equal. rewrite H3. apply zip_with_ext_in.
      intros c' e' Hc'. rewrite geomAt_updGeom_other; [reflexivity|].
      intros ->. apply Hc. exact Hc'.
    + intros j Hj. rewrite H4 by (intros Hr; apply Hj; right; exact Hr).
      apply geomAt_updGeom_other. intros ->. apply Hj. left. reflexivity.
Qed.

Lemma colReposition_unfold idx op t :
  colReposition idx op t
  = fst (fst (fold_left (fun s i => colRepositionStep idx op i s)
                (seqZ (ChildStart op) (ChildEnd op - ChildStart op))
                (t, 0, true))).
Proof. reflexivity. Qed.

Lemma H_updGeom_LocalY i y t j :
  H (geomAt (updGeom i (set_LocalY y) t) j) = H (geomAt t j).
Proof.
  destruct (decide (i = j)) as [->|Hne].
  - unfold geomAt, updGeom, lookupZ, alterZ. simpl.
    destruct (j <? 0); [reflexivity|].
    rewrite list_lookup_alter_eq. destruct (geom t !! Z.to_nat j); reflexivity.
  - rewrite geomAt_updGeom_other by exact Hne. reflexivity.
Qed.

Lemma colReposition_fold idx op j l :
  forall t cursor first,
    let r := fst (fst (fold_left (fun s i => colRepositionStep idx op i s) l
                         (t, cursor, first))) in
    H (geomAt r j) = H (geomAt t j)
    /\ lenZ (geom r) = lenZ (geom t)
    /\ ops r = ops t.
Proof.
  induction l as [|i l IH]; intros t cursor first; cbn zeta; [simpl; auto|].
  cbn [fold_left].
  remember (colRepositionStep idx op i (t, cursor, first)) as st1 eqn:Est.
  unfold colRepositionStep in Est.
  destruct (negb (Parent (opAt t i) =? idx)); subst st1; [apply IH|].
  match goal with
  | |- context [fold_left _ l (?t1, ?c1, ?f1)] =>
      destruct (IH t1 c1 f1) as (H1 & H2 & H3)
  end.
  rewrite H1, H2, H3.
  split; [apply H_updGeom_LocalY|].
  split; [apply lenZ_geom_updGeom|reflexivity].
Qed.

(** The sweep of the positions leaves every height as it was. *)
Lemma colReposition_H idx op t j :
  H (geomAt (colReposition idx op t) j) = H (geomAt t j)
  /\ lenZ (geom (colReposition idx op t)) = lenZ (geom t)
  /\ ops (colReposition idx op t) = ops t.
Proof. rewrite colReposition_unfold. apply colReposition_fold. Qed.

(** The propagation into the conditionals touches no geometry of the
    template itself. *)
Lemma propagate_geom rec mem fc t :
  geom (forEach fc
          (fun childIdx t =>
             let childOp := opAt t childIdx in
             if isKind OpIf childOp
             then updOp childIdx (fun _ =>
                    propagateFlexToIf rec t childOp (H (geomAt t childIdx)) mem) t
             else t) t)
  = geom t.
Proof.
  unfold forEach. revert t. induction fc as [|c fc IH]; intros t; [reflexivity|].
  cbn [fold_left]. rewrite IH. destruct (isKind OpIf (opAt t c)); reflexivity.
Qed.

(** The 16-bit counter of the children is their number as long as that fits. *)
Lemma childCount_fold idx t l :
  forall n, 0 <= n -> n + lenZ l <= 32767 ->
    fold_left (fun n i => if Parent (opAt t i) =? idx then int16 (n + 1) else n) l n
    = n + lenZ (List.filter (fun i => Parent (opAt t i) =? idx) l).
Proof.
  induction l as [|i l IH]; intros n Hn Hb; [simpl; unfold lenZ; simpl; lia|].
  cbn [fold_left]. rewrite filter_cons_bool.
  assert (Hl : lenZ (i :: l) = 1 + lenZ l) by (unfold lenZ; simpl; lia).
  pose proof (lenZ_nonneg l).
  destruct (Parent (opAt t i) =? idx).
  - rewrite int16_id by lia. rewrite IH by lia.
    unfold lenZ. simpl. lia.
  - apply IH; lia.
Qed.

Lemma childCount_spec idx op t :
  0 <= ChildStart op -> ChildEnd op <= 32767 ->
  childCount idx op t = lenZ (directChildren idx op t).
Proof.
  intros Hs He. unfold childCount, forRange, directChildren.
  rewrite (childCount_fold idx t _ 0); [lia|lia|].
  unfold lenZ. rewrite length_seqZ. lia.
Qed.

(** The heights after the distribution add up to the used height and the
    extra heights. *)
Lemma flex_heights_sum (used content h' : Z -> Z) (flex : Z -> bool)
    (kids : list Z) :
  forall es,
    (forall c, In c kids -> flex c = false -> h' c = used c) ->
    (forall c, In c kids -> flex c = true -> used c = content c) ->
    map h' (List.filter flex kids)
    = zip_with (fun c e => int16 (content c + e)) (List.filter flex kids) es ->
    length es = length (List.filter flex kids) ->
    int16 (sumZ (map h' kids)) = int16 (sumZ (map used kids) + sumZ es).
Proof.
  induction kids as [|c kids IH]; intros es Hfix Hcont Hflex Hlen.
  - simpl in *. destruct es; [reflexivity|discriminate].
  - rewrite filter_cons_bool in Hflex, Hlen. cbn [map]. rewrite !sumZ_cons.
    destruct (flex c) eqn:Ec.
    + destruct es as [|e es]; [discriminate Hlen|].
      cbn [map zip_with] in Hflex. injection Hflex as Hc Hrest.
      rewrite sumZ_cons, Hc, (Hcont c (or_introl eq_refl) Ec), int16_add_l.
      rewrite <- int16_add_r.
      rewrite (IH es); [| | |exact Hrest|simpl in Hlen; lia].
      * rewrite int16_add_r. f_equal. lia.
      * intros c' Hc'. apply Hfix. right. exact Hc'.
      * intros c' Hc'. apply Hcont. right. exact Hc'.
    + rewrite (Hfix c (or_introl eq_refl) Ec).
      rewrite <- int16_add_r.
      rewrite (IH es); [| | |exact Hflex|exact Hlen].
      * rewrite int16_add_r. f_equal. lia.
      * intros c' Hc'. apply Hfix. right. exact Hc'.
      * intros c' Hc'. apply Hcont. right. exact Hc'.
Qed.

Lemma int16_mod_eq a b : int16 a = int16 b <-> a mod 65536 = b mod 65536.
Proof.
  split; [|apply int16_eq_mod].
  intros E. rewrite <- (int16_mod a), <- (int16_mod b), E. reflexivity.
Qed.

Lemma int16_mul a b : int16 (int16 a * int16 b) = int16 (a * b).
Proof.
  apply int16_eq_mod.
  rewrite <- Z.mul_mod_idemp_l, <- Z.mul_mod_idemp_r, !int16_mod by lia.
  rewrite Z.mul_mod_idemp_l, Z.mul_mod_idemp_r by lia. reflexivity.
Qed.

(** The balance of the distribution, in 16-bit arithmetic. *)
Lemma flex_balance (S' U E availH A u G : Z) :
  int16 S' = int16 (U + E) ->
  int16 E = int16 (availH - A) ->
  int16 A = int16 (u + G) ->
  int16 u = int16 U ->
  int16 (S' + G) = int16 availH.
Proof.
  rewrite !int16_mod_eq. intros H1 H2 H3 H4.
  Z.div_mod_to_equations. lia.
Qed.

Lemma addGaps_spec op n used :
  0 <= Gap op -> 1 <= n ->
  int16 (addGaps op n used) = int16 (used + Gap op * (n - 1)).
Proof.
  intros Hg Hn. unfold addGaps.
  destruct ((1 <? n) && (0 <? Gap op)) eqn:E.
  - rewrite int16_idem, int16_add_r.
    rewrite <- (int16_add_r used (int16 (Gap op) * int16 (n - 1))), int16_mul.
    apply int16_add_r.
  - f_equal. apply andb_false_iff in E as [E|E].
    + apply Z.ltb_ge in E. assert (n = 1) by lia. subst n. lia.
    + apply Z.ltb_ge in E. assert (Gap op = 0) by lia. lia.
Qed.

Lemma geomAt_same_geom t t' i : geom t' = geom t -> geomAt t' i = geomAt t i.
Proof. intros E. unfold geomAt. rewrite E. reflexivity. Qed.

Lemma distributeFlexInCol_flex rec idx op rootH mem t :
  distributeFlexInCol rec idx op rootH mem t
  = let r := colPass1 idx op t mem in
    let availH := colAvailH idx op rootH t in
    let R := colRemaining idx op rootH mem t in
    if (0 <? R) && f32_pos (snd (fst (fst r)))
    then
      let t1 := colFlexPass R (snd (fst (fst r))) (snd (fst r)) (snd r) 0 t in
      let t2 := colReposition idx op t1 in
      let t3 :=
        forEach (snd (fst r))
          (fun childIdx t =>
             let childOp := opAt t childIdx in
             if isKind OpIf childOp
             then updOp childIdx (fun _ =>
                    propagateFlexToIf rec t childOp (H (geomAt t childIdx)) mem) t
             else t) t2 in
      updGeom idx (set_H (if hasBorder op then int16 (availH + 2) else availH)) t3
    else t.
Proof.
  unfold distributeFlexInCol, colRemaining.
  destruct (colPass1 idx op t mem) as [[[usedH F1] fc1] gv1]. reflexivity.
Qed.

Lemma directChildren_range idx op t c :
  In c (directChildren idx op t) -> ChildStart op <= c < ChildEnd op.
Proof.
  unfold directChildren. intros Hc. apply List.filter_In in Hc as [Hc _].
  apply list_elem_of_In, elem_of_seqZ in Hc. lia.
Qed.

Lemma directChildren_NoDup idx op t : NoDup (directChildren idx op t).
Proof.
  unfold directChildren. apply NoDup_ListNoDup, List.NoDup_filter.
  apply NoDup_ListNoDup, NoDup_seqZ.
Qed.




(** C4 fails under a custom layout. The widths of the children of a box are
    those the previous frame arranged, so the first [Execute] after [Build]
    lays the two columns of the row out with no width, one over the other,
    and the second [Execute], on the same screen and the same state, gives
    them 10 cells each: the geometry and the buffer of two consecutive
    frames differ. *)
Theorem Execute_twice_differs_in_box :
  Build boxedColumns = Some boxedTemplate
  /\ geometry (fst (fst (boxedFrame 1)))
     = [(20, 2, 0, 0); (20, 2, 0, 0); (5, 1, 0, 0); (0, 1, 0, 1);
        (0, 1, 0, 0); (1, 1, 0, 0); (0, 1, 0, 0); (1, 1, 0, 0)]
  /\ geometry (fst (fst (boxedFrame 2)))
     = [(20, 2, 0, 0); (20, 2, 0, 0); (5, 1, 0, 0); (20, 1, 0, 1);
        (10, 1, 0, 0); (1, 1, 0, 0); (10, 1, 10, 0); (1, 1, 0, 0)]
  /\ snd (fst (boxedFrame 1))
     = [WriteStringFast 0 0 "hello" emptyStyle 20;
        WriteStringFast 0 1 "a" emptyStyle 0;
        WriteStringFast 0 1 "b" emptyStyle 0]
  /\ snd (fst (boxedFrame 2))
     = [WriteStringFast 0 0 "hello" emptyStyle 20;
        WriteStringFast 0 1 "a" emptyStyle 10;
        WriteStringFast 10 1 "b" emptyStyle 10].
Proof. vm_compute. repeat split. Qed.

Lemma compileChildren_keeps I cs :
  Forall (compileKeeps I) cs ->
  forall idx depth elemBase elemSize t t',
    compileChildren compile cs idx depth elemBase elemSize t = Some t' ->
    lenZ (ops t') <= 32767 -> 0 <= depth ->
    Forall (fun c => levels c <= 128 - depth) cs ->
    I t -> I t'.
Proof.
  induction 1 as [|c cs Hc _ IH]; simpl;
    intros idx depth eb es t t' Hcs Hlen Hd Hlev HI.
  - injection Hcs as <-. exact HI.
  - destruct (compile c idx depth eb es t) as [[t1 r1]|] eqn:E1; [|discriminate].
    inversion Hlev as [|c0 cs0 Hl1 Hl2]; subst.
    pose proof (compileChildren_grows _ _ _ _ _ _ _ Hcs) as Hg.
    apply (IH _ _ _ _ _ _ Hcs Hlen Hd Hl2).
    apply (Hc _ _ _ _ _ _ _ E1); [lia|exact Hd|lia|exact HI].
Qed.

Lemma container_keeps I cs op0 cstart depth elemBase elemSize t t' :
  keptByCompiler I ->
  Forall (compileKeeps I) cs ->
  match compileChildren compile cs (snd (addOp op0 depth t)) (depth + 1)
          elemBase elemSize (fst (addOp op0 depth t)) with
  | Some t2 =>
      match setChildRange (snd (addOp op0 depth t)) cstart
              (int16 (lenZ (ops t2))) t2 with
      | Some t3 => Some (t3, snd (addOp op0 depth t))
      | None => None
      end
  | None => None
  end = Some t' ->
  lenZ (ops (fst t')) <= 32767 -> 0 <= depth ->
  depth + (1 + foldr Z.max 0 (map levels cs)) <= 128 ->
  I t -> I (fst t').
Proof.
  intros [Hadd Hset] Hcs Hc Hlen Hd Hlev HI.
  destruct (compileChildren _ _ _ _ _ _ _) as [t2|] eqn:E2; [|discriminate].
  destruct (setChildRange _ _ _ _) as [t3|] eqn:E3; [|discriminate].
  injection Hc as <-. cbn [fst snd] in *.
  pose proof (setChildRange_Some _ _ _ _ _ E3) as [Hidx Hops].
  assert (Hlen2 : lenZ (ops t2) = lenZ (ops t3)).
  { rewrite Hops. unfold lenZ. rewrite length_alter. reflexivity. }
  pose proof (compileChildren_grows _ _ _ _ _ _ _ E2) as Hg.
  rewrite addOp_ops, lenZ_app in Hg. change (lenZ [_]) with 1 in Hg.
  pose proof (lenZ_nonneg (ops t)) as Hn0.
  assert (Hm : 0 <= foldr Z.max 0 (map levels cs))
    by (clear; induction cs; simpl; lia).
  apply (Hset _ _ _ _ _ E3).
  apply (compileChildren_keeps I cs Hcs _ _ _ _ _ _ E2); [lia|lia| |].
  - apply levels_children. lia.
  - apply Hadd; [lia|lia|exact HI].
Qed.

(** The cases of the compiler that end in one [addOp]. *)
Ltac by_addOp_kept Hc Hadd Hlen :=
  repeat match type of Hc with
         | context [isNilNode ?n] => destruct (isNilNode n) eqn:?
         | context [compileSub ?a ?b ?c ?d] => destruct (compileSub a b c d) eqn:?
         | context [compileCases ?a ?b ?c ?d] => destruct (compileCases a b c d) eqn:?
         | context [match ?x with _ => _ end] => destruct x eqn:?
         end;
  try discriminate;
  match type of Hc with
  | Some (addOp ?o ?d ?t) = Some _ =>
      let HL := fresh "HL" in
      let HA := fresh "HA" in
      pose proof (addOp_ops o d t) as HL;
      pose proof (Hadd o d t) as HA;
      apply (inj Some) in Hc; rewrite Hc in HL, HA; cbn [fst] in HL, HA;
      rewrite HL, lenZ_app in Hlen; change (lenZ [_]) with 1 in Hlen;
      apply HA; [simpl in *; lia|lia|assumption]
  end.

(** A property that the primitives of the compiler keep is kept by the
    compilation of a whole declaration. *)
Lemma compile_keeps I n : keptByCompiler I -> compileKeeps I n.
Proof.
  intros HK. pose proof HK as [Hadd Hset].
  induction n using Node_nested_ind;
    intros parent depth eb es t t' res Hc Hlen Hd Hlev HI;
    cbn [compile] in Hc.
  - injection Hc as <- <-. exact HI.
  - unfold compileText in Hc. by_addOp_kept Hc Hadd Hlen.
  - unfold compileProgress in Hc. by_addOp_kept Hc Hadd Hlen.
  - unfold compileContainer in Hc.
    match type of Hc with context [addOp ?o depth t] =>
      rewrite (surjective_pairing (addOp o depth t)) in Hc;
      apply (container_keeps I cs o) in Hc; auto end.
  - unfold compileContainer in Hc.
    match type of Hc with context [addOp ?o depth t] =>
      rewrite (surjective_pairing (addOp o depth t)) in Hc;
      apply (container_keeps I cs o) in Hc; auto end.
  - unfold compileIf in Hc. by_addOp_kept Hc Hadd Hlen.
  - unfold compileForEach in Hc. by_addOp_kept Hc Hadd Hlen.
  - unfold compileRenderer in Hc. by_addOp_kept Hc Hadd Hlen.
  - unfold compileBox in Hc.
    match type of Hc with context [addOp ?o depth t] =>
      rewrite (surjective_pairing (addOp o depth t)) in Hc;
      apply (container_keeps I cs o) in Hc; auto end.
  - unfold compileCondition in Hc. by_addOp_kept Hc Hadd Hlen.
  - unfold compileLayer in Hc. by_addOp_kept Hc Hadd Hlen.
  - unfold compileRichText in Hc. by_addOp_kept Hc Hadd Hlen.
  - unfold compileSelectionList in Hc. by_addOp_kept Hc Hadd Hlen.
  - eapply IHn; eauto.
  - unfold compileSwitch in Hc. by_addOp_kept Hc Hadd Hlen.
  - injection Hc as <- <-. exact HI.
Qed.

Lemma opsOfDepth_same t t' d :
  lenZ (ops t') = lenZ (ops t) ->
  (forall i, 0 <= i < lenZ (ops t) -> Depth (opAt t' i) = Depth (opAt t i)) ->
  opsOfDepth t' d = opsOfDepth t d.
Proof.
  intros Hlen Hd. unfold opsOfDepth. rewrite Hlen.
  apply List.filter_ext_in. intros i Hi.
  apply list_elem_of_In, elem_of_seqZ in Hi. rewrite Hd by lia. reflexivity.
Qed.

Lemma opAt_app_l t l i os :
  ops t = os ++ l -> 0 <= i < lenZ os -> opAt t i = default zeroOp (os !! Z.to_nat i).
Proof.
  intros Ht Hi. unfold opAt, lookupZ, lenZ in *.
  destruct (i <? 0) eqn:E; [lia|].
  rewrite Ht, lookup_app_l by lia. reflexivity.
Qed.

Lemma opsOfDepth_snoc t t' op d :
  ops t' = ops t ++ [op] ->
  opsOfDepth t' d
  = opsOfDepth t d ++ (if Depth op =? d then [lenZ (ops t)] else []).
Proof.
  intros Ht. unfold opsOfDepth.
  pose proof (lenZ_nonneg (ops t)) as Hn.
  rewrite Ht, lenZ_app. change (lenZ [op]) with 1.
  rewrite (seqZ_app 0 (lenZ (ops t)) 1) by lia. rewrite List.filter_app. f_equal.
  - apply List.filter_ext_in. intros i Hi.
    apply list_elem_of_In, elem_of_seqZ in Hi.
    rewrite (opAt_app_l t' [op] i (ops t) Ht) by lia.
    unfold opAt, lookupZ. destruct (i <? 0) eqn:E; [lia|]. reflexivity.
  - change (seqZ (0 + lenZ (ops t)) 1) with [0 + lenZ (ops t)].
    rewrite Z.add_0_l. simpl.
    assert (Hop : opAt t' (lenZ (ops t)) = op).
    { unfold opAt, lookupZ, lenZ. destruct (_ <? 0) eqn:E; [apply Z.ltb_lt in E; lia|].
      rewrite Ht, Nat2Z.id, lookup_app_r by lia.
      rewrite Nat.sub_diag. reflexivity. }
    rewrite Hop. reflexivity.
Qed.

Lemma lookup_padded {A} (l : list (list A)) (n k : nat) :
  default [] ((l ++ replicate n []) !! k) = default [] (l !! k).
Proof.
  destruct (decide (k < length l)%nat) as [Hk|Hk].
  - rewrite lookup_app_l by exact Hk. reflexivity.
  - rewrite lookup_app_r by lia.
    rewrite (lookup_ge_None_2 l k) by lia.
    destruct (replicate n [] !! (k - length l)%nat) as [x|] eqn:E; [|reflexivity].
    apply lookup_replicate in E as [-> _]. reflexivity.
Qed.

Lemma depthOps_addOp op depth t d :
  0 <= depth -> 0 <= d ->
  depthOps (fst (addOp op depth t)) d
  = depthOps t d ++ (if depth =? d then [int16 (lenZ (ops t))] else []).
Proof.
  intros Hdepth Hd. unfold addOp.
  destruct (0 <=? depth) eqn:E0; [|lia].
  pose (bd := if lenZ (byDepth t) <=? depth
              then byDepth t ++ replicate (Z.to_nat (depth + 1) - length (byDepth t)) []
              else byDepth t).
  assert (Hbd : forall k, default [] (bd !! k) = default [] (byDepth t !! k)).
  { intros k. unfold bd. destruct (lenZ (byDepth t) <=? depth);
      [apply lookup_padded|reflexivity]. }
  assert (Hlen : (Z.to_nat depth < length bd)%nat).
  { unfold bd. destruct (lenZ (byDepth t) <=? depth) eqn:E.
    - rewrite length_app, length_replicate. lia.
    - apply Z.leb_gt in E. unfold lenZ in E. lia. }
  assert (Hres : depthOps (set_byDepth
                   (alter (fun l => l ++ [int16 (lenZ (ops t))]) (Z.to_nat depth) bd)
                   (set_ops (ops t ++ [set_Depth (int8 depth) op]) t)) d
                 = depthOps t d
                   ++ (if depth =? d then [int16 (lenZ (ops t))] else [])).
  { unfold depthOps, lookupZ. simpl. destruct (d <? 0) eqn:E; [lia|].
    destruct (depth =? d) eqn:Edd.
    - apply Z.eqb_eq in Edd. subst d.
      rewrite list_lookup_alter_eq. rewrite <- Hbd.
      destruct (lookup_lt_is_Some_2 bd _ Hlen) as [x Hx].
      rewrite Hx. reflexivity.
    - apply Z.eqb_neq in Edd.
      rewrite list_lookup_alter_ne by lia.
      rewrite Hbd, app_nil_r. reflexivity. }
  cbn [fst]. destruct (maxDepth _ <? depth); exact Hres.
Qed.

Lemma maxDepth_addOp op depth t :
  0 <= depth ->
  maxDepth (fst (addOp op depth t)) = Z.max (maxDepth t) depth.
Proof.
  intros Hd. unfold addOp. destruct (0 <=? depth) eqn:E0; [|lia].
  cbn [fst]. destruct (maxDepth _ <? depth) eqn:E; simpl in *; lia.
Qed.

Lemma byDepthOk_kept : keptByCompiler byDepthOk.
Proof.
  split.
  - intros op depth t Hd Hlen [Hby Hmax]. split.
    + intros d Hd0. rewrite depthOps_addOp by lia.
      rewrite (opsOfDepth_snoc t _ _ d (addOp_ops op depth t)).
      rewrite Hby by exact Hd0. simpl. rewrite int8_id by lia.
      pose proof (lenZ_nonneg (ops t)). rewrite int16_id by lia. reflexivity.
    + intros d Hd0. rewrite maxDepth_addOp in Hd0 by lia.
      rewrite depthOps_addOp by lia. rewrite Hmax by lia.
      destruct (depth =? d) eqn:E; [lia|reflexivity].
  - intros idx cs ce t t' Hs [Hby Hmax].
    pose proof (setChildRange_Some _ _ _ _ _ Hs) as [Hidx Hops].
    assert (Ebd : byDepth t' = byDepth t /\ maxDepth t' = maxDepth t).
    { unfold setChildRange in Hs. destruct (idx <? 0); [discriminate|].
      injection Hs as <-. split; reflexivity. }
    destruct Ebd as [Ebd Emd].
    assert (Edo : forall d, depthOps t' d = depthOps t d).
    { intros d. unfold depthOps. rewrite Ebd. reflexivity. }
    split.
    + intros d Hd. rewrite Edo, Hby by exact Hd. symmetry.
      apply opsOfDepth_same.
      * rewrite Hops. unfold lenZ. rewrite length_alter. reflexivity.
      * intros i Hi. unfold opAt, lookupZ. destruct (i <? 0); [reflexivity|].
        rewrite Hops.
        destruct (decide (Z.to_nat idx = Z.to_nat i)) as [->|Hne].
        -- rewrite list_lookup_alter_eq. destruct (ops t !! Z.to_nat i); simpl;
             [destruct cs|]; reflexivity.
        -- rewrite list_lookup_alter_ne by exact Hne. reflexivity.
    + intros d Hd. rewrite Edo. apply Hmax. lia.
Qed.

Lemma trimDepth_bounds bd n :
  -1 <= trimDepth bd n < Z.of_nat n \/ (n = O /\ trimDepth bd n = -1).
Proof.
  induction n as [|k IH]; simpl; [right; auto|]. left.
  destruct (bd !! k) as [[|x l]|]; lia.
Qed.

Lemma trimDepth_empty bd n (k : nat) :
  trimDepth bd n < Z.of_nat k -> (k < n)%nat -> default [] (bd !! k) = [].
Proof.
  induction n as [|m IH]; simpl; intros Hk Hn; [lia|].
  destruct (bd !! m) as [[|x l]|] eqn:E.
  - destruct (decide (k = m)) as [->|Hne]; [rewrite E; reflexivity|].
    apply IH; [exact Hk|lia].
  - lia.
  - destruct (decide (k = m)) as [->|Hne]; [rewrite E; reflexivity|].
    apply IH; [exact Hk|lia].
Qed.

Lemma opsOfDepth_elem t d i :
  In i (opsOfDepth t d) <-> 0 <= i < lenZ (ops t) /\ Depth (opAt t i) = d.
Proof.
  unfold opsOfDepth. rewrite List.filter_In, <- list_elem_of_In, elem_of_seqZ.
  rewrite Z.eqb_eq. lia.
Qed.

Lemma depthsInRange_kept :
  keptByCompiler (fun t => Forall (fun op => 0 <= Depth op <= 127) (ops t)).
Proof.
  split.
  - intros op depth t Hd _ Hall. rewrite addOp_ops.
    apply Forall_app. split; [exact Hall|].
    constructor; [|constructor]. simpl. rewrite int8_id by lia. lia.
  - intros idx cs ce t t' Hs Hall.
    apply setChildRange_Some in Hs as [_ ->].
    apply Forall_alter; [exact Hall|].
    intros op _ Hop. destruct cs; exact Hop.
Qed.

Lemma keptByCompiler_and I J :
  keptByCompiler I -> keptByCompiler J -> keptByCompiler (fun t => I t /\ J t).
Proof.
  intros [Ia Is] [Ja Js]. split.
  - intros op depth t Hd Hl [HI HJ]. split; [apply Ia|apply Ja]; assumption.
  - intros idx cs ce t t' Hs [HI HJ]. split; [eapply Is|eapply Js]; eassumption.
Qed.

Lemma byDepthOk_newTemplate n : byDepthOk (newTemplate n).
Proof.
  assert (Hd : forall d, depthOps (newTemplate n) d = []).
  { intros d. unfold depthOps, lookupZ, newTemplate. simpl.
    destruct (d <? 0); [reflexivity|].
    destruct (replicate n [] !! Z.to_nat d) as [x|] eqn:E; [|reflexivity].
    apply lookup_replicate in E as [-> _]. reflexivity. }
  split; intros d _; rewrite Hd; reflexivity.
Qed.

(** What [Build] does to [byDepth] and [maxDepth] after the compilation. *)
Lemma Build_unfold ui t :
  Build ui = Some t ->
  exists t1 r,
    compile ui (-1) 0 nil 0 (newTemplate 16) = Some (t1, r)
    /\ ops t = ops t1
    /\ maxDepth t = trimDepth (byDepth t1) (Z.to_nat (maxDepth t1 + 1))
    /\ byDepth t = (if 0 <=? maxDepth t
                    then take (Z.to_nat (maxDepth t + 1)) (byDepth t1)
                    else byDepth t1).
Proof.
  unfold Build.
  destruct (compile ui (-1) 0 nil 0 (newTemplate 16)) as [[t1 r]|] eqn:E;
    [|discriminate].
  intros [= <-]. exists t1, r. split; [reflexivity|].
  unfold set_geom, set_byDepth, set_maxDepth. cbn [ops maxDepth byDepth geom].
  destruct (0 <=? trimDepth (byDepth t1) (Z.to_nat (maxDepth t1 + 1))) eqn:Em;
    cbn [ops maxDepth byDepth geom]; rewrite ?Em;
    (split; [reflexivity|split; reflexivity]).
Qed.

(** [byDepth] indexes every op of a built template once, under its depth:
    within the capacity of the op fields, [byDepth[d]] is the increasing
    list of the indices of the ops of depth [d], for every [d], and the
    depth of every op lies between 0 and [maxDepth]; so the loops over
    [byDepth[0..maxDepth]] of the three phases visit every op exactly
    once. *)
Theorem Build_byDepth :
  forall (ui : Node) (t : Template),
    Build ui = Some t -> lenZ (ops t) <= 32767 -> levels ui <= 128 ->
    (forall d, 0 <= d -> depthOps t d = opsOfDepth t d)
    /\ (forall i, 0 <= i < lenZ (ops t) -> 0 <= Depth (opAt t i) <= maxDepth t).
Proof.
  intros ui t HB Hlen Hlev.
  destruct (Build_unfold ui t HB) as (t1 & r & Hc & Hops & Hmd & Hbd).
  assert (Hlen1 : lenZ (ops t1) <= 32767) by (rewrite <- Hops; exact Hlen).
  pose proof (compile_keeps _ ui
                (keptByCompiler_and _ _ byDepthOk_kept depthsInRange_kept)
                _ _ _ _ _ _ _ Hc Hlen1 ltac:(lia) ltac:(lia)) as HI.
  destruct HI as [[Hby Hmax] Hrange].
  { split; [apply byDepthOk_newTemplate|constructor]. }
  assert (Hod : forall d, opsOfDepth t d = opsOfDepth t1 d).
  { intros d. apply opsOfDepth_same; [rewrite Hops; reflexivity|].
    intros i _. unfold opAt. rewrite Hops. reflexivity. }
  assert (Hbeyond : forall d, 0 <= d -> maxDepth t < d -> depthOps t1 d = []).
  { intros d Hd0 Hd.
    destruct (Z_lt_le_dec (maxDepth t1) d) as [Hgt|Hle]; [apply Hmax; exact Hgt|].
    unfold depthOps, lookupZ. destruct (d <? 0) eqn:E; [reflexivity|].
    apply (trimDepth_empty _ (Z.to_nat (maxDepth t1 + 1))); [|lia].
    rewrite <- Hmd. lia. }
  assert (Hsame : forall d, 0 <= d -> depthOps t d = depthOps t1 d).
  { intros d Hd0. unfold depthOps at 1. rewrite Hbd.
    destruct (0 <=? maxDepth t) eqn:Em; [|reflexivity].
    unfold lookupZ. destruct (d <? 0) eqn:E; [apply Z.ltb_lt in E; lia|].
    destruct (Z_lt_le_dec (maxDepth t) d) as [Hgt|Hle].
    - rewrite lookup_take_ge by lia. rewrite (Hbeyond d Hd0 Hgt). reflexivity.
    - rewrite lookup_take_lt by lia. unfold depthOps, lookupZ. rewrite E.
      reflexivity. }
  split.
  - intros d Hd0. rewrite Hsame, Hod by exact Hd0. apply Hby. exact Hd0.
  - intros i Hi.
    assert (Hr : 0 <= Depth (opAt t i) <= 127).
    { unfold opAt, lookupZ. destruct (i <? 0) eqn:E; [apply Z.ltb_lt in E; lia|].
      rewrite Hops.
      destruct (ops t1 !! Z.to_nat i) as [op|] eqn:Eo.
      - simpl. rewrite Forall_forall in Hrange. apply Hrange.
        eapply list_elem_of_lookup_2. exact Eo.
      - apply lookup_ge_None_1 in Eo. unfold lenZ in Hi. rewrite Hops in Hi. lia. }
    split; [lia|].
    destruct (Z_lt_le_dec (maxDepth t) (Depth (opAt t i))) as [Hgt|Hle]; [|exact Hle].
    exfalso.
    assert (Hin : In i (opsOfDepth t (Depth (opAt t i)))).
    { apply opsOfDepth_elem. split; [exact Hi|reflexivity]. }
    assert (Hd0 : 0 <= Depth (opAt t i)) by lia.
    rewrite Hod, <- (Hby _ Hd0), (Hbeyond _ Hd0 Hgt) in Hin.
    exact Hin.
Qed.

Lemma Build_byDepth_witness :
  (forall d, 0 <= d -> depthOps smallTemplate d = opsOfDepth smallTemplate d)
  /\ (forall i, 0 <= i < lenZ (ops smallTemplate) ->
      0 <= Depth (opAt smallTemplate i) <= maxDepth smallTemplate).
Proof.
  assert (HB : Build smallTree = Some smallTemplate) by (vm_compute; reflexivity).
  assert (HL : lenZ (ops smallTemplate) <= 32767) by (vm_compute; discriminate).
  assert (HV : levels smallTree <= 128) by (vm_compute; discriminate).
  exact (Build_byDepth smallTree smallTemplate HB HL HV).
Defined.

Lemma sameSkeleton_refl t : sameSkeleton t t.
Proof. repeat split. Qed.

Lemma skel_updGeom t0 i f t :
  sameSkeleton t0 t -> sameSkeleton t0 (updGeom i f t).
Proof.
  intros (Ho & Hg & Hb & Hm & He). repeat split; try assumption.
  rewrite <- Hg. unfold updGeom, alterZ. simpl.
  destruct (i <? 0); [reflexivity|]. apply length_alter.
Qed.

Lemma skel_updOp t0 i f t :
  (forall o, lookupZ (ops t) i = Some o -> staticPart (f o) = staticPart o) ->
  sameSkeleton t0 t -> sameSkeleton t0 (updOp i f t).
Proof.
  intros Hf (Ho & Hg & Hb & Hm & He). repeat split; try assumption.
  rewrite <- Ho. unfold updOp, alterZ, lookupZ in *. simpl.
  destruct (i <? 0); [reflexivity|].
  apply list_eq. intros k. rewrite !list_lookup_fmap.
  destruct (decide (Z.to_nat i = k)) as [<-|Hne].
  - rewrite list_lookup_alter_eq.
    destruct (ops t !! Z.to_nat i) as [o|] eqn:E; simpl; [|reflexivity].
    rewrite (Hf o eq_refl). reflexivity.
  - rewrite list_lookup_alter_ne by exact Hne. reflexivity.
Qed.

Lemma lookupZ_opAt t i o : lookupZ (ops t) i = Some o -> opAt t i = o.
Proof. intros E. unfold opAt. rewrite E. reflexivity. Qed.

Lemma staticPart_setBranch b s op : staticPart (setBranch b s op) = staticPart op.
Proof. destruct b; reflexivity. Qed.

(** A loop keeps what each of its rounds keeps. *)
Lemma forEach_inv {A S} (P : S -> Prop) (l : list A) (body : A -> S -> S) (s : S) :
  (forall x s, P s -> P (body x s)) -> P s -> P (forEach l body s).
Proof.
  intros Hb. unfold forEach. revert s.
  induction l as [|x l IH]; simpl; intros s Hs; [exact Hs|].
  apply IH, Hb, Hs.
Qed.

Lemma forRange_inv {S} (P : S -> Prop) (lo hi : Z) (body : Z -> S -> S) (s : S) :
  (forall x s, P s -> P (body x s)) -> P s -> P (forRange lo hi body s).
Proof. intros Hb Hs. unfold forRange. apply (forEach_inv P); assumption. Qed.

(** *** Phase 1 *)

Lemma skel_rowFlexPass t0 remaining totalFlex flexChildren distributed t :
  sameSkeleton t0 t ->
  sameSkeleton t0 (rowFlexPass remaining totalFlex flexChildren distributed t).
Proof.
  revert distributed t.
  induction flexChildren as [|c rest IH]; simpl; intros distributed t Ht;
    [exact Ht|].
  apply IH, skel_updGeom, Ht.
Qed.

Lemma skel_rowImplicitPass t0 remaining shareW children distributed t :
  sameSkeleton t0 t ->
  sameSkeleton t0 (rowImplicitPass remaining shareW children distributed t).
Proof.
  revert distributed t.
  induction children as [|c rest IH]; simpl; intros distributed t Ht;
    [exact Ht|].
  apply IH, skel_updGeom, Ht.
Qed.

Lemma skel_rowPass1 t0 idx op availW elemBase mem t :
  sameSkeleton t0 t ->
  sameSkeleton t0 (fst (fst (fst (fst (rowPass1 idx op availW elemBase mem t))))).
Proof.
  intros Ht. unfold rowPass1.
  apply (forRange_inv (fun st => sameSkeleton t0 (fst (fst (fst (fst st))))));
    [|exact Ht].
  intros i [[[[t1 usedW] totalFlex] fc] ifc] H1. cbn [fst] in H1.
  repeat case_match; cbn [fst]; try exact H1.
  apply skel_updGeom, H1.
Qed.

Lemma skel_distributeRowChildWidths t0 idx op availW elemBase mem t :
  sameSkeleton t0 t ->
  sameSkeleton t0 (distributeRowChildWidths idx op availW elemBase mem t).
Proof.
  intros Ht. unfold distributeRowChildWidths.
  pose proof (skel_rowPass1 t0 idx op availW elemBase mem t Ht) as H1.
  destruct (rowPass1 idx op availW elemBase mem t)
    as [[[[t1 usedW] totalFlex] fc] ifc].
  cbn [fst] in H1.
  repeat case_match;
    [apply skel_rowFlexPass|apply skel_rowImplicitPass|]; exact H1.
Qed.

Lemma skel_distributeColChildWidths t0 idx op availW elemBase mem t :
  sameSkeleton t0 t ->
  sameSkeleton t0 (distributeColChildWidths idx op availW elemBase mem t).
Proof.
  intros Ht. unfold distributeColChildWidths.
  apply (forRange_inv (sameSkeleton t0)); [|exact Ht].
  intros i t1 H1. case_match; [exact H1|apply skel_updGeom, H1].
Qed.

Lemma skel_distributeWidths t0 screenW elemBase mem t :
  sameSkeleton t0 t -> sameSkeleton t0 (distributeWidths screenW elemBase mem t).
Proof.
  intros Ht. unfold distributeWidths.
  apply (forRange_inv (sameSkeleton t0)).
  - intros depth t1 H1. apply (forEach_inv (sameSkeleton t0)); [|exact H1].
    intros idx t2 H2. case_match; [|exact H2].
    unfold distributeWidthsToChildren. case_match.
    + apply skel_distributeRowChildWidths, H2.
    + apply skel_distributeColChildWidths, H2.
  - apply (forEach_inv (sameSkeleton t0)); [|exact Ht].
    intros idx t1 H1. apply skel_updGeom, H1.
Qed.

(** *** Phase 2 *)

Lemma staticPart_layoutForEach layout op availW mem :
  staticPart (fst (fst (fst (layoutForEach layout op availW mem)))) = staticPart op.
Proof.
  unfold layoutForEach.
  destruct (IterTmpl op) as [iter|]; [|reflexivity].
  destruct (SlicePtr op =? nil); [reflexivity|].
  destruct (Len (sliceAt mem (SlicePtr op)) =? 0); [reflexivity|].
  destruct (forRange _ _ _ _) as [[[[iter1 geoms] mem1] cursor] maxW].
  reflexivity.
Qed.

Lemma skel_layoutCustom t0 idx op t :
  sameSkeleton t0 t -> sameSkeleton t0 (layoutCustom idx op t).
Proof.
  intros Ht. unfold layoutCustom.
  destruct (CustomLayout op) as [layoutFn|]; [|exact Ht].
  match goal with
  | |- context [forRange ?lo ?hi ?body (t, O, 0)] =>
      pose proof (forRange_inv (fun st => sameSkeleton t0 (fst (fst st)))
                    lo hi body (t, O, 0)) as Hloop
  end.
  destruct (forRange _ _ _ (t, O, 0)) as [[t1 childIdx] maxH].
  apply skel_updGeom. apply Hloop; [|exact Ht].
  intros i [[t2 c2] m2] H2. cbn [fst] in H2.
  repeat case_match; cbn [fst]; try exact H2.
  all: apply skel_updGeom, H2.
Qed.

Lemma skel_layoutRowChild t0 layout idx op availW offX offY i st :
  sameSkeleton t0 (fst (fst (fst (fst st)))) ->
  sameSkeleton t0
    (fst (fst (fst (fst (layoutRowChild layout idx op availW offX offY i st))))).
Proof.
  destruct st as [[[[t mem] cursor] maxH] firstChild]. cbn [fst]. intros Ht.
  unfold layoutRowChild.
  destruct (negb (Parent (opAt t i) =? idx)); [exact Ht|].
  pose proof (staticPart_layoutForEach layout (opAt t i) availW mem) as HFE.
  destruct (layoutForEach layout (opAt t i) availW mem) as [[[c1 m1] h1] w1].
  cbn [fst] in HFE.
  assert (HFE' : forall o, lookupZ (ops t) i = Some o ->
                           staticPart c1 = staticPart o).
  { intros o Ho. rewrite <- (lookupZ_opAt _ _ _ Ho). exact HFE. }
  clear HFE.
  repeat case_match; simplify_eq; cbn [fst];
    repeat match goal with
           | |- sameSkeleton _ (updGeom _ _ _) => apply skel_updGeom
           end;
    try exact Ht.
  all: try (apply skel_updOp; [|exact Ht]).
  all: try (intros o _; apply staticPart_setBranch).
  all: try exact HFE'.
Qed.

Lemma skel_layoutColChild t0 layout idx op availW offX offY i st :
  sameSkeleton t0 (fst (fst (fst st))) ->
  sameSkeleton t0
    (fst (fst (fst (layoutColChild layout idx op availW offX offY i st)))).
Proof.
  destruct st as [[[t mem] cursor] firstChild]. cbn [fst]. intros Ht.
  unfold layoutColChild.
  destruct (negb (Parent (opAt t i) =? idx)); [exact Ht|].
  pose proof (staticPart_layoutForEach layout (opAt t i) availW mem) as HFE.
  destruct (layoutForEach layout (opAt t i) availW mem) as [[[c1 m1] h1] w1].
  cbn [fst] in HFE.
  assert (HFE' : forall o, lookupZ (ops t) i = Some o ->
                           staticPart c1 = staticPart o).
  { intros o Ho. rewrite <- (lookupZ_opAt _ _ _ Ho). exact HFE. }
  clear HFE.
  repeat case_match; simplify_eq; cbn [fst];
    repeat match goal with
           | |- sameSkeleton _ (updGeom _ _ _) => apply skel_updGeom
           end;
    try exact Ht.
  all: try (apply skel_updOp; [|exact Ht]).
  all: try (intros o _; apply staticPart_setBranch).
  all: try exact HFE'.
Qed.

Lemma skel_layoutContainer t0 layout idx op t mem :
  sameSkeleton t0 t ->
  sameSkeleton t0 (fst (layoutContainer layout idx op t mem)).
Proof.
  intros Ht. unfold layoutContainer.
  destruct (IsRow op).
  - match goal with
    | |- context [forRange ?lo ?hi ?body (t, mem, 0, 0, true)] =>
        pose proof (forRange_inv
                      (fun st => sameSkeleton t0 (fst (fst (fst (fst st)))))
                      lo hi body (t, mem, 0, 0, true)) as Hloop
    end.
    destruct (forRange _ _ _ (t, mem, 0, 0, true)) as [[[[t1 m1] c1] h1] f1].
    cbn [fst] in *. apply skel_updGeom, Hloop; [|exact Ht].
    intros i st Hst. apply skel_layoutRowChild, Hst.
  - match goal with
    | |- context [forRange ?lo ?hi ?body (t, mem, 0, true)] =>
        pose proof (forRange_inv
                      (fun st => sameSkeleton t0 (fst (fst (fst st))))
                      lo hi body (t, mem, 0, true)) as Hloop
    end.
    destruct (forRange _ _ _ (t, mem, 0, true)) as [[[t1 m1] c1] f1].
    cbn [fst] in *. apply skel_updGeom, Hloop; [|exact Ht].
    intros i st Hst. apply skel_layoutColChild, Hst.
Qed.

Lemma skel_layoutOp t0 layout idx st :
  sameSkeleton t0 (fst st) -> sameSkeleton t0 (fst (layoutOp layout idx st)).
Proof.
  destruct st as [t mem]. cbn [fst]. intros Ht. unfold layoutOp.
  destruct (Kind (opAt t idx)); cbn [fst];
    try exact Ht; try (apply skel_updGeom, Ht);
    try (apply skel_layoutCustom, Ht); try (apply skel_layoutContainer, Ht).
  all: repeat case_match; cbn [fst]; try exact Ht; apply skel_updGeom, Ht.
Qed.

Lemma skel_layout t0 fuel t mem :
  sameSkeleton t0 t -> sameSkeleton t0 (fst (layout fuel t mem)).
Proof.
  destruct fuel as [|fuel]; simpl; intros Ht; [exact Ht|].
  apply (forEach_inv (fun st => sameSkeleton t0 (fst st))); [|exact Ht].
  intros depth st Hst.
  apply (forEach_inv (fun st => sameSkeleton t0 (fst st))); [|exact Hst].
  intros idx st1 Hst1. apply skel_layoutOp, Hst1.
Qed.

(** *** Phase 3 *)

Lemma staticPart_propagateFlexToIf rec t op newH mem :
  staticPart (propagateFlexToIf rec t op newH mem) = staticPart op.
Proof.
  unfold propagateFlexToIf.
  repeat case_match; try reflexivity. apply staticPart_setBranch.
Qed.

Lemma skel_colFlexPass t0 remaining totalFlex fc grows distributed t :
  sameSkeleton t0 t ->
  sameSkeleton t0 (colFlexPass remaining totalFlex fc grows distributed t).
Proof.
  revert grows distributed t.
  induction fc as [|c rest IH]; simpl; intros grows distributed t Ht;
    [exact Ht|].
  destruct grows as [|g grows]; [exact Ht|].
  apply IH, skel_updGeom, Ht.
Qed.

Lemma skel_colReposition t0 idx op t :
  sameSkeleton t0 t -> sameSkeleton t0 (colReposition idx op t).
Proof.
  intros Ht. unfold colReposition.
  apply (forRange_inv (fun st => sameSkeleton t0 (fst (fst st)))); [|exact Ht].
  intros i [[t1 cursor] firstChild] Hst. cbn [fst] in Hst.
  repeat case_match; cbn [fst]; try exact Hst; apply skel_updGeom, Hst.
Qed.

Lemma skel_distributeFlexInCol t0 rec idx op rootH mem t :
  sameSkeleton t0 t ->
  sameSkeleton t0 (distributeFlexInCol rec idx op rootH mem t).
Proof.
  intros Ht. unfold distributeFlexInCol.
  destruct (colPass1 idx op t mem) as [[[usedH totalFlex] fc] grows].
  case_match; [|exact Ht].
  apply skel_updGeom.
  apply (forEach_inv (sameSkeleton t0)).
  - intros c t1 Ht1. case_match; [|exact Ht1].
    apply skel_updOp; [|exact Ht1].
    intros o Ho. rewrite (lookupZ_opAt _ _ _ Ho).
    apply staticPart_propagateFlexToIf.
  - apply skel_colReposition, skel_colFlexPass, Ht.
Qed.

Lemma skel_distributeFlexGrow t0 fuel mem rootH t :
  sameSkeleton t0 t -> sameSkeleton t0 (distributeFlexGrow fuel mem rootH t).
Proof.
  destruct fuel as [|fuel]; simpl; intros Ht; [exact Ht|].
  apply (forRange_inv (sameSkeleton t0)); [|exact Ht].
  intros depth t1 Ht1.
  apply (forEach_inv (sameSkeleton t0)); [|exact Ht1].
  intros idx t2 Ht2. case_match; [|exact Ht2].
  apply skel_distributeFlexInCol, Ht2.
Qed.

(** [Execute] leaves the structure of a template alone, whatever the
    template, the screen and the state of the caller: it changes nothing of
    an op but its sub-templates and the scratch geometry of its iteration,
    it keeps the number of geometry entries, the index by depth and the
    element base. *)
Theorem Execute_keeps_skeleton :
  forall (t : Template) (buf : Buffer) (screenW screenH : Z) (mem : Mem),
    sameSkeleton t (fst (fst (Execute t buf screenW screenH mem))).
Proof.
  intros t buf screenW screenH mem. unfold Execute.
  pose proof (skel_layout t (sizeT t) (distributeWidths screenW nil mem t) mem
                (skel_distributeWidths t screenW nil mem t (sameSkeleton_refl t)))
    as HL.
  destruct (layout (sizeT t) (distributeWidths screenW nil mem t) mem)
    as [t1 mem1].
  cbn [fst] in HL.
  destruct (render _ _ _ _ _ _) as [buf1 mem2]. cbn [fst].
  apply skel_distributeFlexGrow, HL.
Qed.

(** ** The height of a frame *)

Lemma sameSkeleton_parents t t' :
  sameSkeleton t t' -> map Parent (ops t') = map Parent (ops t).
Proof.
  intros (Ho & _).
  assert (E : forall l, map Parent l = map Parent (map staticPart l)).
  { intros l. rewrite map_map. reflexivity. }
  rewrite (E (ops t')), (E (ops t)), Ho. reflexivity.
Qed.

Lemma Build_geom ui t :
  Build ui = Some t -> length (geom t) = length (ops t).
Proof.
  unfold Build.
  destruct (compile ui (-1) 0 nil 0 (newTemplate 16)) as [[t1 r]|];
    [|discriminate].
  intros [= <-]. unfold set_geom. cbn [geom ops]. apply length_replicate.
Qed.

(** After a frame, [Height] answers the height of the root op: a template
    that [Build] produced has no other op without a parent. It answers 0 for
    the template of an empty declaration. *)
Theorem Height_after_Execute :
  forall (ui : Node) (t : Template) (buf : Buffer) (screenW screenH : Z)
         (mem : Mem),
    Build ui = Some t ->
    let t' := fst (fst (Execute t buf screenW screenH mem)) in
    Template_Height t'
    = match ops t with
      | [] => 0
      | _ :: _ => int16 (H (geomAt t' 0))
      end.
Proof.
  intros ui t buf screenW screenH mem HB. cbv zeta.
  pose proof (Execute_keeps_skeleton t buf screenW screenH mem) as HS.
  revert HS. generalize (fst (fst (Execute t buf screenW screenH mem))).
  intros t' HS.
  pose proof (sameSkeleton_parents _ _ HS) as HP.
  destruct HS as (_ & HG & _).
  rewrite (Build_geom ui t HB) in HG.
  rewrite Template_Height_unfold.
  destruct (Build_parents ui t HB) as [Hnone|(rest & Hroot & Hrest)].
  - destruct (ops t) as [|o os]; [|discriminate Hnone].
    destruct (geom t') as [|g gs]; [reflexivity|discriminate HG].
  - destruct (ops t) as [|o os]; [discriminate Hroot|].
    rewrite Hroot in HP.
    destruct (ops t') as [|o' os'] eqn:Eo; [discriminate HP|].
    cbn [map] in HP. injection HP as Ho Hos. rewrite <- Hos in Hrest.
    assert (Hlen : (lenZ (geom t') =? 0) = false).
    { apply Z.eqb_neq. unfold lenZ. rewrite HG. cbn [length]. lia. }
    rewrite Hlen. unfold forEach. cbn [fold_left]. unfold heightStep at 2.
    rewrite Ho. cbn [Z.eqb Pos.eqb].
    destruct (height_no_roots t' os' Hrest (int16 (0 + H (geomAt t' 0))) (0 + 1))
      as [Hfst _].
    unfold forEach in Hfst. rewrite Hfst. reflexivity.
Qed.

Lemma Height_after_Execute_witness :
  Template_Height (fst (fst (Execute twoLinesTemplate [] 20 5 emptyMem)))
  = match ops twoLinesTemplate with
    | [] => 0
    | _ :: _ =>
        int16 (H (geomAt (fst (fst (Execute twoLinesTemplate [] 20 5 emptyMem))) 0))
    end.
Proof.
  assert (HB : Build twoLines = Some twoLinesTemplate) by (vm_compute; reflexivity).
  exact (Height_after_Execute twoLines twoLinesTemplate [] 20 5 emptyMem HB).
Defined.

Lemma sameSkeleton_staticPart t t' j :
  sameSkeleton t t' -> staticPart (opAt t' j) = staticPart (opAt t j).
Proof.
  intros (Ho & _). unfold opAt, lookupZ. destruct (j <? 0); [reflexivity|].
  apply (f_equal (fun l => l !! Z.to_nat j)) in Ho.
  rewrite !list_lookup_fmap in Ho.
  destruct (ops t' !! Z.to_nat j), (ops t !! Z.to_nat j); simpl in *;
    congruence.
Qed.

Lemma sameSkeleton_Parent t t' j :
  sameSkeleton t t' -> Parent (opAt t' j) = Parent (opAt t j).
Proof.
  intros HS. apply (sameSkeleton_staticPart _ _ j) in HS.
  apply (f_equal Parent) in HS. exact HS.
Qed.

Lemma geomAt_updOp i f t j : geomAt (updOp i f t) j = geomAt t j.
Proof. reflexivity. Qed.

Lemma lenZ_geom_updOp i f t : lenZ (geom (updOp i f t)) = lenZ (geom t).
Proof. reflexivity. Qed.

Lemma cursor_gap (c : bool) cursor g h :
  int16 ((if c then int16 (cursor + int16 g) else cursor) + h)
  = int16 (cursor + (if c then g else 0) + h).
Proof.
  destruct c.
  - rewrite int16_add_l.
    rewrite <- (int16_add_l (cursor + int16 g) h), int16_add_r, int16_add_l.
    reflexivity.
  - f_equal. lia.
Qed.

Lemma cursor_gap0 (c : bool) cursor g :
  int16 cursor = cursor ->
  (if c then int16 (cursor + int16 g) else cursor)
  = int16 (cursor + (if c then g else 0) + 0).
Proof.
  intros Hc. destruct c.
  - rewrite int16_add_r. f_equal. lia.
  - rewrite <- Hc at 1. f_equal. lia.
Qed.

(** One round of the loop of a column on a child: the geometry of the other
    ops stays, and the cursor moves by the gap and by the height the child
    ends with. *)
Lemma layoutColChild_effect layout idx op availW offX offY i t mem cursor first :
  0 <= i < lenZ (geom t) -> int16 cursor = cursor ->
  let st' := layoutColChild layout idx op availW offX offY i
               (t, mem, cursor, first) in
  let t' := fst (fst (fst st')) in
  (forall j, j <> i -> geomAt t' j = geomAt t j)
  /\ (if Parent (opAt t i) =? idx
      then snd (fst st') = int16 (cursor + gapCost op first + H (geomAt t' i))
           /\ snd st' = false
      else st' = (t, mem, cursor, first)).
Proof.
  intros Hi Hc. cbv zeta. unfold layoutColChild, gapCost.
  destruct (Parent (opAt t i) =? idx) eqn:Ep; cbn [negb];
    [|split; [reflexivity|reflexivity]].
  pose proof (cursor_gap (negb first && (0 <? Gap op)) cursor (Gap op)) as HG.
  pose proof (cursor_gap0 (negb first && (0 <? Gap op)) cursor (Gap op) Hc) as HG0.
  destruct (layoutForEach layout (opAt t i) availW mem) as [[[c1 m1] h1] w1].
  destruct (Kind (opAt t i)); cbn [fst snd];
    repeat match goal with
           | |- context [match ?x with Some _ => _ | None => _ end] =>
               destruct x as [[? ?]|]
           | |- context [let '(_, _) := ?x in _] => destruct x as [? ?]
           end;
    cbn [fst snd];
    (split;
     [intros j Hj;
      rewrite ?geomAt_updGeom_other, ?geomAt_updOp
        by (apply not_eq_sym; exact Hj);
      reflexivity
     |split; [|reflexivity]]).
  all: rewrite ?geomAt_updGeom_same
         by (rewrite ?lenZ_geom_updOp; exact Hi).
  all: rewrite ?geomAt_updOp; cbn [H set_H set_W set_LocalX set_LocalY set_ContentH].
  all: try apply HG.
  all: try apply HG0.
Qed.

Lemma gaps_step op first n :
  0 <= n -> gapCost op first + gapsOf op false n = gapsOf op first (n + 1).
Proof.
  intros Hn. unfold gapCost, gapsOf.
  replace (n + 1 - 1) with n by lia. rewrite Z.max_r by exact Hn.
  destruct first, (0 <? Gap op); cbn [negb andb]; lia.
Qed.

Lemma layoutCol_fold layout idx op availW offX offY l :
  NoDup l ->
  forall t mem cursor first,
    (forall i, In i l -> 0 <= i < lenZ (geom t)) -> int16 cursor = cursor ->
    let r := fold_left
               (fun s i => layoutColChild layout idx op availW offX offY i s)
               l (t, mem, cursor, first) in
    let t' := fst (fst (fst r)) in
    let kids := List.filter (fun i => Parent (opAt t i) =? idx) l in
    (forall j, ~ In j l -> geomAt t' j = geomAt t j)
    /\ snd (fst r)
       = int16 (cursor + sumZ (map (fun c => H (geomAt t' c)) kids)
                + gapsOf op first (lenZ kids)).
Proof.
  induction 1 as [|i l Hnotin Hnd IH]; intros t mem cursor first Hin Hc; cbv zeta.
  - cbn [fold_left List.filter map fst snd]. split; [reflexivity|].
    unfold gapsOf, lenZ. cbn [length sumZ foldr].
    rewrite <- Hc at 1. f_equal.
    destruct (0 <? Gap op), first; lia.
  - cbn [fold_left]. rewrite filter_cons_bool.
    assert (Hi : 0 <= i < lenZ (geom t)) by (apply Hin; left; reflexivity).
    pose proof (layoutColChild_effect layout idx op availW offX offY i t mem
                  cursor first Hi Hc) as Hstep.
    pose proof (skel_layoutColChild t layout idx op availW offX offY i
                  (t, mem, cursor, first) (sameSkeleton_refl t)) as Hskel.
    destruct (layoutColChild layout idx op availW offX offY i
                (t, mem, cursor, first)) as [[[t1 mem1] cursor1] first1].
    cbv zeta in Hstep. cbn [fst snd] in Hstep, Hskel.
    destruct Hstep as [Hother Hcur].
    assert (Hin1 : forall k, In k l -> 0 <= k < lenZ (geom t1)).
    { intros k Hk. destruct Hskel as (_ & Hlen & _). unfold lenZ.
      rewrite Hlen. apply Hin. right. exact Hk. }
    assert (Hkids : List.filter (fun k => Parent (opAt t1 k) =? idx) l
                    = List.filter (fun k => Parent (opAt t k) =? idx) l).
    { apply List.filter_ext. intros k.
      rewrite (sameSkeleton_Parent _ _ k Hskel). reflexivity. }
    rewrite list_elem_of_In in Hnotin.
    destruct (Parent (opAt t i) =? idx) eqn:Ep.
    + destruct Hcur as [Hcur ->].
      assert (Hc1 : int16 cursor1 = cursor1)
        by (rewrite Hcur; apply int16_idem).
      destruct (IH t1 mem1 cursor1 false Hin1 Hc1) as [Hrest Hsum].
      cbv zeta in Hrest, Hsum. rewrite Hkids in Hsum.
      split.
      * intros j Hj. rewrite Hrest by (intros Hl; apply Hj; right; exact Hl).
        apply Hother. intros ->. apply Hj. left. reflexivity.
      * rewrite Hsum. cbn [map]. rewrite sumZ_cons.
        rewrite (Hrest i Hnotin), Hcur.
        set (kids := List.filter (fun k => Parent (opAt t k) =? idx) l).
        replace (lenZ (i :: kids)) with (lenZ kids + 1)
          by (unfold lenZ; cbn [length]; lia).
        rewrite <- (gaps_step op first (lenZ kids)) by apply lenZ_nonneg.
        rewrite <- Z.add_assoc, int16_add_l. f_equal. lia.
    + injection Hcur as -> -> -> ->.
      destruct (IH t mem cursor first Hin1 Hc) as [Hrest Hsum].
      cbv zeta in Hrest, Hsum.
      split.
      * intros j Hj. apply Hrest. intros Hl. apply Hj. right. exact Hl.
      * exact Hsum.
Qed.

(** The height of a column, as [layoutContainer] leaves it: the heights of
    its direct children, whatever their kind, the gaps between them and the
    two rows of its border add up, in 16-bit arithmetic, to the content
    height of the column; its height is its explicit [Height] when it has
    one, the content height otherwise. Nothing of the geometry outside the
    child range changes but the column's own. *)
Theorem col_layout_height :
  forall (layout : Template -> Mem -> Template * Mem) (idx : Z) (op : Op)
         (t : Template) (mem : Mem),
    IsRow op = false ->
    0 <= idx < ChildStart op -> idx < lenZ (geom t) ->
    ChildEnd op <= lenZ (geom t) ->
    let t' := fst (layoutContainer layout idx op t mem) in
    let kids := directChildren idx op t in
    let content := sumZ (map (fun c => H (geomAt t' c)) kids)
                   + gapsOf op true (lenZ kids) + borderInset op in
    ContentH (geomAt t' idx) = int16 content
    /\ H (geomAt t' idx) = (if 0 <? Height op then Height op else int16 content)
    /\ (forall j, ~ ChildStart op <= j < ChildEnd op -> j <> idx ->
        geomAt t' j = geomAt t j).
Proof.
  intros layout idx op t mem Hrow Hidx Hlt Hend. cbv zeta.
  unfold layoutContainer. rewrite Hrow.
  set (availW := if hasBorder op then int16 (W (geomAt t idx) - 2)
                 else W (geomAt t idx)).
  set (off := if hasBorder op then 1 else 0).
  pose proof (layoutCol_fold layout idx op availW off off
                (seqZ (ChildStart op) (ChildEnd op - ChildStart op))
                (NoDup_seqZ _ _) t mem 0 true) as Hfold.
  pose proof (forRange_inv (fun st => sameSkeleton t (fst (fst (fst st))))
                (ChildStart op) (ChildEnd op)
                (layoutColChild layout idx op availW off off)
                (t, mem, 0, true)
                (fun i st Hst => skel_layoutColChild t layout idx op availW
                                   off off i st Hst)
                (sameSkeleton_refl t)) as Hskel.
  unfold forRange, forEach in *.
  destruct (fold_left _ _ (t, mem, 0, true)) as [[[t1 mem1] cursor] first1].
  cbv zeta in Hfold. cbn [fst snd] in Hfold, Hskel |- *.
  destruct Hfold as [Hother Hsum].
  { intros i Hi. apply list_elem_of_In, elem_of_seqZ in Hi. lia. }
  { reflexivity. }
  assert (Hlen1 : lenZ (geom t1) = lenZ (geom t)).
  { destruct Hskel as (_ & Hl & _). unfold lenZ. rewrite Hl. reflexivity. }
  assert (Hkid : forall c, In c (directChildren idx op t) ->
                           geomAt (updGeom idx
                             (fun g => let g := set_ContentH
                                (if hasBorder op then int16 (cursor + 2) else cursor)
                                (set_H (if hasBorder op then int16 (cursor + 2)
                                        else cursor) g) in
                              if 0 <? Height op then set_H (Height op) g else g) t1) c
                           = geomAt t1 c).
  { intros c Hc. apply directChildren_range in Hc.
    apply geomAt_updGeom_other. lia. }
  fold (directChildren idx op t) in Hsum.
  assert (Hh : (if hasBorder op then int16 (cursor + 2) else cursor)
               = int16 (sumZ (map (fun c => H (geomAt t1 c))
                                (directChildren idx op t))
                        + gapsOf op true (lenZ (directChildren idx op t))
                        + borderInset op)).
  { rewrite Hsum. unfold borderInset. destruct (hasBorder op).
    - rewrite int16_add_l. f_equal; lia.
    - f_equal; lia. }
  assert (Hmap : map (fun c => H (geomAt (updGeom idx
                             (fun g => let g := set_ContentH
                                (if hasBorder op then int16 (cursor + 2) else cursor)
                                (set_H (if hasBorder op then int16 (cursor + 2)
                                        else cursor) g) in
                              if 0 <? Height op then set_H (Height op) g else g) t1) c))
                   (directChildren idx op t)
                 = map (fun c => H (geomAt t1 c)) (directChildren idx op t)).
  { apply map_ext_in. intros c Hc. rewrite (Hkid c Hc). reflexivity. }
  cbv zeta in Hmap. rewrite Hmap.
  rewrite geomAt_updGeom_same by lia.
  split; [|split].
  - rewrite <- Hh. destruct (0 <? Height op); reflexivity.
  - rewrite <- Hh. destruct (0 <? Height op); reflexivity.
  - intros j Hj Hne. rewrite geomAt_updGeom_other by (apply not_eq_sym; exact Hne).
    apply Hother. intros Hin. apply list_elem_of_In, elem_of_seqZ in Hin. lia.
Qed.

Lemma col_layout_height_witness :
  let t' := fst (layoutContainer (layout 2) 0 (opAt twoLinesLaid 0)
                   twoLinesLaid emptyMem) in
  let kids := directChildren 0 (opAt twoLinesLaid 0) twoLinesLaid in
  ContentH (geomAt t' 0)
  = int16 (sumZ (map (fun c => H (geomAt t' c)) kids)
           + gapsOf (opAt twoLinesLaid 0) true (lenZ kids)
           + borderInset (opAt twoLinesLaid 0)).
Proof.
  assert (H1 : IsRow (opAt twoLinesLaid 0) = false) by (vm_compute; reflexivity).
  assert (H2 : 0 <= 0 < ChildStart (opAt twoLinesLaid 0))
    by (vm_compute; split; [discriminate|reflexivity]).
  assert (H3 : 0 < lenZ (geom twoLinesLaid)) by (vm_compute; reflexivity).
  assert (H4 : ChildEnd (opAt twoLinesLaid 0) <= lenZ (geom twoLinesLaid))
    by (vm_compute; discriminate).
  exact (proj1 (col_layout_height (layout 2) 0 (opAt twoLinesLaid 0)
                  twoLinesLaid emptyMem H1 H2 H3 H4)).
Defined.

Lemma rowPass1_implicit_fold idx availW elemBase mem t l :
  forall t1 usedW totalFlex fc ifc,
    ops t1 = ops t ->
    let r := fold_left (fun s i => rowPass1Step idx availW elemBase mem i s) l
               (t1, usedW, totalFlex, fc, ifc) in
    snd r = ifc ++ List.filter (isImplicitFlex idx t) l.
Proof.
  induction l as [|i l IH]; intros t1 usedW totalFlex fc ifc Hops; cbn zeta.
  - simpl. rewrite app_nil_r. reflexivity.
  - cbn [fold_left]. rewrite filter_cons_bool.
    remember (rowPass1Step idx availW elemBase mem i
                (t1, usedW, totalFlex, fc, ifc)) as st1 eqn:Est.
    unfold rowPass1Step in Est. rewrite (opAt_same_ops t t1 i Hops) in Est.
    unfold isImplicitFlex at 1.
    destruct (Parent (opAt t i) =? idx); cbn [negb andb] in *;
      [|subst st1; apply IH; exact Hops].
    destruct (f32_pos (FlexGrow (opAt t i))); cbn [negb andb] in *;
      [subst st1; apply IH; exact Hops|].
    destruct (isKind OpContainer (opAt t i) && (Width (opAt t i) =? 0)
              && f32_is0 (PercentWidth (opAt t i))); subst st1.
    + rewrite (IH t1 usedW totalFlex fc (ifc ++ [i]) Hops), <- app_assoc.
      reflexivity.
    + apply IH. exact Hops.
Qed.

Lemma rowPass1_implicit idx op availW elemBase mem t :
  snd (rowPass1 idx op availW elemBase mem t) = rowImplicitChildren idx op t.
Proof.
  rewrite rowPass1_unfold.
  apply (rowPass1_implicit_fold idx availW elemBase mem t _ t 0 f32_zero [] []
           eq_refl).
Qed.

Lemma rowImplicitPass_spec R shareW ic :
  forall d t,
    NoDup ic ->
    (forall c, In c ic -> 0 <= c < lenZ (geom t)) ->
    let t' := rowImplicitPass R shareW ic d t in
    map (fun c => W (geomAt t' c)) ic = implicitSizes R shareW (length ic) d
    /\ (forall j, ~ In j ic -> geomAt t' j = geomAt t j).
Proof.
  induction ic as [|c rest IH]; intros d t Hnd Hin; cbn zeta.
  - simpl. auto.
  - apply NoDup_cons in Hnd as [Hc Hnd].
    rewrite list_elem_of_In in Hc.
    cbn [rowImplicitPass].
    set (w := match rest with
              | [] => int16 (R - d)
              | _ :: _ => shareW
              end).
    specialize (IH (int16 (d + w)) (updGeom c (set_W w) t) Hnd).
    cbn zeta in IH.
    destruct IH as (H2 & H3).
    { intros c' Hc'. rewrite lenZ_geom_updGeom. apply Hin. right. exact Hc'. }
    split.
    + cbn [map length implicitSizes].
      rewrite H2, (H3 c Hc), geomAt_updGeom_same by (apply Hin; left; reflexivity).
      f_equal.
      * unfold w. destruct rest; reflexivity.
      * f_equal. unfold w. destruct rest; reflexivity.
    + intros j Hj. rewrite H3 by (intros Hr; apply Hj; right; exact Hr).
      apply geomAt_updGeom_other. intros ->. apply Hj. left. reflexivity.
Qed.

(** Within 16 bits the loop hands the share out [n - 1] times and what is
    left to the last child. *)
Lemma implicitSizes_exact R shareW (n : nat) d :
  0 <= shareW -> 0 <= d -> d + shareW * Z.of_nat n <= R <= 32767 ->
  implicitSizes R shareW (S n) d
  = replicate n shareW ++ [R - d - shareW * Z.of_nat n].
Proof.
  intros Hs. revert d. induction n as [|n IH]; intros d Hd HR.
  - cbn [implicitSizes replicate app]. rewrite int16_id by lia.
    f_equal. lia.
  - assert (Hstep : implicitSizes R shareW (S (S n)) d
                    = shareW :: implicitSizes R shareW (S n) (int16 (d + shareW)))
      by reflexivity.
    rewrite Hstep. rewrite int16_id by nia.
    rewrite IH by nia. cbn [replicate app]. f_equal. f_equal. f_equal. lia.
Qed.

Lemma rowImplicitChildren_NoDup idx op t : NoDup (rowImplicitChildren idx op t).
Proof.
  unfold rowImplicitChildren. apply NoDup_ListNoDup, List.NoDup_filter.
  apply NoDup_ListNoDup, NoDup_seqZ.
Qed.

Lemma rowImplicitChildren_range idx op t c :
  In c (rowImplicitChildren idx op t) -> ChildStart op <= c < ChildEnd op.
Proof.
  unfold rowImplicitChildren. intros Hc. apply List.filter_In in Hc as [Hc _].
  apply list_elem_of_In, elem_of_seqZ in Hc. lia.
Qed.

Lemma rowImplicitChildren_count idx op t :
  0 <= ChildStart op ->
  lenZ (rowImplicitChildren idx op t) <= Z.max 0 (ChildEnd op - ChildStart op).
Proof.
  intros Hs. unfold rowImplicitChildren, lenZ.
  pose proof (List.filter_length_le (isImplicitFlex idx t)
                (seqZ (ChildStart op) (ChildEnd op - ChildStart op))) as Hle.
  rewrite length_seqZ in Hle. lia.
Qed.

(** A row without explicit flex shares the width that is left among its
    implicit flex children, the containers that ask for no width: each but
    the last receives the quotient of the remaining width [R] by their
    number, the last one what is left, and the widths add up to [R]. *)
Theorem row_implicit_widths :
  forall (idx : Z) (op : Op) (availW elemBase : Z) (mem : Mem) (t : Template),
    0 <= ChildStart op -> ChildEnd op <= lenZ (geom t) -> ChildEnd op <= 32767 ->
    let R := rowRemaining idx op availW elemBase mem t in
    let ic := rowImplicitChildren idx op t in
    let t' := distributeRowChildWidths idx op availW elemBase mem t in
    0 < R -> f32_pos (rowTotalFlex idx op t) = false -> ic <> [] ->
    (forall (k : nat) (c : Z),
        ic !! k = Some c -> (S k < length ic)%nat ->
        W (geomAt t' c) = R / lenZ ic)
    /\ (forall c : Z,
           last ic = Some c ->
           W (geomAt t' c) = R - R / lenZ ic * (lenZ ic - 1))
    /\ sumZ (map (fun c => W (geomAt t' c)) ic) = R.
Proof.
  intros idx op availW eb mem t Hcs Hce Hmax R ic t' HR HF Hne.
  pose proof (rowPass1_spec idx op availW eb mem t) as Hp1. cbn zeta in Hp1.
  destruct Hp1 as (Hops1 & Hlen1 & _ & HtF).
  pose proof (rowPass1_implicit idx op availW eb mem t) as Hic. fold ic in Hic.
  assert (Hrange : -32768 <= R <= 32767).
  { unfold R, rowRemaining.
    destruct (rowPass1 idx op availW eb mem t) as [[[[? ?] ?] ?] ?].
    apply int16_range. }
  pose proof (rowImplicitChildren_count idx op t Hcs) as Hcount. fold ic in Hcount.
  assert (Hk : 1 <= lenZ ic <= 32767).
  { split; [|lia]. destruct ic; [congruence|]. unfold lenZ. simpl. lia. }
  set (q := R / lenZ ic).
  assert (Hq : 0 <= q /\ q * lenZ ic <= R).
  { unfold q. split; [apply Z.div_pos; lia|].
    rewrite Z.mul_comm. apply Z.mul_div_le. lia. }
  set (t1 := fst (fst (fst (fst (rowPass1 idx op availW eb mem t))))) in *.
  assert (Ht' : t' = rowImplicitPass R q ic 0 t1).
  { unfold t'. rewrite distributeRowChildWidths_flex. cbn zeta.
    rewrite HtF, Hic. fold R. rewrite HF.
    assert (E : (0 <? R) = true) by (apply Z.ltb_lt; exact HR).
    assert (E2 : (0 <? lenZ ic) = true) by (apply Z.ltb_lt; lia).
    rewrite E, E2. cbn [andb].
    rewrite (int16_id (lenZ ic)) by lia.
    rewrite Z.quot_div_nonneg by lia. fold q.
    rewrite (int16_id q) by nia. reflexivity. }
  destruct (rowImplicitPass_spec R q ic 0 t1 (rowImplicitChildren_NoDup idx op t))
    as (Hws & _).
  { intros c Hc. apply rowImplicitChildren_range in Hc. lia. }
  rewrite <- Ht' in Hws.
  destruct (length ic) as [|n] eqn:En.
  { unfold lenZ in Hk. rewrite En in Hk. simpl in Hk. lia. }
  assert (HlenZ : lenZ ic = Z.of_nat n + 1) by (unfold lenZ; rewrite En; lia).
  rewrite implicitSizes_exact in Hws by nia.
  rewrite Z.sub_0_r in Hws.
  split; [|split].
  - intros k c Hkc Hlt.
    assert (Hwk : map (fun c => W (geomAt t' c)) ic !! k = Some (W (geomAt t' c))).
    { rewrite list_lookup_fmap, Hkc. reflexivity. }
    rewrite Hws, lookup_app_l in Hwk by (rewrite length_replicate; lia).
    apply lookup_replicate in Hwk as [Hwk _]. exact Hwk.
  - intros c Hc.
    assert (Hlw : last (map (fun c => W (geomAt t' c)) ic) = Some (W (geomAt t' c))).
    { rewrite fmap_last, Hc. reflexivity. }
    rewrite Hws, last_snoc in Hlw. injection Hlw as <-.
    rewrite HlenZ. f_equal. f_equal. lia.
  - rewrite Hws, sumZ_app, sumZ_cons.
    assert (Hrep : forall m, sumZ (replicate m q) = q * Z.of_nat m).
    { induction m as [|m IH]; [simpl; lia|].
      cbn [replicate]. rewrite sumZ_cons, IH. lia. }
    rewrite Hrep. unfold sumZ. simpl. lia.
Qed.

Lemma row_implicit_widths_witness :
  map (fun c => W (geomAt (distributeRowChildWidths 0 (opAt plainPair 0) 21
                             nil emptyMem plainPair) c))
    (rowImplicitChildren 0 (opAt plainPair 0) plainPair) = [10; 11].
Proof.
  assert (H1 : 0 <= ChildStart (opAt plainPair 0)) by (vm_compute; discriminate).
  assert (H2 : ChildEnd (opAt plainPair 0) <= lenZ (geom plainPair))
    by (vm_compute; discriminate).
  assert (H3 : ChildEnd (opAt plainPair 0) <= 32767) by (vm_compute; discriminate).
  assert (H4 : 0 < rowRemaining 0 (opAt plainPair 0) 21 nil emptyMem plainPair)
    by (vm_compute; reflexivity).
  assert (H5 : f32_pos (rowTotalFlex 0 (opAt plainPair 0) plainPair) = false)
    by (vm_compute; reflexivity).
  assert (H6 : rowImplicitChildren 0 (opAt plainPair 0) plainPair <> [])
    by (vm_compute; discriminate).
  destruct (row_implicit_widths 0 (opAt plainPair 0) 21 nil emptyMem plainPair
              H1 H2 H3 H4 H5 H6) as (Hshare & Hlast & _).
  assert (Hic : rowImplicitChildren 0 (opAt plainPair 0) plainPair = [1; 2])
    by (vm_compute; reflexivity).
  rewrite Hic in *. cbn [map].
  rewrite (Hshare 0%nat 1 eq_refl) by (simpl; lia).
  rewrite (Hlast 2 eq_refl).
  vm_compute. reflexivity.
Defined.

(** ** Phase 1: the children of a column *)

Lemma colWidths_fold idx availW elemBase mem l :
  NoDup l ->
  forall t,
    (forall i, In i l -> 0 <= i < lenZ (geom t)) ->
    let t' := fold_left
                (fun t i =>
                   if negb (Parent (opAt t i) =? idx) then t
                   else updGeom i (fun g => setOpWidth (opAt t i) g availW
                                              elemBase mem) t)
                l t in
    ops t' = ops t
    /\ (forall j, ~ In j l -> geomAt t' j = geomAt t j)
    /\ (forall i, In i l ->
        geomAt t' i
        = if Parent (opAt t i) =? idx
          then setOpWidth (opAt t i) (geomAt t i) availW elemBase mem
          else geomAt t i).
Proof.
  induction 1 as [|i l Hnotin Hnd IH]; intros t Hin; cbv zeta.
  - cbn [fold_left]. split; [reflexivity|]. split; [reflexivity|].
    intros i [].
  - cbn [fold_left]. rewrite list_elem_of_In in Hnotin.
    set (t1 := if negb (Parent (opAt t i) =? idx) then t
               else updGeom i (fun g => setOpWidth (opAt t i) g availW
                                          elemBase mem) t).
    assert (Hops1 : ops t1 = ops t)
      by (unfold t1; destruct (negb _); reflexivity).
    assert (Hlen1 : lenZ (geom t1) = lenZ (geom t))
      by (unfold t1; destruct (negb _);
          [reflexivity|apply lenZ_geom_updGeom]).
    destruct (IH t1) as (Ho & Hother & Hsame).
    { intros k Hk. rewrite Hlen1. apply Hin. right. exact Hk. }
    cbv zeta in Ho, Hother, Hsame.
    assert (Hi : 0 <= i < lenZ (geom t)) by (apply Hin; left; reflexivity).
    split; [rewrite Ho; exact Hops1|]. split.
    + intros j Hj. rewrite Hother by (intros Hl; apply Hj; right; exact Hl).
      unfold t1. destruct (negb _); [reflexivity|].
      apply geomAt_updGeom_other. intros ->. apply Hj. left. reflexivity.
    + intros k [<-|Hk].
      * rewrite (Hother i Hnotin). unfold t1.
        destruct (Parent (opAt t i) =? idx); cbn [negb]; [|reflexivity].
        apply geomAt_updGeom_same. exact Hi.
      * rewrite (Hsame k Hk), (opAt_same_ops t t1 k Hops1).
        assert (Hne : i <> k) by (intros ->; exact (Hnotin Hk)).
        assert (Hg : geomAt t1 k = geomAt t k).
        { unfold t1. destruct (negb _); [reflexivity|].
          apply geomAt_updGeom_other. exact Hne. }
        rewrite Hg. reflexivity.
Qed.

(** Phase 1 in a column: every direct child receives the width that
    [setOpWidth] gives it for the content width of the column, which is the
    width of the column less the two columns of its border; the rest of the
    geometry, that of the grandchildren included, and the ops stay as they
    were. *)
Theorem col_child_widths :
  forall (idx : Z) (op : Op) (g : Geom) (elemBase : Z) (mem : Mem)
         (t : Template),
    IsRow op = false -> 0 <= ChildStart op -> ChildEnd op <= lenZ (geom t) ->
    let t' := distributeWidthsToChildren idx op g elemBase mem t in
    let contentW := if hasBorder op then int16 (W g - 2) else W g in
    ops t' = ops t
    /\ (forall c, In c (directChildren idx op t) ->
        geomAt t' c = setOpWidth (opAt t c) (geomAt t c) contentW elemBase mem)
    /\ (forall j, ~ In j (directChildren idx op t) -> geomAt t' j = geomAt t j).
Proof.
  intros idx op g eb mem t Hrow Hcs Hce. cbv zeta.
  unfold distributeWidthsToChildren. rewrite Hrow.
  unfold distributeColChildWidths, forRange.
  set (contentW := if hasBorder op then int16 (W g - 2) else W g).
  destruct (colWidths_fold idx contentW eb mem
              (seqZ (ChildStart op) (ChildEnd op - ChildStart op))
              (NoDup_seqZ _ _) t) as (Ho & Hother & Hsame).
  { intros i Hi. apply list_elem_of_In, elem_of_seqZ in Hi. lia. }
  cbv zeta in Ho, Hother, Hsame.
  split; [exact Ho|]. split.
  - intros c Hc. unfold directChildren in Hc.
    apply List.filter_In in Hc as [Hc Hp].
    rewrite (Hsame c Hc), Hp. reflexivity.
  - intros j Hj.
    destruct (List.in_dec Z.eq_dec j
                (seqZ (ChildStart op) (ChildEnd op - ChildStart op)))
      as [Hin|Hout]; [|apply Hother; exact Hout].
    rewrite (Hsame j Hin).
    destruct (Parent (opAt t j) =? idx) eqn:Ep; [|reflexivity].
    exfalso. apply Hj. unfold directChildren. apply List.filter_In.
    split; assumption.
Qed.

Lemma col_child_widths_witness :
  map (fun c => W (geomAt (distributeWidthsToChildren 0 (opAt twoLinesTemplate 0)
                             (mkGeom 20 0 0 0 0) nil emptyMem twoLinesTemplate) c))
    (directChildren 0 (opAt twoLinesTemplate 0) twoLinesTemplate)
  = [3; 3].
Proof.
  assert (H1 : IsRow (opAt twoLinesTemplate 0) = false) by (vm_compute; reflexivity).
  assert (H2 : 0 <= ChildStart (opAt twoLinesTemplate 0))
    by (vm_compute; discriminate).
  assert (H3 : ChildEnd (opAt twoLinesTemplate 0) <= lenZ (geom twoLinesTemplate))
    by (vm_compute; discriminate).
  destruct (col_child_widths 0 (opAt twoLinesTemplate 0) (mkGeom 20 0 0 0 0)
              nil emptyMem twoLinesTemplate H1 H2 H3) as (_ & Hkids & _).
  assert (Hdc : directChildren 0 (opAt twoLinesTemplate 0) twoLinesTemplate
                = [1; 2]) by (vm_compute; reflexivity).
  rewrite Hdc in *. cbn [map].
  rewrite (Hkids 1) by (left; reflexivity).
  rewrite (Hkids 2) by (right; left; reflexivity).
  vm_compute. reflexivity.
Defined.

(** ** Text bound to a field of the iterated element *)

Lemma uintptr_id z : 0 <= z < 2 ^ 64 -> uintptr z = z.
Proof. intros Hz. unfold uintptr. apply Z.mod_small. exact Hz. Qed.

Lemma opAt_addOp op depth t :
  lenZ (ops t) <= 32767 ->
  opAt (fst (addOp op depth t)) (snd (addOp op depth t))
  = set_Depth (int8 depth) op.
Proof.
  intros Hlen. pose proof (lenZ_nonneg (ops t)) as Hn.
  rewrite addOp_idx, int16_id by lia.
  unfold opAt, lookupZ. destruct (lenZ (ops t) <? 0) eqn:E;
    [apply Z.ltb_lt in E; lia|].
  rewrite addOp_ops. unfold lenZ. rewrite Nat2Z.id.
  rewrite lookup_app_r by lia. rewrite Nat.sub_diag. reflexivity.
Qed.

(** A text bound to a string that lies inside the probe element, at the
    pointer [p] of the element at [probe], is compiled to an op that keeps
    the offset [p - probe] only; for the element at [base], Phase 1 measures
    and the sub-template walk writes the string at the same offset from
    [base]: for the probe element itself, the string at [p]. *)
Theorem offset_text_round_trip :
  forall (p parent depth probe elemSize : Z) (t t' : Template) (idx : Z)
         (fuel : nat) (gx gy maxW base availW : Z) (g : Geom)
         (buf : Buffer) (mem : Mem),
    probe <> nil -> 0 <= probe -> isWithinRange p probe elemSize = true ->
    p < 2 ^ 64 -> lenZ (ops t) <= 32767 ->
    base <> nil -> 0 <= base -> base + (p - probe) < 2 ^ 64 ->
    compileText (ContentPtr p) parent depth probe elemSize t = (t', idx) ->
    Kind (opAt t' idx) = OpTextOff
    /\ StrOff (opAt t' idx) = p - probe
    /\ W (setOpWidth (opAt t' idx) g availW base mem)
       = int16 (RuneCountInString (strAt mem (base + (p - probe))))
    /\ renderSubOp (S fuel) t' idx gx gy maxW base (buf, mem)
       = (buf ++ [WriteStringFast (int16 (gx + LocalX (geomAt t' idx)))
                    (int16 (gy + LocalY (geomAt t' idx)))
                    (strAt mem (base + (p - probe))) emptyStyle maxW], mem).
Proof.
  intros p parent depth probe es t t' idx fuel gx gy maxW base availW g buf mem
         Hprobe Hprobe0 Hin Hp Hlen Hbase Hbase0 Hfit Hc.
  unfold compileText in Hc.
  assert (Enil : (probe =? nil) = false) by (apply Z.eqb_neq; exact Hprobe).
  rewrite Enil, Hin in Hc. cbn [negb andb] in Hc.
  match type of Hc with
  | addOp ?o ?d ?t = _ =>
      pose proof (opAt_addOp o d t Hlen) as Hop; rewrite Hc in Hop;
      cbn [fst snd] in Hop
  end.
  unfold isWithinRange in Hin. apply andb_true_iff in Hin as [Hlo Hhi].
  apply Z.leb_le in Hlo.
  assert (Hoff : uintptr (p - probe) = p - probe) by (apply uintptr_id; lia).
  assert (Hk : Kind (opAt t' idx) = OpTextOff) by (rewrite Hop; reflexivity).
  assert (Hs : StrOff (opAt t' idx) = p - probe)
    by (rewrite Hop; cbn; exact Hoff).
  assert (Eb : (base =? nil) = false) by (apply Z.eqb_neq; exact Hbase).
  assert (Haddr : uintptr (base + StrOff (opAt t' idx)) = base + (p - probe))
    by (rewrite Hs; apply uintptr_id; lia).
  split; [exact Hk|]. split; [exact Hs|]. split.
  - unfold setOpWidth. rewrite Hk, Eb. cbn [negb]. rewrite Haddr. reflexivity.
  - rewrite (renderSubOp_TextOff_writes fuel t' idx gx gy maxW base buf mem Hk).
    rewrite Haddr. reflexivity.
Qed.

Lemma offset_text_round_trip_witness :
  renderSubOp 1 fieldText 0 0 0 80 116 ([], emptyMem)
  = ([WriteStringFast (int16 (0 + LocalX (geomAt fieldText 0)))
        (int16 (0 + LocalY (geomAt fieldText 0)))
        (strAt emptyMem (116 + (108 - 100))) emptyStyle 80], emptyMem).
Proof.
  assert (H1 : (100 : Z) <> nil) by discriminate.
  assert (H2 : 0 <= 100) by discriminate.
  assert (H3 : isWithinRange 108 100 16 = true) by reflexivity.
  assert (H4 : 108 < 2 ^ 64) by reflexivity.
  assert (H5 : lenZ (ops (newTemplate 8)) <= 32767) by (vm_compute; discriminate).
  assert (H6 : (116 : Z) <> nil) by discriminate.
  assert (H7 : 0 <= 116) by discriminate.
  assert (H8 : 116 + (108 - 100) < 2 ^ 64) by reflexivity.
  assert (H9 : compileText (ContentPtr 108) (-1) 0 100 16 (newTemplate 8)
               = (fieldText, 0)) by (vm_compute; reflexivity).
  exact (proj2 (proj2 (proj2
           (offset_text_round_trip 108 (-1) 0 100 16 (newTemplate 8) fieldText 0
              0%nat 0 0 80 116 0 zeroGeom [] emptyMem
              H1 H2 H3 H4 H5 H6 H7 H8 H9)))).
Defined.

(** The comparisons on one pointer and one value, on integers: [Ne] is the
    negation of [Eq], [Lte] of [Gt] and [Gte] of [Lt]; exactly one of [Lt],
    [Eq] and [Gt] holds; and both builders agree on [Eq] and on [Ne]. *)
Theorem conditions_partition :
  forall (p v : Z) (mem : Mem),
    let c := Conditions.IfOrd p in
    evaluate (Conditions.OrdNe c v) mem = negb (evaluate (Conditions.OrdEq c v) mem)
    /\ evaluate (Conditions.Lte c v) mem = negb (evaluate (Conditions.Gt c v) mem)
    /\ evaluate (Conditions.Gte c v) mem = negb (evaluate (Conditions.Lt c v) mem)
    /\ (evaluate (Conditions.Lt c v) mem, evaluate (Conditions.OrdEq c v) mem,
        evaluate (Conditions.Gt c v) mem)
       = match intAt mem p ?= v with
         | Datatypes.Lt => (true, false, false)
         | Datatypes.Eq => (false, true, false)
         | Datatypes.Gt => (false, false, true)
         end
    /\ evaluate (Conditions.Eq (Conditions.If p) v) mem
       = evaluate (Conditions.OrdEq c v) mem
    /\ evaluate (Conditions.Ne (Conditions.If p) v) mem
       = evaluate (Conditions.OrdNe c v) mem.
Proof.
  intros p v mem. cbv zeta.
  unfold evaluate, compareWith. cbn.
  destruct (Z.compare_spec (intAt mem p) v) as [E|E|E].
  - rewrite E, Z.eqb_refl, Z.ltb_irrefl, Z.leb_refl. repeat split.
  - assert (E1 : (intAt mem p =? v) = false) by (apply Z.eqb_neq; lia).
    assert (E2 : (v <? intAt mem p) = false) by (apply Z.ltb_ge; lia).
    assert (E3 : (intAt mem p <? v) = true) by (apply Z.ltb_lt; lia).
    assert (E4 : (v <=? intAt mem p) = false) by (apply Z.leb_gt; lia).
    assert (E5 : (intAt mem p <=? v) = true) by (apply Z.leb_le; lia).
    rewrite E1, E2, E3, E4, E5. repeat split.
  - assert (E1 : (intAt mem p =? v) = false) by (apply Z.eqb_neq; lia).
    assert (E2 : (v <? intAt mem p) = true) by (apply Z.ltb_lt; lia).
    assert (E3 : (intAt mem p <? v) = false) by (apply Z.ltb_ge; lia).
    assert (E4 : (v <=? intAt mem p) = true) by (apply Z.leb_le; lia).
    assert (E5 : (intAt mem p <=? v) = false) by (apply Z.leb_gt; lia).
    rewrite E1, E2, E3, E4, E5. repeat split.
Qed.

Ltac bitblast :=
  apply Z.bits_inj'; intros ? ?;
  repeat (rewrite Z.lor_spec || rewrite Z.land_spec || rewrite Z.ldiff_spec);
  repeat match goal with
         | |- context [Z.testbit ?a ?i] => destruct (Z.testbit a i)
         end;
  reflexivity.

Lemma uint8_land z : Cells.isUint8 z <-> Z.land z 255 = z.
Proof.
  change 255 with (Z.ones 8). rewrite Z.land_ones by lia.
  change (2 ^ 8) with 256. unfold Cells.isUint8. split.
  - intros Hz. apply Z.mod_small. exact Hz.
  - intros <-. apply Z.mod_pos_bound. lia.
Qed.

(** The algebra of attribute sets, on [uint8]: [With] and [Without] stay
    within [uint8]; a set has an attribute it was given, unless the
    attribute is empty, and has none of an attribute that was taken away;
    [With] is idempotent and commutes; [Without] undoes [With] up to what
    the set had before. *)
Theorem Attribute_algebra :
  forall a x y : Z,
    Cells.isUint8 a -> Cells.isUint8 x -> Cells.isUint8 y ->
    Cells.isUint8 (Cells.With a x)
    /\ Cells.isUint8 (Cells.Without a x)
    /\ Cells.Has (Cells.With a x) x = negb (x =? 0)
    /\ Cells.Has (Cells.Without a x) x = false
    /\ Cells.With (Cells.With a x) x = Cells.With a x
    /\ Cells.With (Cells.With a x) y = Cells.With (Cells.With a y) x
    /\ Cells.Without (Cells.With a x) x = Cells.Without a x
    /\ Cells.With (Cells.Without a x) x = Cells.With a x
    /\ (Z.land x y = 0 ->
        Cells.Has (Cells.With a x) y = Cells.Has a y
        /\ Cells.Has (Cells.Without a x) y = Cells.Has a y).
Proof.
  intros a x y Ha Hx Hy.
  apply uint8_land in Ha, Hx, Hy.
  unfold Cells.With, Cells.Without, Cells.Has.
  split; [|split; [|split; [|split; [|split; [|split; [|split; [|split]]]]]]].
  - apply uint8_land.
    assert (E : Z.land (Z.lor a x) 255 = Z.lor (Z.land a 255) (Z.land x 255))
      by bitblast.
    rewrite E, Ha, Hx. reflexivity.
  - apply uint8_land.
    assert (E : Z.land (Z.ldiff a x) 255 = Z.ldiff (Z.land a 255) x) by bitblast.
    rewrite E, Ha. reflexivity.
  - replace (Z.land (Z.lor a x) x) with x by bitblast. reflexivity.
  - replace (Z.land (Z.ldiff a x) x) with 0; [reflexivity|].
    symmetry. apply Z.bits_inj'. intros i Hi.
    rewrite Z.land_spec, Z.ldiff_spec, Z.bits_0.
    destruct (Z.testbit a i), (Z.testbit x i); reflexivity.
  - bitblast.
  - bitblast.
  - bitblast.
  - bitblast.
  - intros Hxy.
    assert (Hbit : forall i, 0 <= i -> Z.testbit x i && Z.testbit y i = false).
    { intros i Hi. rewrite <- Z.land_spec, Hxy. apply Z.bits_0. }
    split; f_equal; f_equal; apply Z.bits_inj'; intros i Hi;
      repeat (rewrite Z.lor_spec || rewrite Z.land_spec || rewrite Z.ldiff_spec);
      specialize (Hbit i Hi);
      destruct (Z.testbit a i), (Z.testbit x i), (Z.testbit y i);
      simpl in *; congruence.
Qed.

Lemma Attribute_algebra_witness :
  Cells.Has (Cells.With Cells.AttrBold Cells.AttrItalic) Cells.AttrItalic = true
  /\ Cells.Has (Cells.Without (Cells.With Cells.AttrBold Cells.AttrItalic)
                  Cells.AttrItalic) Cells.AttrBold = true.
Proof.
  assert (H1 : Cells.isUint8 Cells.AttrBold) by (vm_compute; split; [discriminate|reflexivity]).
  assert (H2 : Cells.isUint8 Cells.AttrItalic) by (vm_compute; split; [discriminate|reflexivity]).
  destruct (Attribute_algebra Cells.AttrBold Cells.AttrItalic Cells.AttrBold
              H1 H2 H1) as (_ & _ & Hhas & _).
  split; [rewrite Hhas; reflexivity|vm_compute; reflexivity].
Defined.

(** [Color.Equal] compares what the mode of the colours uses and nothing
    else: it is symmetric and transitive on all colours, and a colour equals
    itself exactly when its mode is one of the four named ones; for the
    default mode no component counts. *)
Theorem Color_Equal_partial_equivalence :
  forall c d e : Cells.Color,
    Cells.Color_Equal c d = Cells.Color_Equal d c
    /\ (Cells.Color_Equal c d = true -> Cells.Color_Equal d e = true ->
        Cells.Color_Equal c e = true)
    /\ (Cells.Color_Equal c c = true <-> 0 <= Cells.Mode c <= 3)
    /\ (Cells.Mode c = Cells.ColorDefault -> Cells.Mode d = Cells.ColorDefault ->
        Cells.Color_Equal c d = true).
Proof.
  intros [mc rc gc bc ic] [md rd gd bd id] [me re ge be ie].
  unfold Cells.Color_Equal, Cells.ColorDefault, Cells.Color16, Cells.Color256,
    Cells.ColorRGB. cbn [Cells.Mode Cells.R Cells.G Cells.B Cells.Index].
  split; [|split; [|split]].
  - destruct (Z.eqb_spec mc md) as [->|Hne].
    + rewrite Z.eqb_refl. cbn [negb].
      rewrite (Z.eqb_sym ic id), (Z.eqb_sym rc rd), (Z.eqb_sym gc gd),
        (Z.eqb_sym bc bd). reflexivity.
    + destruct (Z.eqb_spec md mc) as [E|_]; [congruence|reflexivity].
  - destruct (Z.eqb_spec mc md) as [->|Hne]; cbn [negb]; [|discriminate].
    destruct (Z.eqb_spec md me) as [->|Hne]; cbn [negb]; [|discriminate].
    destruct (me =? 0); [reflexivity|].
    destruct ((me =? 1) || (me =? 2)).
    + intros H1 H2. apply Z.eqb_eq in H1, H2. apply Z.eqb_eq. congruence.
    + destruct (me =? 3); [|discriminate].
      intros H1 H2.
      apply andb_true_iff in H1 as [H1 H1b]. apply andb_true_iff in H1 as [H1r H1g].
      apply andb_true_iff in H2 as [H2 H2b]. apply andb_true_iff in H2 as [H2r H2g].
      apply Z.eqb_eq in H1r, H1g, H1b, H2r, H2g, H2b.
      rewrite !andb_true_iff, !Z.eqb_eq. repeat split; congruence.
  - rewrite Z.eqb_refl. cbn [negb]. rewrite !Z.eqb_refl. cbn [andb].
    destruct (Z.eqb_spec mc 0) as [->|H0]; [split; [lia|reflexivity]|].
    destruct (Z.eqb_spec mc 1) as [->|H1]; [split; [lia|reflexivity]|].
    destruct (Z.eqb_spec mc 2) as [->|H2]; [split; [lia|reflexivity]|].
    destruct (Z.eqb_spec mc 3) as [->|H3]; [split; [lia|reflexivity]|].
    cbn [orb]. split; [discriminate|lia].
  - intros -> ->. reflexivity.
Qed.

Lemma Color_Equal_partial_equivalence_witness :
  Cells.Color_Equal (Cells.mkColor Cells.ColorDefault 9 9 9 9) Cells.DefaultColor
  = true.
Proof.
  destruct (Color_Equal_partial_equivalence
              (Cells.mkColor Cells.ColorDefault 9 9 9 9) Cells.DefaultColor
              Cells.DefaultColor) as (_ & _ & _ & Hdef).
  apply Hdef; reflexivity.
Defined.

(** [Hex] reads a colour as [0xRRGGBB]: on the number made of three bytes it
    gives back [RGB] of the bytes; its components always fit [uint8]; and
    the bits of the number above the 24th do not count. *)
Theorem Hex_RGB :
  forall r g b hex : Z,
    Cells.isUint8 r -> Cells.isUint8 g -> Cells.isUint8 b -> 0 <= hex ->
    Cells.Hex (r * 65536 + g * 256 + b) = Cells.RGB r g b
    /\ (Cells.isUint8 (Cells.R (Cells.Hex hex))
        /\ Cells.isUint8 (Cells.G (Cells.Hex hex))
        /\ Cells.isUint8 (Cells.B (Cells.Hex hex)))
    /\ Cells.Hex (hex mod 2 ^ 24) = Cells.Hex hex.
Proof.
  intros r g b hex Hr Hg Hb Hhex. unfold Cells.isUint8 in *.
  assert (Hland : forall z, Z.land z 255 = z mod 256).
  { intros z. change 255 with (Z.ones 8). rewrite Z.land_ones by lia.
    reflexivity. }
  assert (Hcomp : forall z, Cells.uint8 (Z.land z 255) = z mod 256).
  { intros z. unfold Cells.uint8. rewrite Hland. apply Z.mod_mod. lia. }
  unfold Cells.Hex, Cells.RGB. rewrite !Hcomp.
  rewrite !Z.shiftr_div_pow2 by lia.
  change (2 ^ 16) with 65536. change (2 ^ 8) with 256.
  change (2 ^ 24) with 16777216.
  split; [|split; [|]].
  - f_equal; Z.div_mod_to_equations; lia.
  - cbn [Cells.R Cells.G Cells.B].
    repeat split; apply Z.mod_pos_bound; lia.
  - f_equal; Z.div_mod_to_equations; lia.
Qed.

Lemma Hex_RGB_witness : Cells.Hex 16733440 = Cells.RGB 255 85 0.
Proof.
  assert (H1 : Cells.isUint8 255) by (split; [discriminate|reflexivity]).
  assert (H2 : Cells.isUint8 85) by (split; [discriminate|reflexivity]).
  assert (H3 : Cells.isUint8 0) by (split; [discriminate|reflexivity]).
  assert (H4 : 0 <= 0) by discriminate.
  exact (proj1 (Hex_RGB 255 85 0 0 H1 H2 H3 H4)).
Defined.

Lemma attrBuilders_spec b x :
  In (b, x) Cells.attrBuilders ->
  (forall s, b s = Cells.mkStyle (Cells.FG s) (Cells.BG s)
                     (Cells.With (Cells.Attr s) x))
  /\ In x [2; 4; 8; 16; 64; 128].
Proof.
  unfold Cells.attrBuilders. cbn [In].
  intros [E|[E|[E|[E|[E|[E|[]]]]]]]; injection E as <- <-;
    (split; [intros s; reflexivity|cbn; tauto]).
Qed.

Lemma With_Has_same a x : x <> 0 -> Cells.Has (Cells.With a x) x = true.
Proof.
  intros Hx. unfold Cells.Has, Cells.With.
  replace (Z.land (Z.lor a x) x) with x by bitblast.
  apply negb_true_iff, Z.eqb_neq. exact Hx.
Qed.

Lemma With_Has_other a x y :
  Z.land x y = 0 -> Cells.Has (Cells.With a x) y = Cells.Has a y.
Proof.
  intros Hxy. unfold Cells.Has, Cells.With. f_equal. f_equal.
  apply Z.bits_inj'. intros i Hi.
  assert (Hbit : Z.testbit x i && Z.testbit y i = false)
    by (rewrite <- Z.land_spec, Hxy; apply Z.bits_0).
  repeat (rewrite Z.lor_spec || rewrite Z.land_spec).
  destruct (Z.testbit a i), (Z.testbit x i), (Z.testbit y i);
    simpl in *; congruence.
Qed.

(** The builders of [Style] that switch an attribute on ([Bold], [Dim],
    [Italic], [Underline], [Inverse], [Strikethrough]): each leaves the
    colours alone, sets its own attribute and no other, is idempotent, and
    any two of them commute. *)
Theorem Style_attribute_builders :
  forall (b b' : Cells.Style -> Cells.Style) (x y : Z) (s : Cells.Style),
    In (b, x) Cells.attrBuilders -> In (b', y) Cells.attrBuilders ->
    Cells.FG (b s) = Cells.FG s
    /\ Cells.BG (b s) = Cells.BG s
    /\ Cells.Has (Cells.Attr (b s)) x = true
    /\ (x <> y ->
        Cells.Has (Cells.Attr (b s)) y = Cells.Has (Cells.Attr s) y)
    /\ b (b s) = b s
    /\ b (b' s) = b' (b s).
Proof.
  intros b b' x y s Hb Hb'.
  destruct (attrBuilders_spec b x Hb) as [Eb Hx].
  destruct (attrBuilders_spec b' y Hb') as [Eb' Hy].
  rewrite !Eb, !Eb'. cbn [Cells.FG Cells.BG Cells.Attr].
  split; [reflexivity|]. split; [reflexivity|]. split; [|split; [|split]].
  - apply With_Has_same. cbn [In] in Hx. lia.
  - intros Hne. apply With_Has_other.
    cbn [In] in Hx, Hy.
    destruct Hx as [<-|[<-|[<-|[<-|[<-|[<-|[]]]]]]];
      destruct Hy as [<-|[<-|[<-|[<-|[<-|[<-|[]]]]]]];
      try reflexivity; congruence.
  - f_equal. unfold Cells.With. bitblast.
  - f_equal. unfold Cells.With. bitblast.
Qed.

Lemma Style_attribute_builders_witness :
  Cells.Bold (Cells.Italic Cells.DefaultStyle)
  = Cells.Italic (Cells.Bold Cells.DefaultStyle).
Proof.
  assert (H1 : In (Cells.Bold, Cells.AttrBold) Cells.attrBuilders)
    by (left; reflexivity).
  assert (H2 : In (Cells.Italic, Cells.AttrItalic) Cells.attrBuilders)
    by (right; right; left; reflexivity).
  destruct (Style_attribute_builders Cells.Bold Cells.Italic Cells.AttrBold
              Cells.AttrItalic Cells.DefaultStyle H1 H2)
    as (_ & _ & _ & _ & _ & Hcomm).
  exact Hcomm.
Defined.

Lemma int16_add_mid a b c : int16 (a + int16 b + c) = int16 (a + b + c).
Proof.
  replace (a + int16 b + c) with (int16 b + (a + c)) by lia.
  rewrite int16_add_l. f_equal. lia.
Qed.

Lemma reposition_cursor (c : bool) off cursor g :
  int16 (off + (if c then int16 (cursor + int16 g) else cursor))
  = int16 (off + cursor + (if c then g else 0)).
Proof.
  destruct c.
  - rewrite int16_add_r, Z.add_assoc, int16_add_r. reflexivity.
  - f_equal. lia.
Qed.

Lemma geomAt_LocalY_frame i y t j :
  W (geomAt (updGeom i (set_LocalY y) t) j) = W (geomAt t j)
  /\ LocalX (geomAt (updGeom i (set_LocalY y) t) j) = LocalX (geomAt t j)
  /\ ContentH (geomAt (updGeom i (set_LocalY y) t) j) = ContentH (geomAt t j).
Proof.
  destruct (decide (i = j)) as [->|Hne].
  - unfold geomAt, updGeom, lookupZ, alterZ. simpl.
    destruct (j <? 0); [auto|].
    rewrite list_lookup_alter_eq. destruct (geom t !! Z.to_nat j); auto.
  - rewrite geomAt_updGeom_other by exact Hne. auto.
Qed.

Lemma colReposition_positions idx op l :
  NoDup l ->
  forall t cursor first,
    (forall i, In i l -> 0 <= i < lenZ (geom t)) ->
    let r := fst (fst (fold_left (fun s i => colRepositionStep idx op i s) l
                         (t, cursor, first))) in
    let kids := List.filter (fun i => Parent (opAt t i) =? idx) l in
    (forall (k : nat) (c : Z),
        kids !! k = Some c ->
        LocalY (geomAt r c)
        = int16 ((if hasBorder op then 1 else 0) + cursor
                 + sumZ (map (fun j => H (geomAt t j)) (take k kids))
                 + gapWidth op * (if first then Z.of_nat k else Z.of_nat k + 1)))
    /\ (forall j, ~ In j kids -> geomAt r j = geomAt t j).
Proof.
  induction 1 as [|i l Hnotin Hnd IH]; intros t cursor first Hin; cbv zeta.
  - cbn [fold_left List.filter fst]. split; [intros k c Hk; discriminate Hk|].
    reflexivity.
  - cbn [fold_left]. rewrite filter_cons_bool.
    rewrite list_elem_of_In in Hnotin.
    remember (colRepositionStep idx op i (t, cursor, first)) as st1 eqn:Est.
    unfold colRepositionStep in Est.
    destruct (Parent (opAt t i) =? idx) eqn:Ep; cbn [negb] in Est;
      [|subst st1; apply IH; intros k Hk; apply Hin; right; exact Hk].
    set (cursor1 := if negb first && (0 <? Gap op)
                    then int16 (cursor + int16 (Gap op)) else cursor) in *.
    set (off := if hasBorder op then 1 else 0) in *.
    set (t1 := updGeom i (set_LocalY (int16 (off + cursor1))) t) in *.
    subst st1.
    assert (Hi : 0 <= i < lenZ (geom t)) by (apply Hin; left; reflexivity).
    destruct (IH t1 (int16 (cursor1 + H (geomAt t1 i))) false) as [Hpos Hrest].
    { intros k Hk. unfold t1. rewrite lenZ_geom_updGeom. apply Hin. right.
      exact Hk. }
    cbv zeta in Hpos, Hrest.
    assert (Hkids : List.filter (fun k => Parent (opAt t1 k) =? idx) l
                    = List.filter (fun k => Parent (opAt t k) =? idx) l)
      by reflexivity.
    rewrite Hkids in Hpos, Hrest.
    set (kids := List.filter (fun k => Parent (opAt t k) =? idx) l) in *.
    assert (Hnk : ~ In i kids).
    { unfold kids. intros Hk. apply List.filter_In in Hk as [Hk _].
      exact (Hnotin Hk). }
    assert (HH : forall j, H (geomAt t1 j) = H (geomAt t j))
      by (intros j; apply H_updGeom_LocalY).
    assert (Hgap : (if negb first && (0 <? Gap op) then Gap op else 0)
                   = gapWidth op * (if first then 0 else 1)).
    { unfold gapWidth. destruct first, (0 <? Gap op); cbn [negb andb]; lia. }
    split.
    + intros k c Hk. destruct k as [|k]; cbn [lookup list_lookup] in Hk.
      * injection Hk as <-. rewrite (Hrest i Hnk). unfold t1.
        rewrite geomAt_updGeom_same by exact Hi. cbn [LocalY set_LocalY].
        unfold cursor1. rewrite reposition_cursor, Hgap.
        cbn [take map]. f_equal. unfold sumZ. cbn [foldr].
        destruct first; lia.
      * rewrite (Hpos k c Hk). cbn [take map]. rewrite sumZ_cons.
        rewrite (map_ext (fun j => H (geomAt t1 j)) (fun j => H (geomAt t j)) HH).
        rewrite HH.
        set (S := sumZ (map (fun j => H (geomAt t j)) (take k kids))).
        set (G := gapWidth op * (Z.of_nat k + 1)).
        replace (off + int16 (cursor1 + H (geomAt t i)) + S + G)
          with (off + int16 (cursor1 + H (geomAt t i)) + (S + G)) by lia.
        rewrite int16_add_mid.
        replace (off + (cursor1 + H (geomAt t i)) + (S + G))
          with (off + cursor1 + (H (geomAt t i) + S + G)) by lia.
        rewrite <- (int16_add_l (off + cursor1)).
        unfold cursor1 at 1. rewrite reposition_cursor, Hgap, int16_add_l.
        f_equal. unfold G. destruct first; lia.
    + intros j Hj. rewrite Hrest by (intros Hl; apply Hj; right; exact Hl).
      unfold t1. apply geomAt_updGeom_other. intros ->. apply Hj. left.
      reflexivity.
Qed.

(** The sweep that follows the distribution of the extra height stacks the
    direct children of the column: the first one starts under the border,
    every other one where the one before it ends, plus the gap (in 16-bit
    arithmetic); the sweep changes neither a height nor an op. *)
Theorem colReposition_stacks :
  forall (idx : Z) (op : Op) (t : Template),
    0 <= ChildStart op -> ChildEnd op <= lenZ (geom t) ->
    let t' := colReposition idx op t in
    let kids := directChildren idx op t in
    (forall c, head kids = Some c ->
               LocalY (geomAt t' c) = (if hasBorder op then 1 else 0))
    /\ (forall (k : nat) (c c' : Z),
           kids !! k = Some c -> kids !! S k = Some c' ->
           LocalY (geomAt t' c')
           = int16 (LocalY (geomAt t' c) + H (geomAt t' c) + gapWidth op))
    /\ (forall j, H (geomAt t' j) = H (geomAt t j))
    /\ ops t' = ops t.
Proof.
  intros idx op t Hcs Hce. cbv zeta.
  rewrite colReposition_unfold.
  destruct (colReposition_positions idx op
              (seqZ (ChildStart op) (ChildEnd op - ChildStart op))
              (NoDup_seqZ _ _) t 0 true) as [Hpos _].
  { intros i Hi. apply list_elem_of_In, elem_of_seqZ in Hi. lia. }
  cbv zeta in Hpos. fold (directChildren idx op t) in Hpos.
  set (kids := directChildren idx op t) in *.
  set (t' := fst (fst (fold_left _ _ (t, 0, true)))) in *.
  assert (HH : forall j, H (geomAt t' j) = H (geomAt t j)).
  { intros j. unfold t'.
    apply (colReposition_fold idx op j _ t 0 true). }
  split; [|split; [|split]].
  - intros c Hc. destruct kids as [|c0 rest] eqn:Ek; [discriminate Hc|].
    injection Hc as ->. rewrite (Hpos 0%nat c eq_refl).
    cbn [take map]. unfold sumZ. cbn [foldr].
    change (Z.of_nat 0) with 0. rewrite Z.mul_0_r, !Z.add_0_r.
    destruct (hasBorder op); reflexivity.
  - intros k c c' Hk Hk'.
    rewrite (Hpos (S k) c' Hk'), (Hpos k c Hk), HH.
    rewrite (take_S_r kids k c Hk), map_app, sumZ_app. cbn [map].
    rewrite sumZ_cons. unfold sumZ at 2. cbn [foldr].
    symmetry.
    match goal with
    | |- int16 (int16 ?X + ?h + ?g) = _ =>
        replace (int16 X + h + g) with (int16 X + (h + g)) by lia
    end.
    rewrite int16_add_l. f_equal. lia.
  - exact HH.
  - unfold t'. apply (colReposition_fold idx op 0 _ t 0 true).
Qed.

Lemma colReposition_stacks_witness :
  map (fun c => LocalY (geomAt (colReposition 0 (opAt twoLinesLaid 0) twoLinesLaid) c))
    (directChildren 0 (opAt twoLinesLaid 0) twoLinesLaid) = [0; 1].
Proof.
  assert (H1 : 0 <= ChildStart (opAt twoLinesLaid 0)) by (vm_compute; discriminate).
  assert (H2 : ChildEnd (opAt twoLinesLaid 0) <= lenZ (geom twoLinesLaid))
    by (vm_compute; discriminate).
  destruct (colReposition_stacks 0 (opAt twoLinesLaid 0) twoLinesLaid H1 H2)
    as (Hfirst & Hnext & HH & _).
  assert (Hdc : directChildren 0 (opAt twoLinesLaid 0) twoLinesLaid = [1; 2])
    by (vm_compute; reflexivity).
  rewrite Hdc in *. cbn [map].
  rewrite (Hnext 0%nat 1 2 eq_refl eq_refl), (Hfirst 1 eq_refl), HH.
  vm_compute. reflexivity.
Defined.
